(** * xiaozhi-music-mcp: the track resolution pipeline of [music_mcp_server.py]

    A shallow embedding of the server (signer, URL normaliser, upstream
    client, redirect resolver, search cache, resolve tool, lyric helpers,
    playlist tools) and the properties of its specification.

    Conventions.
    - A Python [str] is a [string]; an [ascii] stands for a code point
      below 256, so [isspace] lists the white space of that range.
    - [urllib.parse] is embedded after CPython 3.12.  [hmac]/[hashlib] are
      embedded as HMAC over SHA-1 on bytes.
    - What the process cannot compute by itself is a parameter: the
      environment variables, the HTTP peer, [json.loads], the [repr] of
      numbers and containers, and the validation of a bracketed host.
      The peer [http] is what [client.get] hands over or raises;
      [httpx_send] builds such a peer from the answers of the upstream for
      the one request that follows no redirect.
    - Functions that may raise return a [result]; [async] functions live in
      the monad [M], which threads the module's mutable globals and the
      list of observable events (requests, progress reports).
    - Left out: logging, and the wording of the texts that the tools
      return. *)

From Stdlib Require Import ZArith NArith List String Ascii Bool Lia DecimalString.
From stdpp Require Import gmap strings.
Import ListNotations.
Local Open Scope string_scope.

(** ** Exceptions *)

Inductive exn : Type :=
| ValueError        (* urllib.parse, json *)
| RuntimeError      (* raised by _build_music_params *)
| TypeError
| AttributeError
| TransportError.   (* any httpx failure: connect, timeout, protocol *)

Inductive result (A : Type) : Type :=
| Ok (a : A)
| Raise (e : exn).
Arguments Ok {A} a.
Arguments Raise {A} e.

Definition rbind {A B} (r : result A) (k : A -> result B) : result B :=
  match r with
  | Ok a => k a
  | Raise e => Raise e
  end.

(** ** Python strings *)

Module Py.

Definition ord (c : ascii) : N := N_of_ascii c.

(** [str.isspace] on one character. *)
Definition isspace (c : ascii) : bool :=
  let n := ord c in
  ((9 <=? n) && (n <=? 13) || (28 <=? n) && (n <=? 32)
   || (n =? 133) || (n =? 160))%N.

(** Truth value of a [str]: [bool(s)]. *)
Definition truthy (s : string) : bool :=
  match s with
  | EmptyString => false
  | String _ _ => true
  end.

Fixpoint lstrip_by (p : ascii -> bool) (s : string) : string :=
  match s with
  | EmptyString => EmptyString
  | String c r => if p c then lstrip_by p r else s
  end.

Fixpoint rstrip_by (p : ascii -> bool) (s : string) : string :=
  match s with
  | EmptyString => EmptyString
  | String c r =>
      match rstrip_by p r with
      | EmptyString => if p c then EmptyString else String c EmptyString
      | r' => String c r'
      end
  end.

Definition strip_by (p : ascii -> bool) (s : string) : string :=
  rstrip_by p (lstrip_by p s).

(** [s.strip()] *)
Definition strip (s : string) : string := strip_by isspace s.

(** [s.find(c)], [None] for -1. *)
Fixpoint find (c : ascii) (s : string) : option nat :=
  match s with
  | EmptyString => None
  | String d r =>
      if Ascii.eqb c d then Some 0
      else match find c r with
           | Some i => Some (S i)
           | None => None
           end
  end.

(** [c in s] *)
Definition contains (c : ascii) (s : string) : bool :=
  match find c s with Some _ => true | None => false end.

(** [s[:n]] and [s[n:]] for [n >= 0]. *)
Fixpoint take (n : nat) (s : string) : string :=
  match n, s with
  | S n', String c r => String c (take n' r)
  | _, _ => EmptyString
  end.

Fixpoint drop (n : nat) (s : string) : string :=
  match n, s with
  | S n', String _ r => drop n' r
  | _, _ => s
  end.

Fixpoint all (p : ascii -> bool) (s : string) : bool :=
  match s with
  | EmptyString => true
  | String c r => p c && all p r
  end.

Fixpoint filter (p : ascii -> bool) (s : string) : string :=
  match s with
  | EmptyString => EmptyString
  | String c r => if p c then String c (filter p r) else filter p r
  end.

Fixpoint map (f : ascii -> ascii) (s : string) : string :=
  match s with
  | EmptyString => EmptyString
  | String c r => String (f c) (map f r)
  end.

(** [s.startswith(p)] *)
Fixpoint startswith (p s : string) : bool :=
  match p, s with
  | EmptyString, _ => true
  | String a p', String b s' => Ascii.eqb a b && startswith p' s'
  | String _ _, EmptyString => false
  end.

Definition is_upper (c : ascii) : bool := ((65 <=? ord c) && (ord c <=? 90))%N.
Definition is_lower (c : ascii) : bool := ((97 <=? ord c) && (ord c <=? 122))%N.
Definition is_digit (c : ascii) : bool := ((48 <=? ord c) && (ord c <=? 57))%N.

(** [c.isascii() and c.isalpha()] *)
Definition is_ascii_alpha (c : ascii) : bool := is_upper c || is_lower c.

(** [str.lower] on the ASCII letters (all that a scheme can hold). *)
Definition lower_char (c : ascii) : ascii :=
  if is_upper c then ascii_of_N (ord c + 32) else c.
Definition lower (s : string) : string := map lower_char s.

(** [s.split(sep)] for a one-character separator. *)
Fixpoint split (sep : ascii) (s : string) : list string :=
  match s with
  | EmptyString => [EmptyString]
  | String c r =>
      if Ascii.eqb c sep then EmptyString :: split sep r
      else match split sep r with
           | x :: xs => String c x :: xs
           | [] => [String c EmptyString]
           end
  end.

(** [sep.join(l)] *)
Fixpoint join (sep : string) (l : list string) : string :=
  match l with
  | [] => EmptyString
  | [x] => x
  | x :: xs => x ++ sep ++ join sep xs
  end.

(** [s.split(sep, 1)] when [sep in s]: the parts around the first [sep]. *)
Definition partition (sep : ascii) (s : string) : string * string :=
  match find sep s with
  | Some i => (take i s, drop (S i) s)
  | None => (s, EmptyString)
  end.

(** [a or b] on strings. *)
Definition or_else (a b : string) : string := if truthy a then a else b.

(** [s in l] *)
Definition mem (s : string) (l : list string) : bool :=
  existsb (String.eqb s) l.

End Py.

(** ** urllib.parse (CPython 3.12) *)

Module Urllib.

Record SplitResult : Type := mkSplit {
  s_scheme : string; s_netloc : string; s_path : string;
  s_query : string; s_fragment : string }.

Record ParseResult : Type := mkParse {
  scheme : string; netloc : string; path : string;
  params : string; query : string; fragment : string }.

Definition uses_relative : list string :=
  [""; "ftp"; "http"; "gopher"; "nntp"; "imap"; "wais"; "file"; "https";
   "shttp"; "mms"; "prospero"; "rtsp"; "rtsps"; "rtspu"; "sftp"; "svn";
   "svn+ssh"; "ws"; "wss"].

Definition uses_netloc : list string :=
  [""; "ftp"; "http"; "gopher"; "nntp"; "telnet"; "imap"; "wais"; "file";
   "mms"; "https"; "shttp"; "snews"; "prospero"; "rtsp"; "rtsps"; "rtspu";
   "rsync"; "svn"; "svn+ssh"; "sftp"; "nfs"; "git"; "git+ssh"; "ws"; "wss";
   "itms-services"].

Definition uses_params : list string :=
  [""; "ftp"; "hdl"; "prospero"; "http"; "imap"; "https"; "shttp"; "rtsp";
   "rtsps"; "rtspu"; "sip"; "sips"; "mms"; "sftp"; "tel"].

(** [scheme_chars]: letters, digits and [+-.] *)
Definition scheme_char (c : ascii) : bool :=
  Py.is_ascii_alpha c || Py.is_digit c
  || Ascii.eqb c "+" || Ascii.eqb c "-" || Ascii.eqb c ".".

(** [_WHATWG_C0_CONTROL_OR_SPACE]: code points 0..32 *)
Definition c0_or_space (c : ascii) : bool := (Py.ord c <=? 32)%N.

(** [_UNSAFE_URL_BYTES_TO_REMOVE]: tab, carriage return, line feed *)
Definition unsafe_byte (c : ascii) : bool :=
  ((Py.ord c =? 9) || (Py.ord c =? 13) || (Py.ord c =? 10))%N.

Definition remove_unsafe (s : string) : string :=
  Py.filter (fun c => negb (unsafe_byte c)) s.

(** The text [urlsplit] works on: left-stripped, unsafe bytes removed. *)
Definition clean_url (url : string) : string :=
  remove_unsafe (Py.lstrip_by c0_or_space url).

Definition clean_scheme (default : string) : string :=
  remove_unsafe (Py.strip_by c0_or_space default).

(** The scheme found in front of the cleaned text, and what follows it.
    [None] when the text has no scheme of its own. *)
Definition own_scheme (url : string) : option (string * string) :=
  match Py.find ":" url, url with
  | Some (S i), String c0 _ =>
      if Py.is_ascii_alpha c0 && Py.all scheme_char (Py.take (S i) url)
      then Some (Py.lower (Py.take (S i) url), Py.drop (S (S i)) url)
      else None
  | _, _ => None
  end.

(** The scheme a URL text carries: [urlsplit(url).scheme]. *)
Definition scheme_of (url : string) : string :=
  match own_scheme (clean_url url) with
  | Some (s, _) => s
  | None => EmptyString
  end.

(** [_splitnetloc(url, 2)] on a text that starts with two slashes. *)
Fixpoint until_delim (s : string) : string * string :=
  match s with
  | EmptyString => (EmptyString, EmptyString)
  | String c r =>
      if Ascii.eqb c "/" || Ascii.eqb c "?" || Ascii.eqb c "#"
      then (EmptyString, s)
      else let (a, b) := until_delim r in (String c a, b)
  end.

Definition splitnetloc2 (url : string) : string * string :=
  until_delim (Py.drop 2 url).

Section Parse.

(** [_check_bracketed_netloc]: whether the host between matching brackets
    is an IPv6 or IPvFuture literal.  [true] when the check passes. *)
Variable check_bracketed_netloc : string -> bool.

Definition check_netloc_brackets (nl : string) : result unit :=
  let o := Py.contains "[" nl in
  let c := Py.contains "]" nl in
  if (o && negb c) || (c && negb o) then Raise ValueError
  else if o && c then
         if check_bracketed_netloc nl then Ok tt else Raise ValueError
       else Ok tt.

(** [urlsplit(url, scheme=default)].  The NFKC check of the netloc cannot
    fail on code points below 256 and is left out. *)
Definition urlsplit (url default : string) : result SplitResult :=
  let url := clean_url url in
  let default := clean_scheme default in
  let (sch, url) :=
    match own_scheme url with
    | Some (s, rest) => (s, rest)
    | None => (default, url)
    end in
  rbind
    (if Py.startswith "//" url
     then let (nl, rest) := splitnetloc2 url in
          rbind (check_netloc_brackets nl) (fun _ => Ok (nl, rest))
     else Ok (EmptyString, url))
    (fun '(nl, url) =>
       let (url, frag) :=
         if Py.contains "#" url then Py.partition "#" url
         else (url, EmptyString) in
       let (url, qry) :=
         if Py.contains "?" url then Py.partition "?" url
         else (url, EmptyString) in
       Ok (mkSplit sch nl url qry frag)).

(** [str.rfind] followed by [str.find(c, start)], as [_splitparams] uses
    them: the first [;] at or after the last [/]. *)
Fixpoint rfind (c : ascii) (s : string) : option nat :=
  match s with
  | EmptyString => None
  | String d r =>
      match rfind c r with
      | Some i => Some (S i)
      | None => if Ascii.eqb c d then Some 0 else None
      end
  end.

Definition find_from (c : ascii) (start : nat) (s : string) : option nat :=
  match Py.find c (Py.drop start s) with
  | Some i => Some (start + i)
  | None => None
  end.

Definition splitparams (url : string) : string * string :=
  match rfind "/" url with
  | Some k =>
      match find_from ";" k url with
      | Some i => (Py.take i url, Py.drop (S i) url)
      | None => (url, EmptyString)
      end
  | None =>
      (* no slash: [i = url.find(';')], which the caller knows is found *)
      match Py.find ";" url with
      | Some i => (Py.take i url, Py.drop (S i) url)
      | None => (url, EmptyString)
      end
  end.

(** [urlparse(url, scheme=default)] *)
Definition urlparse (url default : string) : result ParseResult :=
  rbind (urlsplit url default) (fun r =>
    let (p, prm) :=
      if Py.mem (s_scheme r) uses_params && Py.contains ";" (s_path r)
      then splitparams (s_path r)
      else (s_path r, EmptyString) in
    Ok (mkParse (s_scheme r) (s_netloc r) p prm (s_query r) (s_fragment r))).

(** [urlunsplit] *)
Definition urlunsplit (sch nl url qry frag : string) : string :=
  let url :=
    if Py.truthy nl
       || (Py.truthy sch && Py.mem sch uses_netloc
           && negb (String.eqb (Py.take 2 url) "//"))
    then
      let url :=
        if Py.truthy url && negb (String.eqb (Py.take 1 url) "/")
        then "/" ++ url else url in
      "//" ++ nl ++ url
    else url in
  let url := if Py.truthy sch then sch ++ ":" ++ url else url in
  let url := if Py.truthy qry then url ++ "?" ++ qry else url in
  if Py.truthy frag then url ++ "#" ++ frag else url.

(** [urlunparse] *)
Definition urlunparse (sch nl url prm qry frag : string) : string :=
  let url := if Py.truthy prm then url ++ ";" ++ prm else url in
  urlunsplit sch nl url qry frag.

(** [segments[1:-1] = filter(None, segments[1:-1])] *)
Fixpoint drop_empty_inner (l : list string) : list string :=
  match l with
  | [] => []
  | [x] => [x]
  | x :: xs => if Py.truthy x then x :: drop_empty_inner xs
               else drop_empty_inner xs
  end.

Definition filter_middle (segments : list string) : list string :=
  match segments with
  | [] => []
  | x :: xs => x :: drop_empty_inner xs
  end.

(** The loop of [urljoin] over the segments; [acc] is [resolved_path]
    with its last element first. *)
Fixpoint resolve_segments (segments acc : list string) : list string :=
  match segments with
  | [] => List.rev acc
  | seg :: rest =>
      if String.eqb seg ".." then resolve_segments rest (List.tl acc)
      else if String.eqb seg "." then resolve_segments rest acc
      else resolve_segments rest (seg :: acc)
  end.

Definition remove_dot_segments (segments : list string) : list string :=
  let resolved := resolve_segments segments [] in
  let lst := List.last segments EmptyString in
  if String.eqb lst "." || String.eqb lst ".."
  then resolved ++ [EmptyString] else resolved.

(** [base_parts]: the base path without its last segment unless that
    segment is empty. *)
Definition base_parts (bpath : string) : list string :=
  let parts := Py.split "/" bpath in
  if String.eqb (List.last parts EmptyString) "" then parts
  else List.removelast parts.

(** [urljoin(base, url)] *)
Definition urljoin (base url : string) : result string :=
  if negb (Py.truthy base) then Ok url
  else if negb (Py.truthy url) then Ok base
  else
    rbind (urlparse base "") (fun b =>
    rbind (urlparse url (scheme b)) (fun u =>
      if negb (String.eqb (scheme u) (scheme b))
         || negb (Py.mem (scheme u) uses_relative)
      then Ok url
      else if Py.mem (scheme u) uses_netloc && Py.truthy (netloc u)
      then Ok (urlunparse (scheme u) (netloc u) (path u) (params u)
                 (query u) (fragment u))
      else
        let nl := if Py.mem (scheme u) uses_netloc
                  then netloc b else netloc u in
        if negb (Py.truthy (path u)) && negb (Py.truthy (params u))
        then Ok (urlunparse (scheme u) nl (path b) (params b)
                   (if Py.truthy (query u) then query u else query b)
                   (fragment u))
        else
          let segments :=
            if String.eqb (Py.take 1 (path u)) "/"
            then Py.split "/" (path u)
            else filter_middle (base_parts (path b) ++ Py.split "/" (path u))
          in
          Ok (urlunparse (scheme u) nl
                (Py.or_else (Py.join "/" (remove_dot_segments segments)) "/")
                (params u) (query u) (fragment u)))).

End Parse.

End Urllib.

(** ** Configuration read from the environment at import time *)

Record Config : Type := mkConfig {
  MUSIC_API_BASE_URL : string;
  MUSIC_API_TOKEN : string;     (* already stripped *)
  MUSIC_SIGN_PARAM : string     (* already stripped, never empty *)
}.

Definition default_config : Config :=
  mkConfig "https://api.i-meto.com/meting/api" "" "auth".

Definition MUSIC_SIGN_REQUIRED_TYPES : list string := ["url"; "lrc"; "pic"].

(** ** _normalize_music_url *)

Section Normalizer.

Variable check_bracketed_netloc : string -> bool.
Variable cfg : Config.

Definition _normalize_music_url (url : string) : result string :=
  let normalized := Py.strip url in
  if negb (Py.truthy normalized) then Ok ""
  else
    rbind (Urllib.urlparse check_bracketed_netloc normalized "") (fun parsed =>
      if Py.mem (Urllib.scheme parsed) ["http"; "https"] then Ok normalized
      else if Py.startswith "//" normalized then Ok ("https:" ++ normalized)
      else Urllib.urljoin check_bracketed_netloc
             (MUSIC_API_BASE_URL cfg) normalized).

End Normalizer.

(** ** hashlib.sha1 and hmac on bytes *)

Module Sha1.

Local Open Scope Z_scope.

Definition word (x : Z) : Z := x mod 2 ^ 32.
Definition add32 (x y : Z) : Z := word (x + y).
Definition rotl (n x : Z) : Z :=
  word (Z.lor (Z.shiftl x n) (Z.shiftr x (32 - n))).
Definition not32 (x : Z) : Z := Z.lxor x (2 ^ 32 - 1).

(** Big-endian bytes of a value, [n] of them. *)
Fixpoint be_bytes (n : nat) (x : Z) : list Z :=
  match n with
  | O => []
  | S n' => be_bytes n' (Z.shiftr x 8) ++ [x mod 256]
  end.

Definition be_value (bs : list Z) : Z :=
  fold_left (fun acc b => acc * 256 + b) bs 0.

(** Message padding: a one bit, zeros up to 56 modulo 64, the bit length
    on eight bytes. *)
Definition pad (msg : list Z) : list Z :=
  let len := Z.of_nat (List.length msg) in
  let zeros := Z.to_nat ((55 - len) mod 64) in
  msg ++ [128] ++ repeat 0 zeros ++ be_bytes 8 (8 * len).

Fixpoint words_of (n : nat) (bs : list Z) : list Z :=
  match n with
  | O => []
  | S n' => be_value (firstn 4 bs) :: words_of n' (skipn 4 bs)
  end.

Definition f_round (t : nat) (b c d : Z) : Z :=
  if (t <? 20)%nat then Z.lor (Z.land b c) (Z.land (not32 b) d)
  else if (t <? 40)%nat then Z.lxor (Z.lxor b c) d
  else if (t <? 60)%nat
       then Z.lor (Z.lor (Z.land b c) (Z.land b d)) (Z.land c d)
  else Z.lxor (Z.lxor b c) d.

Definition k_round (t : nat) : Z :=
  if (t <? 20)%nat then 0x5A827999
  else if (t <? 40)%nat then 0x6ED9EBA1
  else if (t <? 60)%nat then 0x8F1BBCDC
  else 0xCA62C1D6.

Record regs : Type := mkRegs { ra : Z; rb : Z; rc : Z; rd : Z; re : Z }.

(** [n] rounds from round [t]; [w] holds the sixteen schedule words
    [W(t) .. W(t+15)]. *)
Fixpoint rounds (n t : nat) (w : list Z) (r : regs) : regs :=
  match n with
  | O => r
  | S n' =>
      let wt := nth 0 w 0 in
      let tmp := add32 (add32 (add32 (add32 (rotl 5 (ra r))
                   (f_round t (rb r) (rc r) (rd r))) (re r)) wt) (k_round t) in
      let wnext := rotl 1 (Z.lxor (Z.lxor (Z.lxor (nth 13 w 0) (nth 8 w 0))
                                     (nth 2 w 0)) (nth 0 w 0)) in
      rounds n' (S t) (List.tl w ++ [wnext])
        (mkRegs tmp (ra r) (rotl 30 (rb r)) (rc r) (rd r))
  end.

Definition compress (h : regs) (block : list Z) : regs :=
  let r := rounds 80 0 (words_of 16 block) h in
  mkRegs (add32 (ra h) (ra r)) (add32 (rb h) (rb r)) (add32 (rc h) (rc r))
         (add32 (rd h) (rd r)) (add32 (re h) (re r)).

Fixpoint blocks (n : nat) (bs : list Z) (h : regs) : regs :=
  match n with
  | O => h
  | S n' => blocks n' (skipn 64 bs) (compress h (firstn 64 bs))
  end.

Definition init : regs :=
  mkRegs 0x67452301 0xEFCDAB89 0x98BADCFE 0x10325476 0xC3D2E1F0.

(** [hashlib.sha1(msg).digest()] *)
Definition digest (msg : list Z) : list Z :=
  let p := pad msg in
  let h := blocks (List.length p / 64) p init in
  be_bytes 4 (ra h) ++ be_bytes 4 (rb h) ++ be_bytes 4 (rc h)
  ++ be_bytes 4 (rd h) ++ be_bytes 4 (re h).

(** [hmac.new(key, msg, hashlib.sha1).digest()] *)
Definition hmac (key msg : list Z) : list Z :=
  let key := if (64 <? List.length key)%nat then digest key else key in
  let key := (key ++ repeat 0 (64 - List.length key))%list in
  let ikey := List.map (Z.lxor 0x36) key in
  let okey := List.map (Z.lxor 0x5C) key in
  digest (okey ++ digest (ikey ++ msg))%list.

Definition hex_digit (x : Z) : ascii :=
  if x <? 10 then ascii_of_N (Z.to_N (48 + x))
  else ascii_of_N (Z.to_N (87 + x)).

(** [bytes.hex()] *)
Fixpoint hex (bs : list Z) : string :=
  match bs with
  | [] => EmptyString
  | b :: r => String (hex_digit (b / 16)) (String (hex_digit (b mod 16)) (hex r))
  end.

End Sha1.

(** [s.encode("utf-8")] for code points below 256. *)
Fixpoint utf8 (s : string) : list Z :=
  match s with
  | EmptyString => []
  | String c r =>
      let n := Z.of_N (Py.ord c) in
      if (n <? 128)%Z then n :: utf8 r
      else Z.lor 192 (Z.shiftr n 6) :: Z.lor 128 (Z.land n 63) :: utf8 r
  end.

(** [hmac.new(key.encode(), payload.encode(), hashlib.sha1).hexdigest()] *)
Definition hmac_sha1_hexdigest (key payload : string) : string :=
  Sha1.hex (Sha1.hmac (utf8 key) (utf8 payload)).

(** ** dict[str, str] with insertion order *)

Definition params_dict : Type := list (string * string).

(** [d[k] = v]: the value of an existing key is replaced in place, a new
    key goes last. *)
Fixpoint dict_set (d : params_dict) (k v : string) : params_dict :=
  match d with
  | [] => [(k, v)]
  | (k', v') :: r =>
      if String.eqb k' k then (k', v) :: r else (k', v') :: dict_set r k v
  end.

Fixpoint dict_get (d : params_dict) (k : string) : option string :=
  match d with
  | [] => None
  | (k', v') :: r => if String.eqb k' k then Some v' else dict_get r k
  end.

Definition dict_keys (d : params_dict) : list string := List.map fst d.

(** ** _build_music_params *)

Section Signer.

Variable cfg : Config.

Definition _build_music_params (server req_type req_id : string)
  : result params_dict :=
  let req_id_str := req_id in
  let params := [("server", server); ("type", req_type); ("id", req_id_str)] in
  if Py.mem req_type MUSIC_SIGN_REQUIRED_TYPES then
    if negb (Py.truthy (MUSIC_API_TOKEN cfg)) then Raise RuntimeError
    else
      let payload := server ++ req_type ++ req_id_str in
      let signature := hmac_sha1_hexdigest (MUSIC_API_TOKEN cfg) payload in
      Ok (dict_set params (MUSIC_SIGN_PARAM cfg) signature)
  else Ok params.

End Signer.

(** ** urllib.parse.urlencode on a dict of strings *)

Module Urlencode.

(** Characters [quote] never escapes. *)
Definition always_safe (c : ascii) : bool :=
  Py.is_ascii_alpha c || Py.is_digit c
  || Ascii.eqb c "_" || Ascii.eqb c "." || Ascii.eqb c "-" || Ascii.eqb c "~".

Definition HEX (x : Z) : ascii :=
  if (x <? 10)%Z then ascii_of_N (Z.to_N (48 + x))
  else ascii_of_N (Z.to_N (55 + x)).

Definition percent (b : Z) : string :=
  String "%" (String (HEX (b / 16)) (String (HEX (b mod 16)) EmptyString)).

(** [quote_plus(s)]: a space becomes [+], an unsafe character the escapes
    of its UTF-8 bytes. *)
Fixpoint quote_plus (s : string) : string :=
  match s with
  | EmptyString => EmptyString
  | String c r =>
      (if always_safe c then String c EmptyString
       else if Ascii.eqb c " " then "+"
       else String.concat "" (List.map percent (utf8 (String c EmptyString))))
      ++ quote_plus r
  end.

Definition urlencode (d : params_dict) : string :=
  Py.join "&" (List.map (fun kv => quote_plus (fst kv) ++ "=" ++ quote_plus (snd kv)) d).

End Urlencode.

(** ** JSON values, as [json.loads] and [Response.json] return them *)

#[local] Set Warnings "-register-all".
Inductive json : Type :=
| JNull
| JBool (b : bool)
| JInt (z : Z)
| JFloat (nonzero : bool) (repr : string)  (* a float: its truth value, its repr *)
| JStr (s : string)
| JArr (l : list json)
| JObj (d : list (string * json)).          (* the items of the dict, keys distinct *)

(** [bool(v)] *)
Definition py_truthy (v : json) : bool :=
  match v with
  | JNull => false
  | JBool b => b
  | JInt z => negb (z =? 0)%Z
  | JFloat nz _ => nz
  | JStr s => Py.truthy s
  | JArr l => match l with [] => false | _ => true end
  | JObj d => match d with [] => false | _ => true end
  end.

(** [a or b] *)
Definition py_or (a b : json) : json := if py_truthy a then a else b.

(** [d.get(k, default)] *)
Fixpoint obj_get (d : list (string * json)) (k : string) (default : json) : json :=
  match d with
  | [] => default
  | (k', v) :: r => if String.eqb k' k then v else obj_get r k default
  end.

(** ** The HTTP peer *)

Inductive request : Type :=
| GET (follow_redirects : bool) (url : string) (params : params_dict)
| HEAD (url : string)                (* follow_redirects=True *)
| GET_stream (url : string).         (* follow_redirects=True, body unread *)

Record response : Type := mkResponse {
  status_code : Z;
  location : option string;   (* resp.headers.get("location") *)
  text : string;              (* resp.text *)
  json_body : result json;    (* resp.json() *)
  resp_url : string           (* str(resp.url), after redirects *)
}.

(** ** Module globals and observable events *)

Record song_entry : Type := mkEntry {
  e_id : json; e_name : json; e_artist : json;
  e_url : string; e_pic : json; e_lrc : string }.

Record current_song : Type := mkCurrent {
  cs_id : string; cs_name : string; cs_artist : string;
  cs_url : string; cs_source_url : string; cs_lyric_url : string }.

Record playback : Type := mkPlayback {
  pb_current_song : option current_song;
  pb_is_playing : bool }.

Inductive event : Type :=
| Request (r : request)
| Progress (pct : Z).

Record globals : Type := mkGlobals {
  _search_result_cache : gmap string song_entry;
  playback_state : playback;
  events : list event }.

Definition initial_globals : globals :=
  mkGlobals ∅ (mkPlayback None false) [].

(** [_search_result_cache[k] = v] *)
Definition cache_put (k : string) (v : song_entry)
  (c : gmap string song_entry) : gmap string song_entry := <[k := v]> c.

(** [_search_result_cache[k]] guarded by [k in _search_result_cache] *)
Definition cache_get (k : string) (c : gmap string song_entry)
  : option song_entry := c !! k.

(** ** The monad of the coroutines: globals and exceptions *)

Definition M (A : Type) : Type := globals -> result A * globals.

Definition ret {A} (a : A) : M A := fun g => (Ok a, g).

Definition bind {A B} (m : M A) (k : A -> M B) : M B :=
  fun g =>
    match m g with
    | (Ok a, g') => k a g'
    | (Raise e, g') => (Raise e, g')
    end.

Notation "'let*' x ':=' m 'in' k" := (bind m (fun x => k))
  (at level 10, x name, m at level 100, k at level 200).

(** A pure computation that may raise. *)
Definition lift {A} (r : result A) : M A := fun g => (r, g).

(** [try: m  except Exception: h] *)
Definition try_except {A} (m : M A) (h : exn -> M A) : M A :=
  fun g =>
    match m g with
    | (Ok a, g') => (Ok a, g')
    | (Raise e, g') => h e g'
    end.

Definition emit (e : event) : M unit :=
  fun g => (Ok tt, mkGlobals (_search_result_cache g) (playback_state g)
                     (events g ++ [e])).

Definition get_cache : M (gmap string song_entry) :=
  fun g => (Ok (_search_result_cache g), g).

Definition set_cache (c : gmap string song_entry) : M unit :=
  fun g => (Ok tt, mkGlobals c (playback_state g) (events g)).

Definition set_playback (p : playback) : M unit :=
  fun g => (Ok tt, mkGlobals (_search_result_cache g) p (events g)).

(** [if ctx: await ctx.report_progress(pct, ...)] *)
Definition report_progress (ctx : bool) (pct : Z) : M unit :=
  if ctx then emit (Progress pct) else ret tt.

(** Truth value of a [str | None]. *)
Definition opt_truthy (o : option string) : bool :=
  match o with
  | Some s => Py.truthy s
  | None => false
  end.

(** [a or b] on [str | None]. *)
Definition opt_or (a b : option string) : option string :=
  if opt_truthy a then a else b.

(** [str(o)] for a truthy [o]. *)
Definition opt_str (o : option string) : string :=
  match o with
  | Some s => s
  | None => "None"
  end.

(** The Chinese literals of the source, as the bytes of the file. *)
Definition UNKNOWN_SONG : string := "未知歌曲".
Definition UNKNOWN_ARTIST : string := "未知歌手".

(** What [resolve_music_url] returns: one of its two messages, or the
    dict it passes to [json.dumps]. *)
Record resolve_result : Type := mkResult {
  r_song_name : string;
  r_artist : string;
  r_final_url : string;
  r_lyric_url : string;
  r_has_lyric : bool;
  r_next_tool : string;
  r_next_arguments : params_dict }.

Inductive reply : Type :=
| MissingSongInfo      (* 缺少歌曲信息，请至少传入 id/song_id 或 url *)
| UrlLookupFailed      (* 查询播放地址失败，请稍后重试 *)
| Resolved (r : resolve_result).

(** ** The server *)

Section Server.

Variable check_bracketed_netloc : string -> bool.
Variable cfg : Config.

(** The peer: the response to a request, or the exception httpx raises. *)
Variable http : request -> result response.

(** [json.loads] on a [str]. *)
Variable json_loads : string -> result json.

(** [str] of a float, a list or a dict. *)
Variable py_repr : json -> string.

Local Abbreviation normalize := (_normalize_music_url check_bracketed_netloc cfg).

(** [str(v)] *)
Definition py_str (v : json) : string :=
  match v with
  | JNull => "None"
  | JBool true => "True"
  | JBool false => "False"
  | JInt z => NilZero.string_of_int (Z.to_int z)
  | JStr s => s
  | JFloat _ _ | JArr _ | JObj _ => py_repr v
  end.

(** [await client.<method>(...)]: the request is observable, then the
    peer answers or the call raises. *)
Definition send (r : request) : M response :=
  let* _ := emit (Request r) in lift (http r).

(** [item.get(k, default)] on a value that should be a dict. *)
Definition item_get (item : json) (k : string) (default : json) : result json :=
  match item with
  | JObj d => Ok (obj_get d k default)
  | _ => Raise AttributeError
  end.

(** [data[:limit]] *)
Definition slice_to {A} (l : list A) (limit : Z) : list A :=
  if (0 <=? limit)%Z then firstn (Z.to_nat limit) l
  else firstn (Z.to_nat (Z.of_nat (List.length l) + limit)) l.

Definition chars (s : string) : list json :=
  List.map (fun c => JStr (String c EmptyString)) (list_ascii_of_string s).

Definition data_slice (data : json) (limit : Z) : result (list json) :=
  match data with
  | JArr l => Ok (slice_to l limit)
  | JStr s => Ok (slice_to (chars s) limit)
  | _ => Raise TypeError
  end.

(** One turn of the loop of [_search_api]. *)
Definition search_item (item : json) : M song_entry :=
  let* url_v := lift (item_get item "url" (JStr "")) in
  let raw_url := Py.strip (py_str url_v) in
  let* normalized_url := lift (normalize raw_url) in
  let* lrc_v := lift (item_get item "lrc" (JStr "")) in
  let raw_lrc := Py.strip (py_str lrc_v) in
  let* normalized_lrc :=
    if Py.truthy raw_lrc then lift (normalize raw_lrc) else ret "" in
  let* id_v := lift (item_get item "id" JNull) in
  let* name_v := lift (item_get item "title" (JStr UNKNOWN_SONG)) in
  let* artist_v := lift (item_get item "author" (JStr UNKNOWN_ARTIST)) in
  let* pic_v := lift (item_get item "pic" (JStr "")) in
  let song_entry :=
    mkEntry (py_or id_v (JStr normalized_url)) name_v artist_v
            normalized_url pic_v normalized_lrc in
  let song_id_str := py_str (e_id song_entry) in
  let* _ :=
    if Py.truthy song_id_str
    then let* c := get_cache in set_cache (cache_put song_id_str song_entry c)
    else ret tt in
  ret song_entry.

Fixpoint search_loop (items : list json) (results : list song_entry)
  : M (list song_entry) :=
  match items with
  | [] => ret results
  | item :: rest =>
      let* e := search_item item in
      search_loop rest (results ++ [e])
  end.

Definition _search_api (query : string) (limit : Z) : M (list song_entry) :=
  try_except
    (let* params := lift (_build_music_params cfg "netease" "search" query) in
     let* resp := send (GET true (MUSIC_API_BASE_URL cfg) params) in
     if negb (status_code resp =? 200)%Z then ret []
     else
       let* data := lift (json_body resp) in
       let* items := lift (data_slice data limit) in
       search_loop items [])
    (fun _ => ret []).

Definition is_redirect (status : Z) : bool :=
  existsb (Z.eqb status) [301; 302; 303; 307; 308]%Z.

Definition _fetch_song_url (song_id : string) : M string :=
  try_except
    (let* params := lift (_build_music_params cfg "netease" "url" song_id) in
     let* resp := send (GET false (MUSIC_API_BASE_URL cfg) params) in
     if is_redirect (status_code resp) then
       let location := match location resp with Some l => l | None => "" end in
       if Py.truthy location then ret (Py.strip location) else ret ""
     else if negb (status_code resp =? 200)%Z then ret ""
     else
       let* data := lift (json_body resp) in
       match data with
       | JStr s => ret (Py.strip s)
       | JArr (JStr first :: _) => ret (Py.strip first)
       | JArr (JObj first :: _) =>
           ret (Py.strip (py_str (obj_get first "url" (JStr ""))))
       | _ => ret ""
       end)
    (fun _ => ret "").

(** [str(d.get("lyric") or d.get("lrc") or "").strip()] *)
Definition lyric_field (d : list (string * json)) : string :=
  Py.strip (py_str (py_or (py_or (obj_get d "lyric" JNull)
                                 (obj_get d "lrc" JNull)) (JStr ""))).

Definition _fetch_song_lyric (song_id : string) : M string :=
  try_except
    (let* params := lift (_build_music_params cfg "netease" "lrc" song_id) in
     let* resp := send (GET true (MUSIC_API_BASE_URL cfg) params) in
     if negb (status_code resp =? 200)%Z then ret ""
     else
       let raw_text := Py.strip (text resp) in
       if negb (Py.truthy raw_text) then ret ""
       else
         match json_loads raw_text with
         | Raise ValueError => ret raw_text
         | Raise e => lift (Raise e)
         | Ok data =>
             match data with
             | JStr s => ret (Py.strip s)
             | JArr (JStr first :: _) => ret (Py.strip first)
             | JArr (JObj first :: _) => ret (lyric_field first)
             | JObj d => ret (lyric_field d)
             | _ => ret raw_text
             end
         end)
    (fun _ => ret "").

Definition _resolve_final_url (url : string) : M string :=
  let* normalized_url := lift (normalize url) in
  if negb (Py.truthy normalized_url) then ret ""
  else
    let* by_head :=
      try_except
        (let* resp := send (HEAD normalized_url) in
         if (status_code resp =? 200)%Z || (status_code resp =? 206)%Z
         then ret (Some (resp_url resp)) else ret None)
        (fun _ => ret None) in
    match by_head with
    | Some final => ret final
    | None =>
        let* by_get :=
          try_except
            (let* resp := send (GET_stream normalized_url) in
             if (status_code resp =? 200)%Z
             then ret (Some (resp_url resp)) else ret None)
            (fun _ => ret None) in
        match by_get with
        | Some final => ret final
        | None => ret normalized_url
        end
    end.

Definition _build_lyric_url (song_id : option string) (lrc : string)
  : result string :=
  if Py.truthy lrc && Py.truthy (Py.strip lrc) then Ok (Py.strip lrc)
  else if opt_truthy song_id then
    match _build_music_params cfg "netease" "lrc" (opt_str song_id) with
    | Ok params =>
        Ok (MUSIC_API_BASE_URL cfg ++ "?" ++ Urlencode.urlencode params)
    | Raise RuntimeError => Ok ""
    | Raise e => Raise e
    end
  else Ok "".

Definition resolve_music_url (id song_id : option string)
  (song_name artist url lrc lyric : string) (ctx : bool) : M reply :=
  let resolved_song_id := opt_or song_id id in
  if negb (opt_truthy resolved_song_id) && negb (Py.truthy url)
  then ret MissingSongInfo
  else
    let* _ := report_progress ctx 10 in
    let* source_url := lift (normalize url) in
    let* looked_up :=
      if negb (Py.truthy source_url) && opt_truthy resolved_song_id then
        let* _ := report_progress ctx 25 in
        let* source_url := _fetch_song_url (opt_str resolved_song_id) in
        if negb (Py.truthy source_url) then ret None
        else ret (Some source_url)
      else ret (Some source_url) in
    match looked_up with
    | None => ret UrlLookupFailed
    | Some source_url =>
        let* _ := report_progress ctx 55 in
        let* final_url := _resolve_final_url source_url in
        let effective_lrc := lrc in
        let cache_key :=
          if opt_truthy resolved_song_id then opt_str resolved_song_id
          else "" in
        let* cache := get_cache in
        let effective_lrc :=
          if negb (Py.truthy effective_lrc) && Py.truthy cache_key then
            match cache_get cache_key cache with
            | Some cached => e_lrc cached
            | None => effective_lrc
            end
          else effective_lrc in
        let* lyric_url := lift (_build_lyric_url resolved_song_id effective_lrc) in
        let* lyric_text :=
          if negb (Py.truthy lyric_url) && opt_truthy resolved_song_id then
            let* _ := report_progress ctx 70 in
            _fetch_song_lyric (opt_str resolved_song_id)
          else ret "" in
        let* _ := report_progress ctx 80 in
        let* _ := set_playback
          (mkPlayback
             (Some (mkCurrent
                (if opt_truthy resolved_song_id then opt_str resolved_song_id
                 else source_url)
                song_name artist final_url source_url lyric_url))
             false) in
        let* _ := report_progress ctx 100 in
        let next_args := [("url", final_url); ("title", song_name);
                          ("artist", artist)] in
        let next_args :=
          if Py.truthy lyric_url then dict_set next_args "lyric_url" lyric_url
          else if Py.truthy lyric_text then dict_set next_args "lyric" lyric_text
          else next_args in
        let has_lyric := Py.truthy lyric_url || Py.truthy lyric_text in
        ret (Resolved (mkResult song_name artist final_url lyric_url has_lyric
                         "self.music.play_url" next_args))
    end.

End Server.

(** ** Vocabulary of the properties *)

(** A scheme that is [http] or [https]. *)
Definition is_http (s : string) : bool := Py.mem s ["http"; "https"].

(** A GET that follows redirects.  [resolve_music_url] sends one such
    request only: the lyric lookup of [_fetch_song_lyric]. *)
Definition follows_get (e : event) : bool :=
  match e with
  | Request (GET true _ _) => true
  | _ => false
  end.

Definition quiet (e : event) : bool := negb (follows_get e).

(** The globals [g] with more events at the end. *)
Definition add_events (g : globals) (evs : list event) : globals :=
  mkGlobals (_search_result_cache g) (playback_state g) (events g ++ evs)%list.

(** [g'] is [g] after some events that all satisfy [P]; the cache is the
    same. *)
Definition ext (P : event -> bool) (g g' : globals) : Prop :=
  _search_result_cache g' = _search_result_cache g /\
  exists evs, events g' = (events g ++ evs)%list /\ forallb P evs = true.

(** Every run of [m] only adds events that satisfy [P]. *)
Definition steps {A} (P : event -> bool) (m : M A) : Prop :=
  forall g r g', m g = (r, g') -> ext P g g'.

(** The value of [m] does not depend on the globals. *)
Definition indep {A} (m : M A) : Prop :=
  forall g g0, fst (m g) = fst (m g0).

(** The lyric reference [resolve_music_url] hands to [_build_lyric_url]:
    the caller's [lrc], or the cached one when the caller gave none. *)
Definition effective_lrc (cache : gmap string song_entry)
  (rid : option string) (lrc : string) : string :=
  let cache_key := if opt_truthy rid then opt_str rid else "" in
  if negb (Py.truthy lrc) && Py.truthy cache_key then
    match cache_get cache_key cache with
    | Some cached => e_lrc cached
    | None => lrc
    end
  else lrc.

(** [next_args] of [resolve_music_url]. *)
Definition next_arguments_of
  (final_url song_name artist lyric_url lyric_text : string) : params_dict :=
  let next_args :=
    [("url", final_url); ("title", song_name); ("artist", artist)] in
  if Py.truthy lyric_url then dict_set next_args "lyric_url" lyric_url
  else if Py.truthy lyric_text then dict_set next_args "lyric" lyric_text
  else next_args.


(** The cache after a run of assignments, oldest first. *)
Definition cache_puts (ps : list (string * song_entry))
  (c : gmap string song_entry) : gmap string song_entry :=
  fold_left (fun c kv => cache_put (fst kv) (snd kv) c) ps c.

(** No usable lyric URL is cached under [key]. *)
Definition cached_lrc_blank (g : globals) (key : string) : Prop :=
  match cache_get key (_search_result_cache g) with
  | Some e => Py.strip (e_lrc e) = ""
  | None => True
  end.

(** The play-URL lookup: a GET that does not follow redirects. *)
Definition is_url_lookup (e : event) : bool :=
  match e with
  | Request (GET false _ _) => true
  | _ => false
  end.

(** Every run of [m] keeps the property [I] of the globals. *)
Definition preserves {A} (I : globals -> Prop) (m : M A) : Prop :=
  forall g r g', I g -> m g = (r, g') -> I g'.

(** The value of [m] depends on the globals through the cache only, and
    so does the cache it leaves. *)
Definition stable {A} (m : M A) : Prop :=
  forall g g0,
    _search_result_cache g = _search_result_cache g0 ->
    fst (m g) = fst (m g0) /\
    _search_result_cache (snd (m g)) = _search_result_cache (snd (m g0)).

(** No entry is cached under the empty key. *)
Definition keys_nonempty (g : globals) : Prop :=
  _search_result_cache g !! "" = None.

Section Vocabulary.

Variable cfg : Config.
Variable http : request -> result response.

(** The parameters of a signed request for a song. *)
Definition signed_params (req_type song_id : string) : params_dict :=
  dict_set [("server", "netease"); ("type", req_type); ("id", song_id)]
    (MUSIC_SIGN_PARAM cfg)
    (hmac_sha1_hexdigest (MUSIC_API_TOKEN cfg)
       ("netease" ++ req_type ++ song_id)).

(** The lyric URL the server builds from a song id. *)
Definition signed_lyric_url (song_id : string) : string :=
  MUSIC_API_BASE_URL cfg ++ "?" ++
  Urlencode.urlencode (signed_params "lrc" song_id).

(** What the HEAD tier of the resolver yields for a normalised URL. *)
Definition head_final (n : string) : option string :=
  match http (HEAD n) with
  | Ok resp =>
      if (status_code resp =? 200)%Z || (status_code resp =? 206)%Z
      then Some (resp_url resp) else None
  | Raise _ => None
  end.

(** What the streamed GET tier yields. *)
Definition get_final (n : string) : option string :=
  match http (GET_stream n) with
  | Ok resp =>
      if (status_code resp =? 200)%Z then Some (resp_url resp) else None
  | Raise _ => None
  end.

End Vocabulary.

(** ** Sample environments *)

Module Sample.

(** A CPython that accepts every host between brackets. *)
Definition any_bracketed_host (nl : string) : bool := true.

(** No float or container is printed in the samples. *)
Definition repr_unused (v : json) : string := "".

(** [json.loads] on the texts the samples use: the empty object, the
    empty array, a LRC line (not JSON). *)
Definition loads (s : string) : result json :=
  if String.eqb s "{}" then Ok (JObj [])
  else if String.eqb s "[]" then Ok (JArr [])
  else Raise ValueError.

Definition secret_config : Config :=
  mkConfig "https://api.i-meto.com/meting/api" "S" "auth".

(** A peer that cannot be reached. *)
Definition unreachable (r : request) : result response :=
  Raise TransportError.

(** The upstream answers the url lookup with a 302 to the CDN, the CDN
    answers HEAD with 200, and the lyric lookup gives one LRC line. *)
Definition cdn (r : request) : result response :=
  match r with
  | GET false _ _ =>
      Ok (mkResponse 302 (Some "https://cdn/x.mp3") "" (Raise ValueError)
            "https://api.i-meto.com/meting/api")
  | GET true _ _ =>
      Ok (mkResponse 200 None "[00:01.00]la" (Raise ValueError)
            "https://api.i-meto.com/meting/api")
  | HEAD u => Ok (mkResponse 200 None "" (Raise ValueError) "https://cdn/x.mp3")
  | GET_stream u =>
      Ok (mkResponse 200 None "" (Raise ValueError) "https://cdn/x.mp3")
  end.

(** A CDN that rejects HEAD and serves GET. *)
Definition cdn_no_head (r : request) : result response :=
  match r with
  | HEAD u => Ok (mkResponse 405 None "" (Raise ValueError) u)
  | GET_stream u =>
      Ok (mkResponse 200 None "" (Raise ValueError) "https://cdn/y.mp3")
  | _ => Raise TransportError
  end.


Definition entry7 : song_entry :=
  mkEntry (JStr "7") (JStr "Song A") (JStr "Artist A")
          "https://x/7.mp3" (JStr "") "https://l/7.lrc".

Definition entry7' : song_entry :=
  mkEntry (JStr "7") (JStr "Song A") (JStr "Artist A")
          "https://x/7.mp3" (JStr "") "https://l/7-new.lrc".

(** One hit of a search, and the upstream that returns it; the other
    lookups answer as [cdn] does. *)
Definition search_hit : json :=
  JObj [("id", JInt 7); ("title", JStr "Song A"); ("author", JStr "Artist A");
        ("url", JStr "/x/7.mp3"); ("pic", JStr "");
        ("lrc", JStr "?server=netease&type=lrc&id=7")].

Definition upstream (r : request) : result response :=
  match r with
  | GET true _ params =>
      match dict_get params "type" with
      | Some "search" =>
          Ok (mkResponse 200 None "" (Ok (JArr [search_hit]))
                "https://api.i-meto.com/meting/api")
      | _ => cdn r
      end
  | _ => cdn r
  end.

(** The globals after a search that found song 7. *)
Definition after_search : globals :=
  mkGlobals (cache_put "7" entry7 ∅) (mkPlayback None false) [].

End Sample.

(** ** The rest of the module *)

(** *** Lyric text helpers *)

Module Lyric.

(** The line boundaries of [str.splitlines] below code point 256: LF, VT,
    FF, CR, FS, GS, RS and NEL. *)
Definition is_linebreak (c : ascii) : bool :=
  let n := Py.ord c in
  ((10 <=? n) && (n <=? 13) || (28 <=? n) && (n <=? 30) || (n =? 133))%N.

(** [s.splitlines()]: CR LF is one boundary, and a boundary at the very
    end opens no further line. *)
Fixpoint splitlines (s : string) : list string :=
  match s with
  | EmptyString => []
  | String c r =>
      if is_linebreak c then
        EmptyString ::
          match r with
          | String d r' =>
              if (Py.ord c =? 13)%N && (Py.ord d =? 10)%N
              then splitlines r' else splitlines r
          | EmptyString => []
          end
      else
        match splitlines r with
        | [] => [String c EmptyString]
        | l :: ls => String c l :: ls
        end
  end.

(** The number of leading decimal digits, [max] at most: what a greedy
    [\d{1,max}] consumes.  Below code point 256 the decimal digits are 0
    to 9. *)
Fixpoint digits_prefix (max : nat) (s : string) : nat :=
  match max, s with
  | S m, String c r => if Py.is_digit c then S (digits_prefix m r) else 0
  | _, _ => 0
  end.

(** The length of a match of [\[\d{1,2}:\d{1,2}(?:\.\d{1,3})?\]] at the
    head of [s].  Each digit run is followed by a character that is no
    digit, so the greedy choice is the only one. *)
Definition tag_length (s : string) : option nat :=
  match s with
  | String "[" r1 =>
      let n1 := digits_prefix 2 r1 in
      if (n1 =? 0)%nat then None
      else
        match Py.drop n1 r1 with
        | String ":" r2 =>
            let n2 := digits_prefix 2 r2 in
            if (n2 =? 0)%nat then None
            else
              match Py.drop n2 r2 with
              | String "]" _ => Some (n1 + n2 + 3)%nat
              | String "." r3 =>
                  let n3 := digits_prefix 3 r3 in
                  if (n3 =? 0)%nat then None
                  else
                    match Py.drop n3 r3 with
                    | String "]" _ => Some (n1 + n2 + n3 + 4)%nat
                    | _ => None
                    end
              | _ => None
              end
        | _ => None
        end
  | _ => None
  end.

(** [re.sub(r"(?:TAG)+", "", s)]: the scan drops every tag it meets, and
    so every run of tags; [skip] characters of a tag are still to drop. *)
Fixpoint sub_tags_from (skip : nat) (s : string) : string :=
  match s with
  | EmptyString => EmptyString
  | String c r =>
      match skip with
      | S k => sub_tags_from k r
      | O =>
          match tag_length s with
          | Some n => sub_tags_from (Nat.pred n) r
          | None => String c (sub_tags_from 0 r)
          end
      end
  end.

Definition sub_tags (s : string) : string := sub_tags_from 0 s.

(** The loop of [_first_lyric_line] over the lines. *)
Fixpoint first_display_line (lines : list string) : string :=
  match lines with
  | [] => EmptyString
  | raw_line :: rest =>
      let line := Py.strip raw_line in
      if negb (Py.truthy line) then first_display_line rest
      else
        let line := Py.strip (sub_tags line) in
        if Py.truthy line then line else first_display_line rest
  end.

Definition _first_lyric_line (lyric_text : string) : string :=
  if negb (Py.truthy lyric_text) then EmptyString
  else first_display_line (splitlines lyric_text).

(** What the loop body makes of one line. *)
Definition display (raw_line : string) : string :=
  Py.strip (sub_tags (Py.strip raw_line)).

(** No character of [s] is a line boundary. *)
Definition one_line (s : string) : bool :=
  Py.all (fun c => negb (is_linebreak c)) s.

End Lyric.

(** *** The lyric download by URL *)

Section LyricByUrl.

Variable http : request -> result response.

(** [httpx.AsyncClient()] follows no redirect. *)
Definition _fetch_lyric_by_url (lrc_url : string) : M string :=
  if negb (Py.truthy lrc_url) then ret ""
  else
    try_except
      (let* resp := send http (GET false lrc_url []) in
       if negb (status_code resp =? 200)%Z then ret ""
       else ret (Py.strip (text resp)))
      (fun _ => ret "").

End LyricByUrl.

(** *** The playlist tools *)

Module Player.

(** A song of the playlist: the dict [add_to_playlist] builds. *)
Record song : Type := mkSong {
  id : string; name : string; artist : string; url : string }.

(** The dict under [current_song]: the one [resolve_music_url] writes, or
    a song of the playlist. *)
Inductive playing : Type :=
| FromResolve (c : current_song)
| FromPlaylist (s : song).

(** [current["id"]] *)
Definition playing_id (p : playing) : string :=
  match p with
  | FromResolve c => cs_id c
  | FromPlaylist s => id s
  end.

(** The whole of [playback_state]. *)
Record state : Type := mkState {
  current : option playing;
  playlist : list song;
  is_playing : bool;
  volume : Z }.

(** [playback_state] at import time. *)
Definition initial : state := mkState None [] false 50.

(** What the tools answer, without the wording. *)
Inductive answer : Type :=
| Stopped                       (* 音乐已停止 *)
| Added (name artist : string) (count : nat)
                                (* 已添加到播放列表: name - artist（共 count 首） *)
| PlaylistEmpty                 (* 播放列表为空 *)
| Listing (rows : list (Z * string * string))
                                (* 当前播放列表： and a row i. name - artist each *)
| Cleared                       (* 播放列表已清空 *)
| NoNext                        (* 播放列表为空，无法切换到下一首 *)
| NextIs (name artist : string) (* 下一首: name - artist *)
| NoPrevious                    (* 播放列表为空，无法切换到上一首 *)
| PreviousIs (name artist : string).
                                (* 上一首: name - artist *)

(** [enumerate(l, start)] *)
Fixpoint enumerate {A} (start : Z) (l : list A) : list (Z * A) :=
  match l with
  | [] => []
  | x :: r => (start, x) :: enumerate (start + 1)%Z r
  end.

(** [l[i]]: a negative index counts from the end, and [None] stands for
    IndexError. *)
Definition getitem {A} (l : list A) (i : Z) : option A :=
  let n := Z.of_nat (List.length l) in
  let j := (if i <? 0 then i + n else i)%Z in
  if ((0 <=? j) && (j <? n))%Z then nth_error l (Z.to_nat j) else None.

Definition stop_music (st : state) : answer * state :=
  (Stopped, mkState None (playlist st) false (volume st)).

Definition add_to_playlist (song_id song_name artist url : string)
  (st : state) : answer * state :=
  let song := mkSong song_id song_name artist url in
  let playlist' := (playlist st ++ [song])%list in
  (Added song_name artist (List.length playlist'),
   mkState (current st) playlist' (is_playing st) (volume st)).

Definition get_playlist (st : state) : answer * state :=
  match playlist st with
  | [] => (PlaylistEmpty, st)
  | _ =>
      (Listing (List.map (fun '(i, s) => (i, name s, artist s))
                  (enumerate 1 (playlist st))),
       st)
  end.

Definition clear_playlist (st : state) : answer * state :=
  (Cleared, mkState (current st) [] (is_playing st) (volume st)).

(** The loops of [next_song] and [previous_song]: the index at which they
    [break], that of the first song with the id of the current one. *)
Fixpoint first_match (song_id : string) (l : list (Z * song)) : option Z :=
  match l with
  | [] => None
  | (i, s) :: r =>
      if String.eqb (id s) song_id then Some i else first_match song_id r
  end.

(** [next_index] when the playlist is not empty. *)
Definition next_index (st : state) : Z :=
  match current st with
  | Some cur =>
      match first_match (playing_id cur) (enumerate 0 (playlist st)) with
      | Some i => ((i + 1) mod Z.of_nat (List.length (playlist st)))%Z
      | None => 0
      end
  | None => 0
  end.

Definition next_song (st : state) : option (answer * state) :=
  match playlist st with
  | [] => Some (NoNext, st)
  | _ =>
      match getitem (playlist st) (next_index st) with
      | Some next_s =>
          Some (NextIs (name next_s) (artist next_s),
                mkState (Some (FromPlaylist next_s)) (playlist st) true
                  (volume st))
      | None => None
      end
  end.

(** [prev_index] when the playlist is not empty; [%] of Python and [mod]
    take the sign of the divisor. *)
Definition prev_index (st : state) : Z :=
  let n := Z.of_nat (List.length (playlist st)) in
  match current st with
  | Some cur =>
      match first_match (playing_id cur) (enumerate 0 (playlist st)) with
      | Some i => ((i - 1) mod n)%Z
      | None => (n - 1)%Z
      end
  | None => (n - 1)%Z
  end.

Definition previous_song (st : state) : option (answer * state) :=
  match playlist st with
  | [] => Some (NoPrevious, st)
  | _ =>
      match getitem (playlist st) (prev_index st) with
      | Some prev_s =>
          Some (PreviousIs (name prev_s) (artist prev_s),
                mkState (Some (FromPlaylist prev_s)) (playlist st) true
                  (volume st))
      | None => None
      end
  end.

(** The current song has the id of the song at index [i]. *)
Definition at_position (st : state) (i : Z) : Prop :=
  (0 <= i < Z.of_nat (List.length (playlist st)))%Z /\
  option_map playing_id (current st)
    = option_map id (getitem (playlist st) i).

(** The current song is none, or has the id of a song at an index up to
    [j]. *)
Definition within (st : state) (j : Z) : Prop :=
  current st = None \/
  exists cur q s, current st = Some cur /\ (0 <= q <= j)%Z /\
    getitem (playlist st) q = Some s /\ id s = playing_id cur.

(** [k] calls of [next_song] in a row. *)
Fixpoint next_songs (k : nat) (st : state) : option state :=
  match k with
  | O => Some st
  | S k' =>
      match next_song st with
      | Some (_, st') => next_songs k' st'
      | None => None
      end
  end.

End Player.

(** *** search_music_pro *)

Section SearchTool.

Variable check_bracketed_netloc : string -> bool.
Variable cfg : Config.
Variable http : request -> result response.
Variable py_repr : json -> string.

(** What the tool answers: nothing found for the query, or the numbered
    hits, each with its name, artist and, when it is not empty, URL. *)
Inductive search_answer : Type :=
| NothingFound (query : string)
| Hits (query : string) (rows : list (Z * string * string * option string)).

Definition search_row (i : Z) (song : song_entry)
  : Z * string * string * option string :=
  (i, py_str py_repr (e_name song), py_str py_repr (e_artist song),
   if Py.truthy (e_url song) then Some (e_url song) else None).

Definition search_music_pro (query : string) (limit : Z) : M search_answer :=
  let* results := _search_api check_bracketed_netloc cfg http py_repr query limit in
  match results with
  | [] => ret (NothingFound query)
  | _ =>
      ret (Hits query
             (List.map (fun '(i, s) => search_row i s)
                (Player.enumerate 1%Z results)))
  end.

End SearchTool.

(** *** httpx: a redirect that is not followed *)

Section Httpx.

(** Whether httpx can build the request that would follow a Location:
    [_build_redirect_request] parses the header with [URL(location)] and
    raises [RemoteProtocolError] when that fails. *)
Variable redirect_ok : string -> bool.

(** What the upstream answers, before httpx looks at it. *)
Variable upstream : request -> result response.

(** [Response.has_redirect_location] *)
Definition has_redirect_location (resp : response) : bool :=
  is_redirect (status_code resp)
  && match location resp with Some _ => true | None => false end.

(** [await client.get(...)] as the caller sees it.  A client that follows
    no redirect still builds the next request of a redirect answer, for
    [Response.next_request], and raises when it cannot.  For the requests
    that follow redirects [upstream] is the end of the chain already. *)
Definition httpx_send (r : request) : result response :=
  match upstream r with
  | Ok resp =>
      match r with
      | GET false _ _ =>
          match location resp with
          | Some l =>
              if has_redirect_location resp && negb (redirect_ok l)
              then Raise TransportError else Ok resp
          | None => Ok resp
          end
      | _ => Ok resp
      end
  | Raise e => Raise e
  end.

End Httpx.

(** *** Vocabulary of the further properties *)

(** A digit of [bytes.hex()]: [0-9a-f]. *)
Definition is_lower_hex (c : ascii) : bool :=
  Py.is_digit c || ((97 <=? Py.ord c) && (Py.ord c <=? 102))%N.

(** *** Sample playlists and a lyric host *)

Module Demo.

Definition song_a : Player.song :=
  Player.mkSong "1" "Song A" "Artist A" "https://x/1.mp3".
Definition song_b : Player.song :=
  Player.mkSong "2" "Song B" "Artist B" "https://x/2.mp3".
Definition song_c : Player.song :=
  Player.mkSong "3" "Song C" "Artist C" "https://x/3.mp3".

(** Song A once more, added under the same id. *)
Definition song_a_again : Player.song :=
  Player.mkSong "1" "Song A (live)" "Artist A" "https://x/1-live.mp3".

(** Three songs, the first one playing. *)
Definition three : Player.state :=
  Player.mkState (Some (Player.FromPlaylist song_a))
    [song_a; song_b; song_c] true 50.

(** A playlist that holds the id 1 twice; nothing is playing. *)
Definition repeated : Player.state :=
  Player.mkState None [song_a; song_b; song_a_again; song_c] false 50.

(** A host that serves one LRC file. *)
Definition lrc_host (r : request) : result response :=
  match r with
  | GET false "https://l/7.lrc" [] =>
      Ok (mkResponse 200 None " [00:01.00]la la " (Raise ValueError)
            "https://l/7.lrc")
  | _ => Raise TransportError
  end.

(** A httpx that cannot parse the Location [http://[::1], in which what
    follows the host is no port number. *)
Definition strict_httpx (l : string) : bool :=
  negb (String.eqb l "http://[::1").

(** An upstream that answers the play-URL lookup with a 302 to that
    Location. *)
Definition bad_location_peer (r : request) : result response :=
  match r with
  | GET false _ _ =>
      Ok (mkResponse 302 (Some "http://[::1") "" (Raise ValueError)
            "https://api.i-meto.com/meting/api")
  | _ => Raise TransportError
  end.


End Demo.

(** * Properties *)

(** ** Strings *)

Ltac break_if :=
  match goal with
  | |- context [if ?b then _ else _] => destruct b eqn:?
  | |- context [let (_, _) := ?p in _] => destruct p eqn:?
  end.

Lemma append_cons (a : ascii) (s t : string) :
  String a s ++ t = String a (s ++ t).
Proof. reflexivity. Qed.


Lemma truthy_false (s : string) : Py.truthy s = false -> s = "".
Proof. destruct s; simpl; congruence. Qed.

Lemma truthy_true (s : string) : s <> "" -> Py.truthy s = true.
Proof. destruct s; [congruence|reflexivity]. Qed.

Lemma lstrip_all (p : ascii -> bool) (s : string) :
  Py.all p s = true -> Py.lstrip_by p s = "".
Proof.
  induction s as [|c r IH]; simpl; [reflexivity|].
  intros H. apply andb_true_iff in H as [Hc Hr]. rewrite Hc. auto.
Qed.

(** A string of white space strips to nothing. *)
Lemma strip_blank (s : string) :
  Py.all Py.isspace s = true -> Py.strip s = "".
Proof.
  intros H. unfold Py.strip, Py.strip_by. rewrite lstrip_all by exact H.
  reflexivity.
Qed.


(** ** urllib.parse *)

Example urljoin_rfc3986_dots :
  Urllib.urljoin Sample.any_bracketed_host "http://a/b/c/d;p?q" "../../g"
  = Ok "http://a/g".
Proof. reflexivity. Qed.

Example urljoin_rfc3986_params :
  Urllib.urljoin Sample.any_bracketed_host "http://a/b/c/d;p?q" "g;x=1/../y"
  = Ok "http://a/b/c/y".
Proof. reflexivity. Qed.

Example urljoin_other_scheme :
  Urllib.urljoin Sample.any_bracketed_host "http://a/b/c/d;p?q" "mailto:x@y"
  = Ok "mailto:x@y".
Proof. reflexivity. Qed.

Example urlparse_unmatched_bracket (chk : string -> bool) :
  Urllib.urlparse chk "http://[::1" "" = Raise ValueError.
Proof. reflexivity. Qed.

Lemma own_scheme_slash (r : string) :
  Urllib.own_scheme (String "/" r) = None.
Proof.
  unfold Urllib.own_scheme.
  destruct (Py.find ":" (String "/" r)) as [[|i]|]; reflexivity.
Qed.

Lemma clean_url_slashes (s : string) :
  Py.startswith "//" s = true ->
  exists r, Urllib.clean_url s = String "/" r.
Proof.
  destruct s as [|a [|b r]]; cbn [Py.startswith]; try discriminate.
  - rewrite andb_false_r. discriminate.
  - intros H. apply andb_true_iff in H as [Ha _].
    apply Ascii.eqb_eq in Ha. subst a.
    eexists. unfold Urllib.clean_url. simpl. reflexivity.
Qed.

(** A protocol-relative text carries no scheme. *)
Lemma scheme_of_slashes (s : string) :
  Py.startswith "//" s = true -> Urllib.scheme_of s = "".
Proof.
  intros H. destruct (clean_url_slashes s H) as [r Hr].
  unfold Urllib.scheme_of. rewrite Hr, own_scheme_slash. reflexivity.
Qed.


Lemma urlsplit_scheme chk s d r :
  Urllib.urlsplit chk s d = Ok r ->
  Urllib.s_scheme r =
    match Urllib.own_scheme (Urllib.clean_url s) with
    | Some (x, _) => x
    | None => Urllib.clean_scheme d
    end.
Proof.
  unfold Urllib.urlsplit.
  destruct (Urllib.own_scheme (Urllib.clean_url s)) as [[x rest]|].
  - destruct (Py.startswith "//" rest).
    + destruct (Urllib.splitnetloc2 rest) as [nl rest'].
      destruct (Urllib.check_netloc_brackets chk nl); simpl; [|discriminate].
      repeat break_if; intros H; inversion H; reflexivity.
    + simpl. repeat break_if; intros H; inversion H; reflexivity.
  - destruct (Py.startswith "//" (Urllib.clean_url s)).
    + destruct (Urllib.splitnetloc2 (Urllib.clean_url s)) as [nl rest'].
      destruct (Urllib.check_netloc_brackets chk nl); simpl; [|discriminate].
      repeat break_if; intros H; inversion H; reflexivity.
    + simpl. repeat break_if; intros H; inversion H; reflexivity.
Qed.

Lemma urlparse_scheme chk s d p :
  Urllib.urlparse chk s d = Ok p ->
  Urllib.scheme p =
    match Urllib.own_scheme (Urllib.clean_url s) with
    | Some (x, _) => x
    | None => Urllib.clean_scheme d
    end.
Proof.
  unfold Urllib.urlparse.
  destruct (Urllib.urlsplit chk s d) as [r|e] eqn:E; simpl; [|discriminate].
  apply urlsplit_scheme in E. rewrite <- E.
  repeat break_if; intros H; inversion H; reflexivity.
Qed.

(** [urlparse(s).scheme] is the scheme the text carries. *)
Lemma urlparse_scheme_of chk s p :
  Urllib.urlparse chk s "" = Ok p -> Urllib.scheme p = Urllib.scheme_of s.
Proof.
  intros H. apply urlparse_scheme in H. rewrite H. unfold Urllib.scheme_of.
  destruct (Urllib.own_scheme (Urllib.clean_url s)) as [[x ?]|]; reflexivity.
Qed.




(** ** The URL normaliser *)

Section NormalizerProps.

Variable chk : string -> bool.
Variable cfg : Config.
Local Abbreviation normalize := (_normalize_music_url chk cfg).

Lemma normalize_blank u :
  Py.all Py.isspace u = true -> normalize u = Ok "".
Proof.
  intros H. unfold _normalize_music_url. rewrite (strip_blank u H). reflexivity.
Qed.

Lemma normalize_http u p :
  Urllib.urlparse chk (Py.strip u) "" = Ok p ->
  is_http (Urllib.scheme p) = true ->
  normalize u = Ok (Py.strip u).
Proof.
  intros Hp Hs. unfold _normalize_music_url.
  destruct (Py.truthy (Py.strip u)) eqn:Ht; cbn [negb].
  - rewrite Hp. cbn [rbind]. unfold is_http in Hs. rewrite Hs. reflexivity.
  - apply truthy_false in Ht. rewrite Ht. reflexivity.
Qed.

Lemma normalize_protocol_relative u p :
  Urllib.urlparse chk (Py.strip u) "" = Ok p ->
  Py.startswith "//" (Py.strip u) = true ->
  normalize u = Ok ("https:" ++ Py.strip u).
Proof.
  intros Hp Hs. unfold _normalize_music_url.
  destruct (Py.strip u) as [|c r] eqn:E; [discriminate Hs|].
  cbn [Py.truthy negb]. rewrite Hp. cbn [rbind].
  rewrite (urlparse_scheme_of _ _ _ Hp), (scheme_of_slashes _ Hs), Hs.
  reflexivity.
Qed.

Lemma normalize_relative u p :
  Urllib.urlparse chk (Py.strip u) "" = Ok p ->
  Py.strip u <> "" ->
  is_http (Urllib.scheme p) = false ->
  Py.startswith "//" (Py.strip u) = false ->
  normalize u = Urllib.urljoin chk (MUSIC_API_BASE_URL cfg) (Py.strip u).
Proof.
  intros Hp Hne Hs Hsl. unfold _normalize_music_url.
  destruct (Py.strip u) as [|c r] eqn:E; [congruence|].
  cbn [Py.truthy negb]. rewrite Hp. cbn [rbind].
  unfold is_http in Hs. rewrite Hs, Hsl. reflexivity.
Qed.

(** C4 (as amended).  The normaliser works on the input with its
    surrounding white space removed.  A blank input gives the empty
    string.  Otherwise, when [urlparse] accepts the trimmed input: with an
    http or https scheme the trimmed input is the result; starting with two
    slashes it is the result behind [https:]; any other is joined to the
    configured base URL.  The three sample values of the specification
    hold. *)
Theorem normalize_rules (u : string) :
  (Py.all Py.isspace u = true -> normalize u = Ok "") /\
  (forall p, Urllib.urlparse chk (Py.strip u) "" = Ok p ->
     (is_http (Urllib.scheme p) = true -> normalize u = Ok (Py.strip u)) /\
     (Py.startswith "//" (Py.strip u) = true ->
        normalize u = Ok ("https:" ++ Py.strip u)) /\
     (Py.strip u <> "" -> is_http (Urllib.scheme p) = false ->
      Py.startswith "//" (Py.strip u) = false ->
        normalize u
        = Urllib.urljoin chk (MUSIC_API_BASE_URL cfg) (Py.strip u))) /\
  normalize "" = Ok "" /\
  normalize "http://x/y" = Ok "http://x/y" /\
  normalize "//x/y" = Ok "https://x/y".
Proof.
  split; [apply normalize_blank|]. split.
  - intros p Hp. split; [|split].
    + apply normalize_http. exact Hp.
    + apply normalize_protocol_relative with (p := p). exact Hp.
    + apply normalize_relative. exact Hp.
  - repeat split; reflexivity.
Qed.


End NormalizerProps.

(** ** SHA-1 and HMAC: the published test vectors *)

Example sha1_abc :
  Sha1.hex (Sha1.digest (utf8 "abc"))
  = "a9993e364706816aba3e25717850c26c9cd0d89d".
Proof. vm_compute. reflexivity. Qed.

Example sha1_empty :
  Sha1.hex (Sha1.digest []) = "da39a3ee5e6b4b0d3255bfef95601890afd80709".
Proof. vm_compute. reflexivity. Qed.

Example sha1_two_blocks :
  Sha1.hex (Sha1.digest
    (utf8 "abcdbcdecdefdefgefghfghighijhijkijkljklmklmnlmnomnopnopq"))
  = "84983e441c3bd26ebaae4aa1f95129e5e54670f1".
Proof. vm_compute. reflexivity. Qed.

Example hmac_sha1_rfc2202_case2 :
  hmac_sha1_hexdigest "Jefe" "what do ya want for nothing?"
  = "effcdf6ae5eb2fa2d27416d5f184df9c259a7c79".
Proof. vm_compute. reflexivity. Qed.

Example hmac_sha1_fox :
  hmac_sha1_hexdigest "key" "The quick brown fox jumps over the lazy dog"
  = "de7c9b85b8b78aa6bc8a7a36f70a90701c9db4d9".
Proof. vm_compute. reflexivity. Qed.

(** ** The signer *)

Section SignerProps.

Variable cfg : Config.

Lemma sign_required_spec (t : string) :
  Py.mem t MUSIC_SIGN_REQUIRED_TYPES = true <-> In t ["url"; "lrc"; "pic"].
Proof.
  unfold Py.mem. rewrite existsb_exists. split.
  - intros (x & Hx & E). apply String.eqb_eq in E. subst x. exact Hx.
  - intros Ht. exists t. split; [exact Ht | apply String.eqb_refl].
Qed.

Lemma build_music_params_signed server req_type req_id :
  In req_type ["url"; "lrc"; "pic"] -> MUSIC_API_TOKEN cfg <> "" ->
  _build_music_params cfg server req_type req_id
  = Ok (dict_set [("server", server); ("type", req_type); ("id", req_id)]
          (MUSIC_SIGN_PARAM cfg)
          (hmac_sha1_hexdigest (MUSIC_API_TOKEN cfg)
             (server ++ req_type ++ req_id))).
Proof.
  intros Hin Ht. unfold _build_music_params.
  apply sign_required_spec in Hin. rewrite Hin, (truthy_true _ Ht).
  reflexivity.
Qed.

Lemma build_music_params_unsigned server req_type req_id :
  ~ In req_type ["url"; "lrc"; "pic"] ->
  _build_music_params cfg server req_type req_id
  = Ok [("server", server); ("type", req_type); ("id", req_id)].
Proof.
  intros Hn. unfold _build_music_params.
  destruct (Py.mem req_type MUSIC_SIGN_REQUIRED_TYPES) eqn:E; [|reflexivity].
  apply sign_required_spec in E. contradiction.
Qed.

Lemma build_music_params_no_secret server req_type req_id :
  In req_type ["url"; "lrc"; "pic"] -> MUSIC_API_TOKEN cfg = "" ->
  _build_music_params cfg server req_type req_id = Raise RuntimeError.
Proof.
  intros Hin Ht. unfold _build_music_params.
  apply sign_required_spec in Hin. rewrite Hin, Ht. reflexivity.
Qed.

Lemma dict_set_fresh (k v k1 v1 k2 v2 k3 v3 : string) :
  ~ In k [k1; k2; k3] ->
  dict_set [(k1, v1); (k2, v2); (k3, v3)] k v
  = [(k1, v1); (k2, v2); (k3, v3); (k, v)].
Proof.
  intros Hn. cbn [dict_set].
  destruct (String.eqb_spec k1 k) as [->|_]; [exfalso; apply Hn; simpl; auto|].
  destruct (String.eqb_spec k2 k) as [->|_]; [exfalso; apply Hn; simpl; auto|].
  destruct (String.eqb_spec k3 k) as [->|_]; [exfalso; apply Hn; simpl; auto|].
  reflexivity.
Qed.

(** C6.  The signer builds server, type and id, and adds the signature
    exactly for the types url, lrc and pic: the hexadecimal HMAC-SHA1,
    under the secret, of the UTF-8 bytes of server, type and id put
    together.  For the type search nothing is added.  A signature that is
    required while no secret is configured raises [RuntimeError]. *)
Theorem signer_spec (server req_type req_id : string) :
  let build := _build_music_params cfg server req_type req_id in
  let base := [("server", server); ("type", req_type); ("id", req_id)] in
  let signature :=
    Sha1.hex (Sha1.hmac (utf8 (MUSIC_API_TOKEN cfg))
                        (utf8 (server ++ req_type ++ req_id))) in
  (In req_type ["url"; "lrc"; "pic"] -> MUSIC_API_TOKEN cfg <> "" ->
     build = Ok (dict_set base (MUSIC_SIGN_PARAM cfg) signature) /\
     dict_get (dict_set base (MUSIC_SIGN_PARAM cfg) signature)
       (MUSIC_SIGN_PARAM cfg) = Some signature /\
     (~ In (MUSIC_SIGN_PARAM cfg) ["server"; "type"; "id"] ->
      build = Ok (base ++ [(MUSIC_SIGN_PARAM cfg, signature)])%list)) /\
  (~ In req_type ["url"; "lrc"; "pic"] -> build = Ok base) /\
  (In req_type ["url"; "lrc"; "pic"] -> MUSIC_API_TOKEN cfg = "" ->
     build = Raise RuntimeError) /\
  _build_music_params cfg server "search" req_id
  = Ok [("server", server); ("type", "search"); ("id", req_id)].
Proof.
  intros build base signature. subst build base.
  split; [|split; [|split]].
  - intros Hin Ht.
    rewrite (build_music_params_signed _ _ _ Hin Ht).
    fold signature. split; [reflexivity|]. split.
    + cbn [dict_set dict_get].
      repeat match goal with
             | |- context [String.eqb ?a ?b] =>
                 destruct (String.eqb_spec a b); cbn [dict_set dict_get]
             end; try congruence; reflexivity.
    + intros Hn. rewrite dict_set_fresh by exact Hn. reflexivity.
  - apply build_music_params_unsigned.
  - apply build_music_params_no_secret.
  - apply build_music_params_unsigned. simpl.
    intros [H|[H|[H|[]]]]; discriminate.
Qed.

End SignerProps.

(** ** The search cache *)

Lemma cache_puts_absent ps (c : gmap string song_entry) id :
  ~ In id (List.map fst ps) ->
  cache_get id (cache_puts ps c) = cache_get id c.
Proof.
  revert c. induction ps as [|[k v] ps IH]; intros c Hn; [reflexivity|].
  cbn [cache_puts fold_left fst snd]. fold (cache_puts ps (cache_put k v c)).
  rewrite IH.
  - unfold cache_get, cache_put. apply lookup_insert_ne.
    intros ->. apply Hn. simpl. auto.
  - intros Hin. apply Hn. simpl. auto.
Qed.

(** The laws of the dict behind the cache: an assignment is read back; a
    second assignment under the same key leaves the dict it would be with
    the last value alone; a key that no assignment named is not found. *)
Lemma cache_put_get_laws (c : gmap string song_entry) id r r1 :
  cache_get id (cache_put id r c) = Some r /\
  cache_put id r (cache_put id r1 c) = cache_put id r c /\
  cache_get id (cache_put id r (cache_put id r1 c)) = Some r /\
  (forall ps, ~ In id (List.map fst ps) ->
              cache_get id (cache_puts ps ∅) = None).
Proof.
  unfold cache_get, cache_put. repeat split.
  - apply lookup_insert_eq.
  - apply insert_insert_eq.
  - apply lookup_insert_eq.
  - intros ps Hn. rewrite cache_puts_absent by exact Hn. apply lookup_empty.
Qed.

(** ** The monad: frames and inversion *)

Lemma ext_refl P g : ext P g g.
Proof. split; [reflexivity|]. exists []. rewrite app_nil_r. auto. Qed.

Lemma ext_trans P g1 g2 g3 : ext P g1 g2 -> ext P g2 g3 -> ext P g1 g3.
Proof.
  intros [C1 [e1 [E1 F1]]] [C2 [e2 [E2 F2]]]. split; [congruence|].
  exists (e1 ++ e2)%list. rewrite E2, E1, <- app_assoc. split; [reflexivity|].
  rewrite forallb_app, F1, F2. reflexivity.
Qed.

Section Steps.

Context {A B : Type} (P : event -> bool).

Lemma steps_ret (a : A) : steps P (ret a).
Proof. intros g r g' H. inversion H. apply ext_refl. Qed.

Lemma steps_lift (x : result A) : steps P (lift x).
Proof. intros g r g' H. inversion H. apply ext_refl. Qed.

Lemma steps_bind (m : M A) (k : A -> M B) :
  steps P m -> (forall a, steps P (k a)) -> steps P (bind m k).
Proof.
  intros Hm Hk g r g' H. unfold bind in H.
  destruct (m g) as [[a|e] g1] eqn:E.
  - eapply ext_trans; [eapply Hm; exact E | eapply Hk; exact H].
  - inversion H; subst. eapply Hm; exact E.
Qed.

Lemma steps_try (m : M A) (h : exn -> M A) :
  steps P m -> (forall e, steps P (h e)) -> steps P (try_except m h).
Proof.
  intros Hm Hh g r g' H. unfold try_except in H.
  destruct (m g) as [[a|e] g1] eqn:E.
  - inversion H; subst. eapply Hm; exact E.
  - eapply ext_trans; [eapply Hm; exact E | eapply Hh; exact H].
Qed.

Lemma steps_if (b : bool) (m1 m2 : M A) :
  steps P m1 -> steps P m2 -> steps P (if b then m1 else m2).
Proof. destruct b; auto. Qed.

Lemma indep_ret (a : A) : indep (ret a).
Proof. intros g g0. reflexivity. Qed.

Lemma indep_lift (x : result A) : indep (lift x).
Proof. intros g g0. reflexivity. Qed.

Lemma indep_bind (m : M A) (k : A -> M B) :
  indep m -> (forall a, indep (k a)) -> indep (bind m k).
Proof.
  intros Hm Hk g g0. unfold bind. specialize (Hm g g0).
  destruct (m g) as [[a|e] g1], (m g0) as [[a0|e0] g1']; simpl in Hm;
    try discriminate; inversion Hm; subst; [apply Hk | reflexivity].
Qed.

Lemma indep_try (m : M A) (h : exn -> M A) :
  indep m -> (forall e, indep (h e)) -> indep (try_except m h).
Proof.
  intros Hm Hh g g0. unfold try_except. specialize (Hm g g0).
  destruct (m g) as [[a|e] g1], (m g0) as [[a0|e0] g1']; simpl in Hm;
    try discriminate; inversion Hm; subst; [reflexivity | apply Hh].
Qed.

Lemma indep_if (b : bool) (m1 m2 : M A) :
  indep m1 -> indep m2 -> indep (if b then m1 else m2).
Proof. destruct b; auto. Qed.

Lemma bind_inv (m : M A) (k : A -> M B) g b g' :
  bind m k g = (Ok b, g') ->
  exists a g1, m g = (Ok a, g1) /\ k a g1 = (Ok b, g').
Proof.
  unfold bind. destruct (m g) as [[a|e] g1]; [eauto|discriminate].
Qed.

End Steps.

Lemma steps_emit P e : P e = true -> steps P (emit e).
Proof.
  intros He g r g' H. inversion H; subst. split; [reflexivity|].
  exists [e]. simpl. rewrite He. auto.
Qed.

Lemma steps_progress P ctx n :
  P (Progress n) = true -> steps P (report_progress ctx n).
Proof.
  intros HP. destruct ctx; [apply steps_emit; exact HP | apply steps_ret].
Qed.

Lemma steps_get_cache P : steps P get_cache.
Proof. intros g r g' H. inversion H. apply ext_refl. Qed.

Lemma steps_set_playback P p : steps P (set_playback p).
Proof.
  intros g r g' H. inversion H; subst. split; [reflexivity|].
  exists []. simpl. rewrite app_nil_r. auto.
Qed.

Lemma indep_emit e : indep (emit e).
Proof. intros g g0. reflexivity. Qed.

(** Symbolic execution of the monad's operations. *)
Ltac run :=
  cbv beta iota zeta delta
    [bind try_except send emit lift ret report_progress get_cache set_cache
     set_playback fst].

Tactic Notation "inv_bind" hyp(H) ident(a) ident(g1) ident(Hm) :=
  apply bind_inv in H; destruct H as (a & g1 & Hm & H).

Ltac chain :=
  solve [ apply ext_refl | eapply ext_trans; [eassumption | chain] ].

(** ** The upstream client *)

Section ClientProps.

Variable chk : string -> bool.
Variable cfg : Config.
Variable http : request -> result response.
Variable json_loads : string -> result json.
Variable py_repr : json -> string.

Local Abbreviation normalize := (_normalize_music_url chk cfg).
Local Abbreviation fetch_url := (_fetch_song_url cfg http py_repr).
Local Abbreviation fetch_lyric := (_fetch_song_lyric cfg http json_loads py_repr).
Local Abbreviation final_url := (_resolve_final_url chk cfg http).
Local Abbreviation resolve :=
  (resolve_music_url chk cfg http json_loads py_repr).

Lemma steps_send P r : P (Request r) = true -> steps P (send http r).
Proof.
  intros HP. unfold send. apply steps_bind; [apply steps_emit; exact HP|].
  intros _. apply steps_lift.
Qed.

Lemma indep_send r : indep (send http r).
Proof.
  unfold send. apply indep_bind; [apply indep_emit | intros; apply indep_lift].
Qed.

Ltac steps_basic :=
  repeat first
    [ apply steps_ret | apply steps_lift | apply steps_get_cache
    | apply steps_set_playback
    | apply steps_progress; reflexivity
    | apply steps_send; reflexivity
    | apply steps_bind; [|intros ?]
    | apply steps_try; [|intros ?]
    | apply steps_if
    | match goal with
      | |- steps _ (match ?x with _ => _ end) => destruct x
      end ].

Ltac indep_basic :=
  repeat first
    [ apply indep_ret | apply indep_lift | apply indep_send
    | apply indep_bind; [|intros ?]
    | apply indep_try; [|intros ?]
    | apply indep_if
    | match goal with
      | |- indep (match ?x with _ => _ end) => destruct x
      end ].

Lemma steps_fetch_song_url id : steps quiet (fetch_url id).
Proof. unfold _fetch_song_url. steps_basic. Qed.

Lemma steps_resolve_final_url url : steps quiet (final_url url).
Proof. unfold _resolve_final_url. steps_basic. Qed.

Lemma indep_fetch_song_lyric id : indep (fetch_lyric id).
Proof. unfold _fetch_song_lyric. indep_basic. Qed.

(** X2.  Without a secret the lyric lookup sends nothing and returns the
    empty string: the last tier of the lyric fallback yields no text. *)
Lemma fetch_song_lyric_without_token id g :
  MUSIC_API_TOKEN cfg = "" ->
  _fetch_song_lyric cfg http json_loads py_repr id g = (Ok "", g).
Proof.
  intros Ht. unfold _fetch_song_lyric, _build_music_params. run.
  rewrite Ht. reflexivity.
Qed.

(** The same for the play-URL lookup. *)
Lemma fetch_song_url_without_token id g :
  MUSIC_API_TOKEN cfg = "" -> fetch_url id g = (Ok "", g).
Proof.
  intros Ht. unfold _fetch_song_url, _build_music_params. run.
  rewrite Ht. reflexivity.
Qed.

Lemma build_signed req_type song_id :
  In req_type ["url"; "lrc"; "pic"] -> MUSIC_API_TOKEN cfg <> "" ->
  _build_music_params cfg "netease" req_type song_id
  = Ok (signed_params cfg req_type song_id).
Proof. apply build_music_params_signed. Qed.

Lemma is_redirect_spec (s : Z) :
  is_redirect s = true <-> In s [301; 302; 303; 307; 308]%Z.
Proof.
  unfold is_redirect. rewrite existsb_exists. split.
  - intros (x & Hx & E). apply Z.eqb_eq in E. subst x. exact Hx.
  - intros H. exists s. split; [exact H | apply Z.eqb_refl].
Qed.

(** What the play-URL lookup makes of a response that the client hands
    over: a redirect status with a Location header gives the trimmed
    Location, without one the empty string; status 200 gives the trimmed
    string of a body that is a string, a list that starts with a string, or
    a list that starts with an object (its url field); any other status
    gives the empty string. *)
Lemma fetch_song_url_of_response song_id resp g :
  MUSIC_API_TOKEN cfg <> "" ->
  http (GET false (MUSIC_API_BASE_URL cfg) (signed_params cfg "url" song_id))
  = Ok resp ->
  let out := fst (fetch_url song_id g) in
  let redirect := In (status_code resp) [301; 302; 303; 307; 308]%Z in
  (redirect -> forall l, location resp = Some l -> out = Ok (Py.strip l)) /\
  (redirect -> location resp = None -> out = Ok "") /\
  (status_code resp = 200%Z ->
     (forall s, json_body resp = Ok (JStr s) -> out = Ok (Py.strip s)) /\
     (forall s rest, json_body resp = Ok (JArr (JStr s :: rest)) ->
        out = Ok (Py.strip s)) /\
     (forall d rest, json_body resp = Ok (JArr (JObj d :: rest)) ->
        out = Ok (Py.strip (py_str py_repr (obj_get d "url" (JStr "")))))) /\
  (~ redirect -> status_code resp <> 200%Z -> out = Ok "").
Proof.
  intros Ht Hh out redirect. subst out redirect.
  unfold _fetch_song_url.
  rewrite (build_signed "url" song_id) by (simpl; auto).
  run. rewrite Hh. run.
  split; [|split; [|split]].
  - intros Hr l Hl. apply is_redirect_spec in Hr. rewrite Hr, Hl.
    destruct l; reflexivity.
  - intros Hr Hl. apply is_redirect_spec in Hr. rewrite Hr, Hl. reflexivity.
  - intros Hs. rewrite Hs.
    replace (is_redirect 200) with false by reflexivity.
    cbn [Z.eqb Pos.eqb negb].
    split; [|split]; intros; rewrite H; reflexivity.
  - intros Hr Hs.
    destruct (is_redirect (status_code resp)) eqn:E.
    { apply is_redirect_spec in E. contradiction. }
    destruct (status_code resp =? 200)%Z eqn:E2.
    { apply Z.eqb_eq in E2. contradiction. }
    reflexivity.
Qed.


(** ** The redirect resolver *)

(** X1.  The three tiers, for a URL that normalises to a non-empty [n]: the
    final URL of a HEAD that answers 200 or 206, with no GET sent; else
    that of a streamed GET that answers 200; else [n] itself. *)
Lemma resolve_final_url_tiers url n g :
  normalize url = Ok n -> n <> "" ->
  final_url url g =
    match head_final http n with
    | Some u => (Ok u, add_events g [Request (HEAD n)])
    | None =>
        (Ok (match get_final http n with Some u => u | None => n end),
         add_events g [Request (HEAD n); Request (GET_stream n)])
    end.
Proof.
  intros Hn Hne. unfold _resolve_final_url, head_final, get_final, add_events.
  rewrite Hn. run. rewrite (truthy_true _ Hne). cbn [negb]. run.
  cbn [events _search_result_cache playback_state].
  destruct (http (HEAD n)) as [resp|e].
  - destruct ((status_code resp =? 200)%Z || (status_code resp =? 206)%Z);
      [reflexivity|].
    cbn [events _search_result_cache playback_state].
    rewrite <- app_assoc. cbn [app].
    destruct (http (GET_stream n)) as [resp'|e'].
    + destruct (status_code resp' =? 200)%Z; reflexivity.
    + reflexivity.
  - cbn [events _search_result_cache playback_state].
    rewrite <- app_assoc. cbn [app].
    destruct (http (GET_stream n)) as [resp'|e'].
    + destruct (status_code resp' =? 200)%Z; reflexivity.
    + reflexivity.
Qed.

Lemma resolve_final_url_blank url g :
  normalize url = Ok "" -> final_url url g = (Ok "", g).
Proof.
  intros Hn. unfold _resolve_final_url. rewrite Hn. reflexivity.
Qed.

(** C1 (the failing input).  [urlparse] rejects an authority with an
    unmatched bracket ("Invalid IPv6 URL"), and the resolver normalises
    outside of its [try] blocks: on such a URL it raises before any
    request, whatever the peer would answer. *)
Theorem resolve_final_url_raises_on_bracket (g : globals) :
  _normalize_music_url chk cfg "http://[::1" = Raise ValueError /\
  _resolve_final_url chk cfg http "http://[::1" g = (Raise ValueError, g) /\
  _resolve_final_url chk cfg http "//[" g = (Raise ValueError, g).
Proof.
  assert (Hn : normalize "http://[::1" = Raise ValueError) by reflexivity.
  split; [exact Hn|]. split.
  - unfold _resolve_final_url. rewrite Hn. reflexivity.
  - reflexivity.
Qed.

(** ** resolve_music_url *)

Ltac steps_all :=
  repeat first
    [ apply steps_fetch_song_url | apply steps_resolve_final_url
    | progress steps_basic ].

Tactic Notation "ext_of" hyp(H) ident(E) :=
  match type of H with
  | ?m ?g = (_, ?g1) =>
      assert (E : ext quiet g g1)
        by (refine ((_ : steps quiet m) _ _ _ H); steps_all)
  end.

(** What a successful call went through: the lookups up to the final URL
    add only quiet events and leave the cache alone; the lyric URL is the
    one [_build_lyric_url] gives for the effective lrc; the lyric text is
    fetched only when that URL is empty and a song id is known. *)
Lemma resolve_inv id song_id song_name artist url lrc lyric ctx g r g' :
  resolve id song_id song_name artist url lrc lyric ctx g
  = (Ok (Resolved r), g') ->
  let rid := opt_or song_id id in
  exists final lyric_url lyric_text g1 g2,
    ext quiet g g1 /\
    _build_lyric_url cfg rid (effective_lrc (_search_result_cache g) rid lrc)
    = Ok lyric_url /\
    (if negb (Py.truthy lyric_url) && opt_truthy rid
     then exists g1', ext quiet g1 g1' /\
                      fetch_lyric (opt_str rid) g1' = (Ok lyric_text, g2)
     else lyric_text = "" /\ g2 = g1) /\
    ext quiet g2 g' /\
    r = mkResult song_name artist final lyric_url
          (Py.truthy lyric_url || Py.truthy lyric_text) "self.music.play_url"
          (next_arguments_of final song_name artist lyric_url lyric_text).
Proof.
  intros H rid. unfold resolve_music_url in H. fold rid in H.
  destruct (negb (opt_truthy rid) && negb (Py.truthy url)); [discriminate|].
  inv_bind H u0 s1 H0. ext_of H0 E0.
  inv_bind H source s2 H1. ext_of H1 E1.
  inv_bind H looked s3 H2. ext_of H2 E2.
  destruct looked as [source_url|]; [|discriminate].
  inv_bind H u1 s4 H3. ext_of H3 E3.
  inv_bind H final s5 H4. ext_of H4 E4.
  inv_bind H cache s6 H5.
  unfold get_cache in H5. injection H5 as Hc Hs. subst cache s6.
  inv_bind H lyric_url s7 H6.
  unfold lift in H6. injection H6 as Hl Hs. subst s7.
  inv_bind H lyric_text s8 H7.
  inv_bind H u2 s9 H8. ext_of H8 E8.
  inv_bind H u3 s10 H9. ext_of H9 E9.
  inv_bind H u4 s11 H10. ext_of H10 E10.
  injection H as Hr Hg. subst r g'.
  assert (Eg : ext quiet g s5) by chain.
  exists final, lyric_url, lyric_text, s5, s8.
  split; [exact Eg|]. split.
  { rewrite <- Hl. destruct Eg as [-> _]. reflexivity. }
  split.
  { destruct (negb (Py.truthy lyric_url) && opt_truthy rid).
    - inv_bind H7 u5 s12 H11. ext_of H11 E11. exists s12. split; assumption.
    - unfold ret in H7. injection H7 as Ht Hs. auto. }
  split; [chain|reflexivity].
Qed.

Lemma dict_next_arguments final song_name artist lyric_url lyric_text :
  let d := next_arguments_of final song_name artist lyric_url lyric_text in
  dict_get d "url" = Some final /\
  dict_get d "title" = Some song_name /\
  dict_get d "artist" = Some artist /\
  dict_get d "lyric_url" = (if Py.truthy lyric_url then Some lyric_url else None) /\
  dict_get d "lyric" =
    (if Py.truthy lyric_url then None
     else if Py.truthy lyric_text then Some lyric_text else None) /\
  dict_keys d =
    (["url"; "title"; "artist"] ++
     if Py.truthy lyric_url then ["lyric_url"]
     else if Py.truthy lyric_text then ["lyric"] else [])%list.
Proof.
  unfold next_arguments_of.
  destruct (Py.truthy lyric_url); [|destruct (Py.truthy lyric_text)];
    repeat split; reflexivity.
Qed.

(** C3.  In every result of the resolve tool at most one of lyric URL and
    lyric text is set: with a non-empty [lyric_url] no lyric lookup is
    sent and no [lyric] is attached; [next_arguments] holds url, title and
    artist, followed by [lyric_url], or by [lyric], or by nothing. *)
Theorem lyric_url_excludes_lyric_text
  id song_id song_name artist url lrc lyric ctx g r g' :
  resolve id song_id song_name artist url lrc lyric ctx g
  = (Ok (Resolved r), g') ->
  let d := r_next_arguments r in
  (r_lyric_url r <> "" ->
     (exists evs, events g' = (events g ++ evs)%list /\
                  forallb quiet evs = true) /\
     dict_get d "lyric" = None /\
     dict_get d "lyric_url" = Some (r_lyric_url r)) /\
  dict_get d "url" = Some (r_final_url r) /\
  dict_get d "title" = Some (r_song_name r) /\
  dict_get d "artist" = Some (r_artist r) /\
  (dict_keys d = ["url"; "title"; "artist"] \/
   dict_keys d = ["url"; "title"; "artist"; "lyric_url"] \/
   dict_keys d = ["url"; "title"; "artist"; "lyric"]) /\
  ~ (dict_get d "lyric_url" <> None /\ dict_get d "lyric" <> None).
Proof.
  intros H d. apply resolve_inv in H.
  destruct H as (final & lyric_url & lyric_text & g1 & g2
                 & E1 & _ & Hfetch & E2 & ->).
  subst d. cbn [r_next_arguments r_lyric_url r_final_url r_song_name r_artist].
  destruct (dict_next_arguments final song_name artist lyric_url lyric_text)
    as (Hu & Ht & Ha & Hlu & Hl & Hk).
  rewrite Hu, Ht, Ha, Hlu, Hl, Hk.
  destruct lyric_url as [|c s]; cbn [Py.truthy negb andb] in *.
  - split; [congruence|].
    destruct (Py.truthy lyric_text); cbn [app]; repeat split; tauto.
  - destruct Hfetch as [-> ->]. split.
    + intros _. split; [|auto].
      destruct (ext_trans _ _ _ _ E1 E2) as [_ Hev]. exact Hev.
    + cbn [app]. repeat split; tauto.
Qed.

Lemma build_lyric_url_explicit rid lrc :
  Py.strip lrc <> "" -> _build_lyric_url cfg rid lrc = Ok (Py.strip lrc).
Proof.
  intros H. unfold _build_lyric_url.
  rewrite (truthy_true _ H).
  destruct lrc; [exfalso; apply H; reflexivity|]. reflexivity.
Qed.

Lemma build_lyric_url_blank rid lrc :
  Py.strip lrc = "" ->
  _build_lyric_url cfg rid lrc =
    if opt_truthy rid then
      if Py.truthy (MUSIC_API_TOKEN cfg)
      then Ok (signed_lyric_url cfg (opt_str rid))
      else Ok ""
    else Ok "".
Proof.
  intros H. unfold _build_lyric_url. rewrite H. cbn [Py.truthy].
  rewrite andb_false_r. destruct (opt_truthy rid); [|reflexivity].
  destruct (Py.truthy (MUSIC_API_TOKEN cfg)) eqn:Et.
  - rewrite build_signed; [reflexivity | simpl; auto |].
    intros E0. rewrite E0 in Et. discriminate.
  - apply truthy_false in Et.
    rewrite build_music_params_no_secret; [reflexivity | simpl; auto | exact Et].
Qed.

Lemma signed_lyric_url_nonempty id : signed_lyric_url cfg id <> "".
Proof.
  unfold signed_lyric_url. destruct (MUSIC_API_BASE_URL cfg); discriminate.
Qed.

(** C2 (as amended).  With [rid] the song id ([song_id], else [id]) the
    lyric reference of a result is, in this order: the caller's trimmed
    [lrc] when it is not blank; when the caller gave no [lrc], the trimmed
    lyric URL cached under [rid] when there is one; else, with a secret,
    the signed lyric URL built from [rid]; else no URL, and the text of the
    direct lyric lookup by [rid], attached when it is not empty.  The
    caller's [lyric] text plays no part. *)
Theorem lyric_reference_order
  id song_id song_name artist url lrc lyric ctx g r g' :
  resolve id song_id song_name artist url lrc lyric ctx g
  = (Ok (Resolved r), g') ->
  let rid := opt_or song_id id in
  (Py.strip lrc <> "" -> r_lyric_url r = Py.strip lrc) /\
  (lrc = "" -> opt_truthy rid = true ->
   forall e, cache_get (opt_str rid) (_search_result_cache g) = Some e ->
             Py.strip (e_lrc e) <> "" ->
             r_lyric_url r = Py.strip (e_lrc e)) /\
  (lrc = "" -> opt_truthy rid = true -> cached_lrc_blank g (opt_str rid) ->
   MUSIC_API_TOKEN cfg <> "" ->
   r_lyric_url r = signed_lyric_url cfg (opt_str rid)) /\
  (lrc = "" -> opt_truthy rid = true -> cached_lrc_blank g (opt_str rid) ->
   MUSIC_API_TOKEN cfg = "" ->
   r_lyric_url r = "" /\
   exists t, (forall g0, fst (fetch_lyric (opt_str rid) g0) = Ok t) /\
             r_has_lyric r = Py.truthy t /\
             r_next_arguments r =
               next_arguments_of (r_final_url r) song_name artist "" t).
Proof.
  intros H rid. apply resolve_inv in H. fold rid in H.
  destruct H as (fu & lyric_url & lyric_text & g1 & g2
                 & E1 & Hb & Hfetch & E2 & ->).
  cbn [r_lyric_url r_has_lyric r_next_arguments r_final_url].
  unfold effective_lrc in Hb.
  assert (Hkey : opt_truthy rid = true -> Py.truthy (opt_str rid) = true).
  { destruct rid as [s|]; [auto | discriminate]. }
  assert (Hblank : cached_lrc_blank g (opt_str rid) ->
                   Py.strip match cache_get (opt_str rid) (_search_result_cache g)
                            with Some cached => e_lrc cached | None => "" end = "").
  { unfold cached_lrc_blank.
    destruct (cache_get (opt_str rid) (_search_result_cache g)); auto. }
  split; [|split; [|split]].
  - intros Hl. assert (Ht : Py.truthy lrc = true).
    { destruct lrc; [exfalso; apply Hl; reflexivity | reflexivity]. }
    rewrite Ht in Hb. cbn [negb andb] in Hb.
    rewrite build_lyric_url_explicit in Hb by exact Hl. congruence.
  - intros -> Hrid e He Hne. rewrite Hrid in Hb.
    cbn [Py.truthy negb andb] in Hb. rewrite (Hkey Hrid), He in Hb.
    rewrite build_lyric_url_explicit in Hb by exact Hne. congruence.
  - intros -> Hrid Hc Htok. rewrite Hrid in Hb.
    cbn [Py.truthy negb andb] in Hb. rewrite (Hkey Hrid) in Hb.
    rewrite build_lyric_url_blank in Hb by exact (Hblank Hc).
    rewrite Hrid, (truthy_true _ Htok) in Hb. congruence.
  - intros -> Hrid Hc Htok. rewrite Hrid in Hb.
    cbn [Py.truthy negb andb] in Hb. rewrite (Hkey Hrid) in Hb.
    rewrite build_lyric_url_blank in Hb by exact (Hblank Hc).
    rewrite Hrid, Htok in Hb. cbn [Py.truthy] in Hb.
    injection Hb as <-. split; [reflexivity|].
    cbn [Py.truthy negb andb orb] in *. rewrite Hrid in Hfetch.
    destruct Hfetch as (g1' & _ & Hf). exists lyric_text. split; [|auto].
    intros g0. rewrite (indep_fetch_song_lyric (opt_str rid) g0 g1'), Hf.
    reflexivity.
Qed.

(** C10.  A call with neither id and a [url] that is not empty but all
    white space passes the validation, normalises the source to the empty
    string, sends no request at all, and returns the JSON result with an
    empty [final_url]. *)
Theorem blank_url_resolves_empty song_name artist url lrc lyric ctx g :
  url <> "" -> Py.all Py.isspace url = true ->
  normalize url = Ok "" /\
  exists r g',
    resolve None None song_name artist url lrc lyric ctx g
    = (Ok (Resolved r), g') /\
    r_final_url r = "" /\
    r_lyric_url r = Py.strip lrc /\
    events g' =
      (events g ++
       if ctx then [Progress 10; Progress 55; Progress 80; Progress 100]
       else [])%list.
Proof.
  intros Hne Hblank. split; [apply normalize_blank; exact Hblank|].
  unfold resolve_music_url.
  cbn [opt_or opt_truthy negb andb]. rewrite (truthy_true _ Hne).
  cbn [negb]. rewrite (normalize_blank chk cfg url Hblank).
  run. cbn [Py.truthy negb andb].
  assert (Hb : forall x, _build_lyric_url cfg None
                 (if negb (Py.truthy lrc) && false then x else lrc)
               = Ok (Py.strip lrc)).
  { intros x. rewrite andb_false_r. unfold _build_lyric_url. cbn [opt_truthy].
    destruct lrc as [|c s]; [reflexivity|]. cbn [Py.truthy andb].
    destruct (Py.strip (String c s)); reflexivity. }
  destruct ctx; run; rewrite resolve_final_url_blank by reflexivity;
    cbn [_search_result_cache]; rewrite Hb, andb_false_r; run;
    do 2 eexists; (split; [reflexivity|]);
    cbn [r_final_url r_lyric_url events];
    rewrite <- ?app_assoc, ?app_nil_r; auto.
Qed.

End ClientProps.

(** ** The play-URL lookup and the answers of the upstream *)

Section PlayUrlProps.

Variable cfg : Config.
Variable redirect_ok : string -> bool.
Variable upstream : request -> result response.
Variable py_repr : json -> string.

(** The lookup returns the empty string when the client raises. *)
Lemma fetch_song_url_raised (http : request -> result response) song_id e g :
  MUSIC_API_TOKEN cfg <> "" ->
  http (GET false (MUSIC_API_BASE_URL cfg) (signed_params cfg "url" song_id))
  = Raise e ->
  fst (_fetch_song_url cfg http py_repr song_id g) = Ok "".
Proof.
  intros Ht Hh. unfold _fetch_song_url.
  rewrite (build_signed cfg "url" song_id) by (simpl; auto).
  run. rewrite Hh. reflexivity.
Qed.

(** C7 (as amended).  For every answer of the upstream to the play-URL
    lookup: a redirect status with a Location header gives the trimmed
    Location when the client can build the redirect from it, and the empty
    string when it cannot; a redirect status without a Location header
    gives the empty string; status 200 gives the trimmed string of a body
    that is a string, a list that starts with a string, or a list that
    starts with an object (its url field); any other status gives the
    empty string. *)
Theorem play_url_of_response song_id resp g :
  MUSIC_API_TOKEN cfg <> "" ->
  upstream (GET false (MUSIC_API_BASE_URL cfg)
              (signed_params cfg "url" song_id))
  = Ok resp ->
  let out :=
    fst (_fetch_song_url cfg (httpx_send redirect_ok upstream) py_repr
           song_id g) in
  let redirect := In (status_code resp) [301; 302; 303; 307; 308]%Z in
  (redirect -> forall l, location resp = Some l ->
     out = Ok (if redirect_ok l then Py.strip l else "")) /\
  (redirect -> location resp = None -> out = Ok "") /\
  (status_code resp = 200%Z ->
     (forall s, json_body resp = Ok (JStr s) -> out = Ok (Py.strip s)) /\
     (forall s rest, json_body resp = Ok (JArr (JStr s :: rest)) ->
        out = Ok (Py.strip s)) /\
     (forall d rest, json_body resp = Ok (JArr (JObj d :: rest)) ->
        out = Ok (Py.strip (py_str py_repr (obj_get d "url" (JStr "")))))) /\
  (~ redirect -> status_code resp <> 200%Z -> out = Ok "").
Proof.
  intros Ht Hu out redirect. subst out redirect.
  assert (Hsend : forall l, location resp = Some l ->
            is_redirect (status_code resp) && negb (redirect_ok l) = false ->
            httpx_send redirect_ok upstream
              (GET false (MUSIC_API_BASE_URL cfg)
                 (signed_params cfg "url" song_id)) = Ok resp).
  { intros l Hl Hb. unfold httpx_send, has_redirect_location.
    rewrite Hu, Hl, andb_true_r, Hb. reflexivity. }
  assert (Hnone : location resp = None ->
            httpx_send redirect_ok upstream
              (GET false (MUSIC_API_BASE_URL cfg)
                 (signed_params cfg "url" song_id)) = Ok resp).
  { intros Hl. unfold httpx_send. rewrite Hu, Hl. reflexivity. }
  assert (Hplain : is_redirect (status_code resp) = false ->
            httpx_send redirect_ok upstream
              (GET false (MUSIC_API_BASE_URL cfg)
                 (signed_params cfg "url" song_id)) = Ok resp).
  { intros Hr. destruct (location resp) as [l|]; [|now apply Hnone].
    apply (Hsend l eq_refl). now rewrite Hr. }
  split; [|split; [|split]].
  - intros Hr l Hl. destruct (redirect_ok l) eqn:Hok.
    + assert (Hh := Hsend l Hl ltac:(rewrite Hok; apply andb_false_r)).
      destruct (fetch_song_url_of_response cfg _ py_repr song_id resp g Ht Hh)
        as (H & _).
      exact (H Hr l Hl).
    + apply (fetch_song_url_raised _ song_id TransportError g Ht).
      unfold httpx_send, has_redirect_location.
      apply is_redirect_spec in Hr. rewrite Hu, Hl, Hr, Hok. reflexivity.
  - intros Hr Hl.
    destruct (fetch_song_url_of_response cfg _ py_repr song_id resp g Ht
                (Hnone Hl)) as (_ & H & _).
    exact (H Hr Hl).
  - intros Hs.
    assert (Hr : is_redirect (status_code resp) = false)
      by (rewrite Hs; reflexivity).
    destruct (fetch_song_url_of_response cfg _ py_repr song_id resp g Ht
                (Hplain Hr)) as (_ & _ & H & _).
    exact (H Hs).
  - intros Hr Hs.
    assert (Hr' : is_redirect (status_code resp) = false).
    { destruct (is_redirect (status_code resp)) eqn:E; [|reflexivity].
      apply is_redirect_spec in E. contradiction. }
    destruct (fetch_song_url_of_response cfg _ py_repr song_id resp g Ht
                (Hplain Hr')) as (_ & _ & _ & H).
    exact (H Hr Hs).
Qed.

End PlayUrlProps.

(** ** Invariants and idempotence *)

Section Invariants.
Context {A B : Type}.

Lemma stable_ret (a : A) : stable (ret a).
Proof. intros g g0 H. split; [reflexivity | exact H]. Qed.

Lemma stable_lift (x : result A) : stable (lift x).
Proof. intros g g0 H. split; [reflexivity | exact H]. Qed.

Lemma stable_bind (m : M A) (k : A -> M B) :
  stable m -> (forall a, stable (k a)) -> stable (bind m k).
Proof.
  intros Hm Hk g g0 H. unfold bind. destruct (Hm g g0 H) as [Hv Hc].
  destruct (m g) as [[a|e] g1], (m g0) as [[a0|e0] g1']; simpl in Hv, Hc;
    try discriminate; inversion Hv; subst.
  - apply Hk. exact Hc.
  - split; [reflexivity | exact Hc].
Qed.

Lemma stable_try (m : M A) (h : exn -> M A) :
  stable m -> (forall e, stable (h e)) -> stable (try_except m h).
Proof.
  intros Hm Hh g g0 H. unfold try_except. destruct (Hm g g0 H) as [Hv Hc].
  destruct (m g) as [[a|e] g1], (m g0) as [[a0|e0] g1']; simpl in Hv, Hc;
    try discriminate; inversion Hv; subst.
  - split; [reflexivity | exact Hc].
  - apply Hh. exact Hc.
Qed.

Lemma stable_if (b : bool) (m1 m2 : M A) :
  stable m1 -> stable m2 -> stable (if b then m1 else m2).
Proof. destruct b; auto. Qed.

Lemma preserves_ret I (a : A) : preserves I (ret a).
Proof. intros g r g' H E. inversion E; subst. exact H. Qed.

Lemma preserves_lift I (x : result A) : preserves I (lift x).
Proof. intros g r g' H E. inversion E; subst. exact H. Qed.

Lemma preserves_bind I (m : M A) (k : A -> M B) :
  preserves I m -> (forall a, preserves I (k a)) -> preserves I (bind m k).
Proof.
  intros Hm Hk g r g' H E. unfold bind in E.
  destruct (m g) as [[a|e] g1] eqn:Em.
  - eapply Hk; [eapply Hm; eassumption | exact E].
  - inversion E; subst. eapply Hm; eassumption.
Qed.

Lemma preserves_try I (m : M A) (h : exn -> M A) :
  preserves I m -> (forall e, preserves I (h e)) -> preserves I (try_except m h).
Proof.
  intros Hm Hh g r g' H E. unfold try_except in E.
  destruct (m g) as [[a|e] g1] eqn:Em.
  - inversion E; subst. eapply Hm; eassumption.
  - eapply Hh; [eapply Hm; eassumption | exact E].
Qed.

Lemma preserves_if I (b : bool) (m1 m2 : M A) :
  preserves I m1 -> preserves I m2 -> preserves I (if b then m1 else m2).
Proof. destruct b; auto. Qed.

(** A handler that returns makes the whole block return. *)
Lemma try_except_returns (m : M A) (a : A) g :
  exists x g', try_except m (fun _ => ret a) g = (Ok x, g').
Proof.
  unfold try_except, ret. destruct (m g) as [[x|e] g']; eauto.
Qed.

End Invariants.

Lemma stable_emit e : stable (emit e).
Proof. intros g g0 H. split; [reflexivity | exact H]. Qed.

Lemma stable_get_cache : stable get_cache.
Proof. intros g g0 H. split; [simpl; congruence | exact H]. Qed.

Lemma stable_set_playback p : stable (set_playback p).
Proof. intros g g0 H. split; [reflexivity | exact H]. Qed.

Lemma stable_progress ctx n : stable (report_progress ctx n).
Proof. destruct ctx; [apply stable_emit | apply stable_ret]. Qed.

Lemma preserves_emit I e :
  (forall g, I g -> I (add_events g [e])) -> preserves I (emit e).
Proof. intros HI g r g' H E. inversion E; subst. apply HI. exact H. Qed.

Lemma keys_nonempty_emit e : preserves keys_nonempty (emit e).
Proof. apply preserves_emit. intros g H. exact H. Qed.

Lemma keys_nonempty_get_cache : preserves keys_nonempty get_cache.
Proof. intros g r g' H E. inversion E; subst. exact H. Qed.

Section OrchestratorProps.

Variable chk : string -> bool.
Variable cfg : Config.
Variable http : request -> result response.
Variable json_loads : string -> result json.
Variable py_repr : json -> string.

Local Abbreviation normalize := (_normalize_music_url chk cfg).
Local Abbreviation fetch_url := (_fetch_song_url cfg http py_repr).
Local Abbreviation fetch_lyric := (_fetch_song_lyric cfg http json_loads py_repr).
Local Abbreviation final_url := (_resolve_final_url chk cfg http).
Local Abbreviation resolve :=
  (resolve_music_url chk cfg http json_loads py_repr).
Local Abbreviation search := (_search_api chk cfg http py_repr).

Lemma stable_send r : stable (send http r).
Proof.
  unfold send. apply stable_bind; [apply stable_emit | intros; apply stable_lift].
Qed.

Ltac stable_tac :=
  repeat first
    [ apply stable_ret | apply stable_lift | apply stable_send
    | apply stable_get_cache | apply stable_set_playback
    | apply stable_progress
    | apply stable_bind; [|intros ?]
    | apply stable_try; [|intros ?]
    | apply stable_if
    | match goal with
      | |- stable (match ?x with _ => _ end) => destruct x
      end ].

Lemma stable_resolve id song_id song_name artist url lrc lyric ctx :
  stable (resolve id song_id song_name artist url lrc lyric ctx).
Proof.
  unfold resolve_music_url, _fetch_song_url, _resolve_final_url,
    _fetch_song_lyric.
  stable_tac.
Qed.


Ltac steps_run :=
  repeat first
    [ apply steps_ret | apply steps_lift | apply steps_get_cache
    | apply steps_set_playback
    | apply steps_progress; reflexivity
    | apply steps_send; reflexivity
    | apply steps_bind; [|intros ?]
    | apply steps_try; [|intros ?]
    | apply steps_if
    | match goal with
      | |- steps _ (match ?x with _ => _ end) => destruct x
      end ].

Lemma steps_resolve id song_id song_name artist url lrc lyric ctx :
  steps (fun _ => true) (resolve id song_id song_name artist url lrc lyric ctx).
Proof.
  unfold resolve_music_url, _fetch_song_url, _resolve_final_url,
    _fetch_song_lyric.
  steps_run.
Qed.

(** X3.  Idempotence of the orchestrator.  A call leaves the cache as it was,
    and the same call made again right after it returns the same value:
    final URL, lyric URL, lyric text and hand-off. *)
Theorem resolve_idempotent
  id song_id song_name artist url lrc lyric ctx g r g' :
  resolve_music_url chk cfg http json_loads py_repr
    id song_id song_name artist url lrc lyric ctx g = (r, g') ->
  _search_result_cache g' = _search_result_cache g /\
  fst (resolve_music_url chk cfg http json_loads py_repr
         id song_id song_name artist url lrc lyric ctx g') = r.
Proof.
  intros H. destruct (steps_resolve _ _ _ _ _ _ _ _ _ _ _ H) as [Hc _].
  split; [exact Hc|].
  destruct (stable_resolve id song_id song_name artist url lrc lyric ctx g' g Hc)
    as [Hv _].
  rewrite Hv, H. reflexivity.
Qed.

(** X4.  The three lookups of the upstream client never raise: whatever the
    peer does, each returns a value. *)
Theorem client_never_raises query limit song_id g :
  (exists l g', _search_api chk cfg http py_repr query limit g = (Ok l, g')) /\
  (exists s g', _fetch_song_url cfg http py_repr song_id g = (Ok s, g')) /\
  (exists s g',
     _fetch_song_lyric cfg http json_loads py_repr song_id g = (Ok s, g')).
Proof.
  unfold _search_api, _fetch_song_url, _fetch_song_lyric.
  split; [|split]; apply try_except_returns.
Qed.

Lemma keys_nonempty_put k e :
  Py.truthy k = true ->
  preserves keys_nonempty
    (let* c := get_cache in set_cache (cache_put k e c)).
Proof.
  intros Hk g r g' H E. inversion E; subst. unfold keys_nonempty in *.
  cbn [_search_result_cache]. unfold cache_put.
  rewrite lookup_insert_ne; [exact H|].
  intros ->. discriminate.
Qed.

Ltac preserves_tac :=
  repeat first
    [ apply preserves_ret | apply preserves_lift | apply keys_nonempty_emit
    | apply keys_nonempty_get_cache
    | apply keys_nonempty_put; assumption
    | apply preserves_bind; [|intros ?]
    | apply preserves_try; [|intros ?]
    | match goal with
      | |- preserves _ (if ?b then _ else _) => destruct b eqn:?
      | |- preserves _ (match ?x with _ => _ end) => destruct x
      end ].

Lemma keys_nonempty_search_item item :
  preserves keys_nonempty (search_item chk cfg py_repr item).
Proof. unfold search_item. preserves_tac. Qed.

Lemma keys_nonempty_search_loop items results :
  preserves keys_nonempty (search_loop chk cfg py_repr items results).
Proof.
  revert results. induction items as [|item rest IH]; intros results;
    cbn [search_loop].
  - apply preserves_ret.
  - apply preserves_bind; [apply keys_nonempty_search_item|].
    intros e. apply IH.
Qed.

(** X5.  The cache invariant of the data model: a search never stores an
    entry under the empty key. *)
Theorem search_keeps_keys_nonempty query limit g r g' :
  keys_nonempty g -> search query limit g = (r, g') -> keys_nonempty g'.
Proof.
  intros Hk H. revert g r g' Hk H. fold (preserves keys_nonempty (search query limit)).
  unfold _search_api, send.
  apply preserves_try; [|intros ?; apply preserves_ret].
  apply preserves_bind; [apply preserves_lift|]. intros params.
  apply preserves_bind.
  { apply preserves_bind; [apply keys_nonempty_emit|].
    intros _. apply preserves_lift. }
  intros resp. destruct (negb (status_code resp =? 200)%Z);
    [apply preserves_ret|].
  apply preserves_bind; [apply preserves_lift|]. intros data.
  apply preserves_bind; [apply preserves_lift|]. intros items.
  apply keys_nonempty_search_loop.
Qed.

(** X6.  What one turn of the search loop stores: the hit, under the text of
    its id, when that text is not empty; nothing otherwise. *)
Theorem search_item_caches item g e g' :
  search_item chk cfg py_repr item g = (Ok e, g') ->
  _search_result_cache g' =
    if Py.truthy (py_str py_repr (e_id e))
    then cache_put (py_str py_repr (e_id e)) e (_search_result_cache g)
    else _search_result_cache g.
Proof.
  intros H. unfold search_item in H.
  inv_bind H url_v s1 H1. unfold lift in H1. injection H1 as H1 <-.
  inv_bind H nurl s2 H2. unfold lift in H2. injection H2 as H2 <-.
  inv_bind H lrc_v s3 H3. unfold lift in H3. injection H3 as H3 <-.
  inv_bind H nlrc s4 H4.
  assert (s4 = g).
  { destruct (Py.truthy (Py.strip (py_str py_repr lrc_v)));
      unfold lift, ret in H4; injection H4 as _ Hs; auto. }
  subst s4.
  inv_bind H id_v s5 H5. unfold lift in H5. injection H5 as H5 <-.
  inv_bind H name_v s6 H6. unfold lift in H6. injection H6 as H6 <-.
  inv_bind H artist_v s7 H7. unfold lift in H7. injection H7 as H7 <-.
  inv_bind H pic_v s8 H8. unfold lift in H8. injection H8 as H8 <-.
  inv_bind H u s9 Hu.
  unfold ret in H. injection H as He Hs. subst e g'.
  cbn [e_id] in *.
  destruct (Py.truthy (py_str py_repr (py_or id_v (JStr nurl)))).
  - unfold bind, get_cache, set_cache in Hu. injection Hu as _ Hs. subst s9.
    reflexivity.
  - unfold ret in Hu. injection Hu as _ Hs. subst s9. reflexivity.
Qed.


Lemma steps_bind_lift {A B} P (x : result A) (k : A -> M B) :
  (forall a, x = Ok a -> steps P (k a)) -> steps P (bind (lift x) k).
Proof.
  intros Hk g r g' H. unfold bind, lift in H. destruct x as [a|e].
  - eapply Hk; [reflexivity | exact H].
  - inversion H; subst. apply ext_refl.
Qed.

(** X7.  A reference with a usable URL, or with no id, skips the play-URL
    lookup: the call sends no GET without redirects. *)
Theorem url_given_skips_lookup
  id song_id song_name artist url lrc lyric ctx g r g' :
  opt_truthy (opt_or song_id id) = false \/
  (exists s, normalize url = Ok s /\ s <> "") ->
  resolve id song_id song_name artist url lrc lyric ctx g = (r, g') ->
  exists evs, events g' = (events g ++ evs)%list /\
              forallb (fun e => negb (is_url_lookup e)) evs = true.
Proof.
  intros Hcase H.
  enough (S : steps (fun e => negb (is_url_lookup e))
                (resolve id song_id song_name artist url lrc lyric ctx)).
  { destruct (S _ _ _ H) as [_ Hev]. exact Hev. }
  clear H. unfold resolve_music_url.
  apply steps_if; [apply steps_ret|].
  apply steps_bind; [apply steps_progress; reflexivity|]. intros _.
  apply steps_bind_lift. intros source Hs.
  assert (Hskip : negb (Py.truthy source) && opt_truthy (opt_or song_id id)
                  = false).
  { destruct Hcase as [Hn | (s & Hn & Hne)].
    - rewrite Hn. apply andb_false_r.
    - rewrite Hn in Hs. injection Hs as <-.
      rewrite (truthy_true _ Hne). reflexivity. }
  rewrite Hskip.
  apply steps_bind; [apply steps_ret|]. intros looked.
  unfold _resolve_final_url, _fetch_song_lyric.
  steps_run.
Qed.


(** X8.  A reference with neither a song id nor a URL is rejected before any
    request or progress report. *)
Theorem missing_reference_rejected
  id song_id song_name artist lrc lyric ctx g :
  opt_truthy (opt_or song_id id) = false ->
  resolve id song_id song_name artist "" lrc lyric ctx g
  = (Ok MissingSongInfo, g).
Proof.
  intros H. unfold resolve_music_url. rewrite H. reflexivity.
Qed.

(** X9.  With a song id, a blank URL and a play-URL lookup that yields nothing
    (here: no secret to sign it with), the call reports the failed lookup
    and goes no further. *)
Theorem lookup_failure_reported
  id song_id song_name artist url lrc lyric ctx g :
  opt_truthy (opt_or song_id id) = true ->
  Py.all Py.isspace url = true ->
  MUSIC_API_TOKEN cfg = "" ->
  resolve id song_id song_name artist url lrc lyric ctx g
  = (Ok UrlLookupFailed,
     add_events g (if ctx then [Progress 10; Progress 25] else [])).
Proof.
  intros Hid Hurl Htok. unfold resolve_music_url. rewrite Hid.
  cbn [negb andb]. rewrite (normalize_blank chk cfg url Hurl).
  unfold add_events.
  destruct ctx; run; cbn [Py.truthy negb andb];
    rewrite fetch_song_url_without_token by exact Htok;
    cbn [Py.truthy negb events _search_result_cache playback_state];
    rewrite <- ?app_assoc, ?app_nil_r; [reflexivity|].
  destruct g; reflexivity.
Qed.

End OrchestratorProps.

(** ** The search *)

Section SearchProps.

Variable chk : string -> bool.
Variable cfg : Config.
Variable http : request -> result response.
Variable py_repr : json -> string.

Lemma search_loop_length items results l g g' :
  search_loop chk cfg py_repr items results g = (Ok l, g') ->
  List.length l = (List.length results + List.length items)%nat.
Proof.
  revert results g. induction items as [|item rest IH]; intros results g H;
    cbn [search_loop] in H.
  - unfold ret in H. injection H as <- _. simpl. lia.
  - inv_bind H e s He. apply IH in H. rewrite H, length_app. simpl. lia.
Qed.

Lemma slice_to_length {A} (l : list A) (limit : Z) :
  (0 <= limit)%Z -> (List.length (slice_to l limit) <= Z.to_nat limit)%nat.
Proof.
  intros H. unfold slice_to.
  destruct (0 <=? limit)%Z eqn:E; [|apply Z.leb_gt in E; lia].
  rewrite length_firstn. lia.
Qed.

(** X10.  A search returns at most [limit] hits, and none when the
    upstream does not answer 200. *)
Theorem search_bounded query limit g l g' :
  (0 <= limit)%Z ->
  _search_api chk cfg http py_repr query limit g = (Ok l, g') ->
  (List.length l <= Z.to_nat limit)%nat /\
  (forall resp,
     http (GET true (MUSIC_API_BASE_URL cfg)
             [("server", "netease"); ("type", "search"); ("id", query)])
     = Ok resp ->
     status_code resp <> 200%Z -> l = []).
Proof.
  intros Hlim H. unfold _search_api, try_except in H.
  rewrite build_music_params_unsigned in H
    by (simpl; intros [E|[E|[E|[]]]]; discriminate).
  match type of H with
  | match ?m g with _ => _ end = _ => destruct (m g) as [[x|e] s] eqn:Em
  end.
  - injection H as -> ->.
    inv_bind Em params s0 Hp. unfold lift in Hp. injection Hp as <- <-.
    inv_bind Em resp s1 Hr. unfold send in Hr.
    inv_bind Hr u s2 Hu. unfold lift in Hr. injection Hr as Hr _.
    destruct (negb (status_code resp =? 200)%Z) eqn:Es.
    + unfold ret in Em. injection Em as <- _. split; [simpl; lia|auto].
    + inv_bind Em data s3 Hd. inv_bind Em items s4 Hi.
      apply search_loop_length in Em. split.
      * rewrite Em. simpl. unfold lift in Hi. injection Hi as Hi _.
        unfold data_slice in Hi.
        destruct data; try discriminate; injection Hi as <-;
          apply slice_to_length; exact Hlim.
      * intros resp' Hr' Hs. rewrite Hr in Hr'. injection Hr' as <-.
        apply negb_false_iff, Z.eqb_eq in Es. contradiction.
  - unfold ret in H. injection H as <- _. split; [simpl; lia|auto].
Qed.

End SearchProps.

(** ** The cache between a search and a resolve call *)

Section CacheProps.

Variable chk : string -> bool.
Variable cfg : Config.
Variable http : request -> result response.
Variable json_loads : string -> result json.
Variable py_repr : json -> string.






End CacheProps.

(** ** Worked cases *)

(** A protocol-relative input between blanks. *)
Lemma normalize_rules_witness :
  _normalize_music_url Sample.any_bracketed_host default_config " //x/y "
  = Ok "https://x/y".
Proof.
  destruct (normalize_rules Sample.any_bracketed_host default_config " //x/y ")
    as (_ & H & _).
  destruct (H _ eq_refl) as (_ & H2 & _).
  exact (H2 eq_refl).
Defined.


(** C4, against the sentence as the specification has it: an input whose
    scheme is http comes back without its trailing blank, so not
    unchanged. *)
Lemma normalize_trims_http_input :
  _normalize_music_url Sample.any_bracketed_host default_config "http://x/y "
  = Ok "http://x/y" /\
  Urllib.scheme_of "http://x/y " = "http" /\
  "http://x/y" <> "http://x/y ".
Proof. split; [reflexivity | split; [reflexivity | discriminate]]. Qed.


(** The signed parameters of the url lookup of song 42 under secret S. *)
Lemma signer_spec_witness :
  _build_music_params Sample.secret_config "netease" "url" "42"
  = Ok [("server", "netease"); ("type", "url"); ("id", "42");
        ("auth", hmac_sha1_hexdigest "S" "neteaseurl42")].
Proof.
  destruct (signer_spec Sample.secret_config "netease" "url" "42") as (H & _).
  destruct H as (_ & _ & H3); [simpl; auto | discriminate |].
  apply H3. simpl. intros [H|[H|[H|[]]]]; discriminate.
Defined.


(** A 302 with a Location header that the client can follow. *)
Lemma play_url_of_response_witness :
  fst (_fetch_song_url Sample.secret_config
         (httpx_send Demo.strict_httpx Sample.cdn) Sample.repr_unused "10"
         initial_globals)
  = Ok "https://cdn/x.mp3".
Proof.
  destruct (play_url_of_response Sample.secret_config Demo.strict_httpx
              Sample.cdn Sample.repr_unused "10"
              (mkResponse 302 (Some "https://cdn/x.mp3") "" (Raise ValueError)
                 "https://api.i-meto.com/meting/api")
              initial_globals) as (H & _); [discriminate | reflexivity |].
  apply (H (or_intror (or_introl eq_refl)) "https://cdn/x.mp3" eq_refl).
Defined.

(** C7, against the sentence as the specification has it: the upstream
    answers 302 with a Location header that the client cannot parse.  The
    client raises while it builds the redirect, the lookup catches that,
    and the result is the empty string, not the trimmed Location. *)
Lemma play_url_unparsable_location :
  Demo.bad_location_peer
    (GET false (MUSIC_API_BASE_URL Sample.secret_config)
       (signed_params Sample.secret_config "url" "10"))
  = Ok (mkResponse 302 (Some "http://[::1") "" (Raise ValueError)
          "https://api.i-meto.com/meting/api") /\
  Py.strip "http://[::1" = "http://[::1" /\
  fst (_fetch_song_url Sample.secret_config
         (httpx_send Demo.strict_httpx Demo.bad_location_peer)
         Sample.repr_unused "10" initial_globals)
  = Ok "".
Proof. repeat split; vm_compute; reflexivity. Qed.



(** A url of two blanks and no id. *)
Lemma blank_url_resolves_empty_witness :
  exists r g',
    resolve_music_url Sample.any_bracketed_host default_config Sample.unreachable
      Sample.loads Sample.repr_unused None None "Song A" "Artist A" "  " "" ""
      true initial_globals
    = (Ok (Resolved r), g') /\
    r_final_url r = "" /\
    events g' = [Progress 10; Progress 55; Progress 80; Progress 100].
Proof.
  destruct (blank_url_resolves_empty Sample.any_bracketed_host default_config
              Sample.unreachable Sample.loads Sample.repr_unused
              "Song A" "Artist A" "  " "" "" true initial_globals)
    as (_ & r & g' & H1 & H2 & _ & H4); [discriminate | reflexivity |].
  exists r, g'. repeat split; assumption.
Defined.

(** C2, against the sentence as the specification has it: the caller
    supplies a lyric text and no lrc.  With song 7 in the cache, the cached
    lyric URL becomes the lyric reference; with no song id at all, the
    result has no lyric.  The caller's text appears in neither result. *)
Lemma explicit_lyric_text_ignored :
  fst (resolve_music_url Sample.any_bracketed_host Sample.secret_config
         Sample.unreachable Sample.loads Sample.repr_unused
         (Some "7") None "Song A" "Artist A" "http://x/y" "" "[00:01.00]la"
         false Sample.after_search)
  = Ok (Resolved
          (mkResult "Song A" "Artist A" "http://x/y" "https://l/7.lrc" true
             "self.music.play_url"
             [("url", "http://x/y"); ("title", "Song A");
              ("artist", "Artist A"); ("lyric_url", "https://l/7.lrc")])) /\
  fst (resolve_music_url Sample.any_bracketed_host Sample.secret_config
         Sample.unreachable Sample.loads Sample.repr_unused
         None None "Song A" "Artist A" "http://x/y" "" "[00:01.00]la"
         false Sample.after_search)
  = Ok (Resolved
          (mkResult "Song A" "Artist A" "http://x/y" "" false
             "self.music.play_url"
             [("url", "http://x/y"); ("title", "Song A");
              ("artist", "Artist A")])).
Proof. split; vm_compute; reflexivity. Qed.

(** Song 7 was found by a search: its cached lyric URL is used. *)
Lemma lyric_reference_order_witness :
  exists r,
    fst (resolve_music_url Sample.any_bracketed_host Sample.secret_config
           Sample.unreachable Sample.loads Sample.repr_unused
           (Some "7") None "Song A" "Artist A" "http://x/y" "" ""
           false Sample.after_search)
    = Ok (Resolved r) /\
    r_lyric_url r = "https://l/7.lrc".
Proof.
  destruct (resolve_music_url Sample.any_bracketed_host Sample.secret_config
              Sample.unreachable Sample.loads Sample.repr_unused
              (Some "7") None "Song A" "Artist A" "http://x/y" "" ""
              false Sample.after_search) as [[[| |r]|e] g'] eqn:E;
    try (vm_compute in E; discriminate).
  exists r. split; [reflexivity|].
  apply lyric_reference_order in E. destruct E as (_ & T2 & _).
  apply (T2 eq_refl eq_refl Sample.entry7); [reflexivity|].
  vm_compute. discriminate.
Defined.

(** An explicit lrc: it is the lyric URL, and no lyric text is attached. *)
Lemma lyric_url_excludes_lyric_text_witness :
  exists r,
    fst (resolve_music_url Sample.any_bracketed_host default_config
           Sample.cdn_no_head Sample.loads Sample.repr_unused
           (Some "7") None "Song A" "Artist A" "//x/y" " https://l/a.lrc " ""
           false initial_globals)
    = Ok (Resolved r) /\
    r_final_url r = "https://cdn/y.mp3" /\
    dict_get (r_next_arguments r) "lyric_url" = Some "https://l/a.lrc" /\
    dict_get (r_next_arguments r) "lyric" = None.
Proof.
  destruct (resolve_music_url Sample.any_bracketed_host default_config
              Sample.cdn_no_head Sample.loads Sample.repr_unused
              (Some "7") None "Song A" "Artist A" "//x/y" " https://l/a.lrc " ""
              false initial_globals) as [[[| |r]|e] g'] eqn:E;
    try (vm_compute in E; discriminate).
  assert (Hr : r_final_url r = "https://cdn/y.mp3" /\
               r_lyric_url r = "https://l/a.lrc").
  { pose proof E as E'. vm_compute in E'. injection E' as <- _.
    split; reflexivity. }
  destruct Hr as [Hf Hl].
  exists r. split; [reflexivity|]. split; [exact Hf|].
  apply lyric_url_excludes_lyric_text in E.
  destruct E as (Hc & _).
  destruct Hc as (_ & Hno & Hurl); [rewrite Hl; discriminate|].
  rewrite <- Hl. split; assumption.
Defined.

(** ** More worked cases *)

Lemma resolve_final_url_tiers_witness :
  _resolve_final_url Sample.any_bracketed_host default_config
    Sample.cdn_no_head "//x/y" initial_globals
  = (Ok "https://cdn/y.mp3",
     add_events initial_globals
       [Request (HEAD "https://x/y"); Request (GET_stream "https://x/y")]).
Proof.
  rewrite (resolve_final_url_tiers Sample.any_bracketed_host default_config
             Sample.cdn_no_head "//x/y" "https://x/y");
    [reflexivity | reflexivity | discriminate].
Defined.

Lemma fetch_song_lyric_without_token_witness :
  _fetch_song_lyric default_config Sample.cdn Sample.loads Sample.repr_unused
    "10" initial_globals
  = (Ok "", initial_globals).
Proof.
  apply fetch_song_lyric_without_token. reflexivity.
Defined.

Lemma resolve_idempotent_witness :
  fst (resolve_music_url Sample.any_bracketed_host default_config
         Sample.cdn_no_head Sample.loads Sample.repr_unused
         (Some "7") None "Song A" "Artist A" "//x/y" "" "" true
         (snd (resolve_music_url Sample.any_bracketed_host default_config
                 Sample.cdn_no_head Sample.loads Sample.repr_unused
                 (Some "7") None "Song A" "Artist A" "//x/y" "" "" true
                 Sample.after_search)))
  = fst (resolve_music_url Sample.any_bracketed_host default_config
           Sample.cdn_no_head Sample.loads Sample.repr_unused
           (Some "7") None "Song A" "Artist A" "//x/y" "" "" true
           Sample.after_search).
Proof.
  destruct (resolve_music_url Sample.any_bracketed_host default_config
              Sample.cdn_no_head Sample.loads Sample.repr_unused
              (Some "7") None "Song A" "Artist A" "//x/y" "" "" true
              Sample.after_search) as [r g'] eqn:E.
  apply resolve_idempotent in E. exact (proj2 E).
Defined.

Lemma search_keeps_keys_nonempty_witness :
  keys_nonempty
    (snd (_search_api Sample.any_bracketed_host default_config Sample.upstream
            Sample.repr_unused "song" 10 initial_globals)).
Proof.
  destruct (_search_api Sample.any_bracketed_host default_config
              Sample.upstream Sample.repr_unused "song" 10 initial_globals)
    as [r g'] eqn:E.
  eapply search_keeps_keys_nonempty; [|exact E]. reflexivity.
Defined.

Lemma url_given_skips_lookup_witness :
  exists evs,
    events (snd (resolve_music_url Sample.any_bracketed_host default_config
                   Sample.cdn_no_head Sample.loads Sample.repr_unused
                   (Some "7") None "Song A" "Artist A" "//x/y" "" "" false
                   initial_globals))
    = (events initial_globals ++ evs)%list /\
    forallb (fun e => negb (is_url_lookup e)) evs = true.
Proof.
  destruct (resolve_music_url Sample.any_bracketed_host default_config
              Sample.cdn_no_head Sample.loads Sample.repr_unused
              (Some "7") None "Song A" "Artist A" "//x/y" "" "" false
              initial_globals) as [r g'] eqn:E.
  eapply url_given_skips_lookup; [|exact E].
  right. exists "https://x/y". split; [reflexivity | discriminate].
Defined.

Lemma missing_reference_rejected_witness :
  resolve_music_url Sample.any_bracketed_host default_config Sample.cdn
    Sample.loads Sample.repr_unused None (Some "") "Song A" "Artist A" "" "" ""
    true initial_globals
  = (Ok MissingSongInfo, initial_globals).
Proof. apply missing_reference_rejected. reflexivity. Defined.

Lemma lookup_failure_reported_witness :
  resolve_music_url Sample.any_bracketed_host default_config Sample.cdn
    Sample.loads Sample.repr_unused (Some "10") None "Song A" "Artist A" "" "" ""
    true initial_globals
  = (Ok UrlLookupFailed,
     add_events initial_globals [Progress 10; Progress 25]).
Proof. apply lookup_failure_reported; reflexivity. Defined.

Lemma search_item_caches_witness :
  _search_result_cache
    (snd (search_item Sample.any_bracketed_host default_config
            Sample.repr_unused Sample.search_hit initial_globals))
  = cache_put "7"
      (mkEntry (JInt 7) (JStr "Song A") (JStr "Artist A")
         "https://api.i-meto.com/x/7.mp3" (JStr "")
         "https://api.i-meto.com/meting/api?server=netease&type=lrc&id=7")
      ∅.
Proof.
  destruct (search_item Sample.any_bracketed_host default_config
              Sample.repr_unused Sample.search_hit initial_globals)
    as [[e|x] g'] eqn:E; [|vm_compute in E; discriminate].
  assert (He : e = mkEntry (JInt 7) (JStr "Song A") (JStr "Artist A")
                     "https://api.i-meto.com/x/7.mp3" (JStr "")
                     "https://api.i-meto.com/meting/api?server=netease&type=lrc&id=7").
  { pose proof E as E'. vm_compute in E'. injection E' as <- _. reflexivity. }
  apply search_item_caches in E. cbn [snd]. rewrite E, He. reflexivity.
Defined.

(** The scenario of the specification: song 10, an upstream that answers
    the url lookup with a 302 to the CDN, a CDN that answers HEAD. *)
Example end_to_end_redirect :
  fst (resolve_music_url Sample.any_bracketed_host Sample.secret_config
         Sample.cdn Sample.loads Sample.repr_unused
         (Some "10") None "Song A" "Artist A" "" "" "" false initial_globals)
  = Ok (Resolved
          (mkResult "Song A" "Artist A" "https://cdn/x.mp3"
             (signed_lyric_url Sample.secret_config "10") true
             "self.music.play_url"
             [("url", "https://cdn/x.mp3"); ("title", "Song A");
              ("artist", "Artist A");
              ("lyric_url", signed_lyric_url Sample.secret_config "10")])).
Proof. vm_compute. reflexivity. Qed.

(** A search, then a resolve by id alone: the cached lyric URL is used. *)
Example search_then_resolve :
  let g := snd (_search_api Sample.any_bracketed_host Sample.secret_config
                  Sample.upstream Sample.repr_unused "song" 10
                  initial_globals) in
  match fst (resolve_music_url Sample.any_bracketed_host Sample.secret_config
               Sample.upstream Sample.loads Sample.repr_unused
               (Some "7") None "Song A" "Artist A" "" "" "" false g) with
  | Ok (Resolved r) =>
      r_lyric_url r
      = "https://api.i-meto.com/meting/api?server=netease&type=lrc&id=7"
  | _ => False
  end.
Proof. vm_compute. reflexivity. Qed.

(** An lrc of blanks keeps the cache from being consulted: the lyric URL
    is the constructed one, although song 7 has a cached lyric URL. *)
Example blank_lrc_skips_cache :
  fst (resolve_music_url Sample.any_bracketed_host Sample.secret_config
         Sample.unreachable Sample.loads Sample.repr_unused
         (Some "7") None "Song A" "Artist A" "http://x/y" "  " "" false
         Sample.after_search)
  = Ok (Resolved
          (mkResult "Song A" "Artist A" "http://x/y"
             (signed_lyric_url Sample.secret_config "7") true
             "self.music.play_url"
             [("url", "http://x/y"); ("title", "Song A");
              ("artist", "Artist A");
              ("lyric_url", signed_lyric_url Sample.secret_config "7")])).
Proof. vm_compute. reflexivity. Qed.

(** One hit is asked for, one comes back. *)
Lemma search_bounded_witness :
  (List.length
     (match fst (_search_api Sample.any_bracketed_host default_config
                   Sample.upstream Sample.repr_unused "song" 1
                   initial_globals) with
      | Ok l => l
      | Raise _ => []
      end) <= 1)%nat.
Proof.
  destruct (_search_api Sample.any_bracketed_host default_config
              Sample.upstream Sample.repr_unused "song" 1 initial_globals)
    as [[l|e] g'] eqn:E; [|simpl; lia].
  apply search_bounded in E; [|lia]. destruct E as [E _]. exact E.
Defined.

(** * Further properties *)

(** ** Trimming *)

Lemma rstrip_by_idem (p : ascii -> bool) (s : string) :
  Py.rstrip_by p (Py.rstrip_by p s) = Py.rstrip_by p s.
Proof.
  induction s as [|c r IH]; [reflexivity|].
  cbn [Py.rstrip_by].
  destruct (Py.rstrip_by p r) as [|d r'] eqn:E.
  - destruct (p c) eqn:Ep; cbn [Py.rstrip_by]; [reflexivity|].
    now rewrite Ep.
  - cbn [Py.rstrip_by]. cbn [Py.rstrip_by] in IH.
    now rewrite IH.
Qed.

Lemma rstrip_by_head (p : ascii -> bool) (c : ascii) (r : string) :
  p c = false -> exists r', Py.rstrip_by p (String c r) = String c r'.
Proof.
  intros Hc. cbn [Py.rstrip_by].
  destruct (Py.rstrip_by p r); [rewrite Hc|]; eauto.
Qed.

Lemma lstrip_by_head (p : ascii -> bool) (s : string) :
  Py.lstrip_by p s = "" \/
  exists c r, Py.lstrip_by p s = String c r /\ p c = false.
Proof.
  induction s as [|c r IH]; [now left|].
  cbn [Py.lstrip_by]. destruct (p c) eqn:E; [exact IH|].
  right; eauto.
Qed.

Lemma strip_by_idem (p : ascii -> bool) (s : string) :
  Py.strip_by p (Py.strip_by p s) = Py.strip_by p s.
Proof.
  unfold Py.strip_by.
  destruct (lstrip_by_head p s) as [E|(c & r & E & Hc)]; rewrite E.
  - reflexivity.
  - destruct (rstrip_by_head p c r Hc) as [r' E'].
    rewrite E'. cbn [Py.lstrip_by]. rewrite Hc.
    rewrite <- E'. apply rstrip_by_idem.
Qed.

Lemma strip_idem (s : string) : Py.strip (Py.strip s) = Py.strip s.
Proof. apply strip_by_idem. Qed.

(** ** The lyric download by URL *)

Section LyricByUrlProps.

Variable http : request -> result response.

(** X11.  The lyric download by URL never raises.  It returns a trimmed
    text and sends at most one request, a GET of that very URL that follows
    no redirect; for an empty URL it sends none.  The cache and the
    playback state stay as they were. *)
Theorem fetch_lyric_by_url_safe (lrc_url : string) (g : globals) :
  exists lyric g',
    _fetch_lyric_by_url http lrc_url g = (Ok lyric, g') /\
    Py.strip lyric = lyric /\
    (g' = g \/ g' = add_events g [Request (GET false lrc_url [])]) /\
    (lrc_url = "" -> g' = g).
Proof.
  unfold _fetch_lyric_by_url.
  destruct lrc_url as [|c u]; cbn [Py.truthy negb].
  - exists "", g. repeat split; auto.
  - unfold try_except, bind, send, emit, lift, ret. cbn.
    destruct (http (GET false (String c u) [])) as [resp|e].
    + destruct (status_code resp =? 200)%Z; cbn.
      * eexists _, _. split; [reflexivity|].
        split; [apply strip_idem|]. split; [now right|discriminate].
      * eexists _, _. split; [reflexivity|].
        split; [reflexivity|]. split; [now right|discriminate].
    + eexists _, _. split; [reflexivity|].
      split; [reflexivity|]. split; [now right|discriminate].
Qed.

(** X12.  The download returns a text that is not empty exactly when the
    URL is not empty and the peer answers the GET with status 200 and a
    body that trims to that text. *)
Theorem fetch_lyric_by_url_text (lrc_url lyric : string) (g g' : globals) :
  lyric <> "" ->
  (_fetch_lyric_by_url http lrc_url g = (Ok lyric, g') <->
   lrc_url <> "" /\
   g' = add_events g [Request (GET false lrc_url [])] /\
   exists resp,
     http (GET false lrc_url []) = Ok resp /\
     status_code resp = 200%Z /\
     Py.strip (text resp) = lyric).
Proof.
  intros Hne. unfold _fetch_lyric_by_url.
  destruct lrc_url as [|c u]; cbn [Py.truthy negb].
  - unfold ret. split; [intros [= <- _]; congruence|intros [H _]; congruence].
  - unfold try_except, bind, send, emit, lift, ret. cbn.
    destruct (http (GET false (String c u) [])) as [resp|e].
    + destruct (status_code resp =? 200)%Z eqn:Es; cbn.
      * apply Z.eqb_eq in Es. split.
        -- intros [= <- <-]. split; [discriminate|]. split; [reflexivity|].
           eauto.
        -- intros (_ & -> & resp' & [= <-] & _ & <-). reflexivity.
      * apply Z.eqb_neq in Es. split.
        -- intros [= <- _]. congruence.
        -- intros (_ & _ & resp' & [= <-] & Hs & _). congruence.
    + split.
      * intros [= <- _]. congruence.
      * intros (_ & _ & resp' & [=] & _).
Qed.

End LyricByUrlProps.

(** ** The first lyric line *)

Lemma all_lstrip_by (q p : ascii -> bool) (s : string) :
  Py.all q s = true -> Py.all q (Py.lstrip_by p s) = true.
Proof.
  induction s as [|c r IH]; [auto|].
  intros H. cbn [Py.lstrip_by]. destruct (p c); [|exact H].
  cbn [Py.all] in H. apply andb_true_iff in H as [_ H]. auto.
Qed.

Lemma all_rstrip_by (q p : ascii -> bool) (s : string) :
  Py.all q s = true -> Py.all q (Py.rstrip_by p s) = true.
Proof.
  induction s as [|c r IH]; [auto|].
  intros H. cbn [Py.all] in H. apply andb_true_iff in H as [Hc Hr].
  specialize (IH Hr). cbn [Py.rstrip_by].
  destruct (Py.rstrip_by p r) as [|d r'].
  - destruct (p c); [reflexivity|]. cbn [Py.all]. now rewrite Hc.
  - cbn [Py.all] in *. now rewrite Hc, IH.
Qed.

Lemma all_strip (q : ascii -> bool) (s : string) :
  Py.all q s = true -> Py.all q (Py.strip s) = true.
Proof.
  intros H. unfold Py.strip, Py.strip_by.
  now apply all_rstrip_by, all_lstrip_by.
Qed.

Lemma all_sub_tags_from (q : ascii -> bool) (s : string) (k : nat) :
  Py.all q s = true -> Py.all q (Lyric.sub_tags_from k s) = true.
Proof.
  revert k. induction s as [|c r IH]; intros k H; [reflexivity|].
  cbn [Py.all] in H. apply andb_true_iff in H as [Hc Hr].
  cbn [Lyric.sub_tags_from]. destruct k as [|k]; [|now apply IH].
  destruct (Lyric.tag_length (String c r)); [now apply IH|].
  cbn [Py.all]. rewrite Hc. now apply IH.
Qed.

Lemma splitlines_one_line_n (n : nat) (s : string) :
  (String.length s <= n)%nat ->
  Forall (fun l => Lyric.one_line l = true) (Lyric.splitlines s).
Proof.
  revert s. induction n as [|n IH]; intros s Hn.
  - destruct s; [constructor|simpl in Hn; lia].
  - destruct s as [|c r]; [constructor|].
    simpl in Hn. cbn [Lyric.splitlines].
    destruct (Lyric.is_linebreak c) eqn:Ec.
    + constructor; [reflexivity|].
      destruct r as [|d r']; [constructor|].
      simpl in Hn.
      destruct ((Py.ord c =? 13)%N && (Py.ord d =? 10)%N);
        apply IH; simpl; lia.
    + assert (H : Forall (fun l => Lyric.one_line l = true)
                    (Lyric.splitlines r)) by (apply IH; lia).
      destruct (Lyric.splitlines r) as [|l ls].
      * constructor; [|constructor].
        unfold Lyric.one_line. cbn [Py.all]. now rewrite Ec.
      * inversion H as [|? ? Hl Hls]; subst.
        constructor; [|exact Hls].
        unfold Lyric.one_line in *. cbn [Py.all]. now rewrite Ec.
Qed.

Lemma splitlines_one_line (s : string) :
  Forall (fun l => Lyric.one_line l = true) (Lyric.splitlines s).
Proof. now apply (splitlines_one_line_n (String.length s)). Qed.

Lemma display_one_line (l : string) :
  Lyric.one_line l = true -> Lyric.one_line (Lyric.display l) = true.
Proof.
  intros H. unfold Lyric.display, Lyric.one_line, Lyric.sub_tags in *.
  now apply all_strip, all_sub_tags_from, all_strip.
Qed.

Lemma display_blank (l : string) : Py.strip l = "" -> Lyric.display l = "".
Proof. intros H. unfold Lyric.display. now rewrite H. Qed.

(** The loop returns what it makes of the first line that leaves
    anything. *)
Lemma first_display_line_spec (lines : list string) :
  (Forall (fun l => Lyric.display l = "") lines /\
   Lyric.first_display_line lines = "") \/
  exists pre l post,
    lines = (pre ++ l :: post)%list /\
    Forall (fun l => Lyric.display l = "") pre /\
    Lyric.display l <> "" /\
    Lyric.first_display_line lines = Lyric.display l.
Proof.
  induction lines as [|raw rest IH]; [left; split; [constructor|reflexivity]|].
  cbn [Lyric.first_display_line].
  assert (Hd : Lyric.display raw = "" ->
               (if negb (Py.truthy (Py.strip raw))
                then Lyric.first_display_line rest
                else if Py.truthy (Py.strip (Lyric.sub_tags (Py.strip raw)))
                     then Py.strip (Lyric.sub_tags (Py.strip raw))
                     else Lyric.first_display_line rest)
               = Lyric.first_display_line rest).
  { intros E. unfold Lyric.display in E. rewrite E.
    now destruct (negb (Py.truthy (Py.strip raw))). }
  destruct (Lyric.display raw) as [|c d] eqn:E.
  - rewrite Hd by reflexivity.
    destruct IH as [[Hall Hr]|(pre & l & post & -> & Hpre & Hl & Hr)].
    + left. split; [constructor; assumption|exact Hr].
    + right. exists (raw :: pre), l, post.
      repeat split; [constructor; assumption|exact Hl|exact Hr].
  - right. exists [], raw, rest.
    split; [reflexivity|]. split; [constructor|].
    split; [rewrite E; discriminate|].
    destruct (Py.strip raw) as [|a b] eqn:Es.
    { rewrite display_blank in E by exact Es. discriminate. }
    cbn [Py.truthy negb]. unfold Lyric.display in E. rewrite Es in E.
    rewrite E. cbn [Py.truthy]. unfold Lyric.display. now rewrite Es.
Qed.

(** X13.  The first lyric line is trimmed and holds no line boundary. *)
Theorem first_lyric_line_clean (lyric_text : string) :
  Py.strip (Lyric._first_lyric_line lyric_text)
    = Lyric._first_lyric_line lyric_text /\
  Lyric.one_line (Lyric._first_lyric_line lyric_text) = true.
Proof.
  unfold Lyric._first_lyric_line.
  destruct (negb (Py.truthy lyric_text)); [split; reflexivity|].
  pose proof (splitlines_one_line lyric_text) as Hone.
  destruct (first_display_line_spec (Lyric.splitlines lyric_text))
    as [[_ ->]|(pre & l & post & E & _ & _ & ->)]; [split; reflexivity|].
  split; [apply strip_idem|].
  apply display_one_line. rewrite E in Hone.
  apply Forall_app in Hone as [_ Hone]. now inversion Hone.
Qed.

(** X14.  The first lyric line is what the loop makes of the first line
    of which it leaves anything: the line trimmed, its time tags dropped,
    trimmed again.  It is empty when there is no such line. *)
Theorem first_lyric_line_spec (lyric_text : string) :
  (Forall (fun l => Lyric.display l = "") (Lyric.splitlines lyric_text) /\
   Lyric._first_lyric_line lyric_text = "") \/
  exists pre l post,
    Lyric.splitlines lyric_text = (pre ++ l :: post)%list /\
    Forall (fun l => Lyric.display l = "") pre /\
    Lyric.display l <> "" /\
    Lyric._first_lyric_line lyric_text = Lyric.display l.
Proof.
  unfold Lyric._first_lyric_line.
  destruct lyric_text as [|c r]; [left; split; [constructor|reflexivity]|].
  cbn [Py.truthy negb]. apply first_display_line_spec.
Qed.

(** ** Time tags *)

Lemma sub_tags_from_skip (k : nat) (s : string) :
  Lyric.sub_tags_from k s = Lyric.sub_tags (Py.drop k s).
Proof.
  revert k. induction s as [|c r IH]; intros [|k]; try reflexivity.
  cbn [Lyric.sub_tags_from Py.drop]. apply IH.
Qed.

Lemma tag_length_pos (s : string) (n : nat) :
  Lyric.tag_length s = Some n ->
  exists c r m, s = String c r /\ n = S m.
Proof.
  destruct s as [|c r]; [discriminate|].
  intros H. exists c, r, (Nat.pred n). split; [reflexivity|].
  unfold Lyric.tag_length in H.
  repeat match type of H with
         | match ?x with _ => _ end = _ => destruct x; try discriminate
         | (if ?b then _ else _) = _ => destruct b; try discriminate
         end;
  injection H as <-; lia.
Qed.

(** A tag at the head of the string is dropped. *)
Lemma sub_tags_leading (s : string) (n : nat) :
  Lyric.tag_length s = Some n ->
  Lyric.sub_tags s = Lyric.sub_tags (Py.drop n s).
Proof.
  intros H. destruct (tag_length_pos s n H) as (c & r & m & -> & ->).
  unfold Lyric.sub_tags at 1. cbn [Lyric.sub_tags_from]. rewrite H.
  cbn [Nat.pred Py.drop]. apply sub_tags_from_skip.
Qed.

(** Without an opening bracket nothing is dropped. *)
Lemma sub_tags_plain (s : string) :
  Py.contains "[" s = false -> Lyric.sub_tags s = s.
Proof.
  unfold Lyric.sub_tags, Py.contains.
  induction s as [|c r IH]; [reflexivity|].
  cbn [Py.find]. destruct (Ascii.eqb "[" c) eqn:Ec; [discriminate|].
  intros H. cbn [Lyric.sub_tags_from].
  assert (Ht : Lyric.tag_length (String c r) = None).
  { unfold Lyric.tag_length.
    destruct c as [[] [] [] [] [] [] [] []]; try reflexivity.
    discriminate. }
  rewrite Ht. f_equal. apply IH.
  destruct (Py.find "[" r); [discriminate|reflexivity].
Qed.

Lemma splitlines_first_line (line rest : string) :
  Lyric.one_line line = true ->
  Lyric.splitlines (line ++ String "010" rest)
    = line :: Lyric.splitlines rest.
Proof.
  unfold Lyric.one_line.
  induction line as [|c r IH]; intros H.
  - change ("" ++ String "010" rest) with (String "010" rest).
    cbn [Lyric.splitlines].
    change (Lyric.is_linebreak "010") with true. cbn iota.
    destruct rest as [|d r']; [reflexivity|].
    change (Py.ord "010" =? 13)%N with false. reflexivity.
  - cbn [Py.all] in H. apply andb_true_iff in H as [Hc Hr].
    rewrite append_cons. cbn [Lyric.splitlines].
    apply negb_true_iff in Hc. rewrite Hc, (IH Hr). reflexivity.
Qed.

(** X15.  A first line that, once trimmed, starts with a time tag and
    has no other opening bracket is shown as what follows the tag,
    trimmed. *)
Theorem first_lyric_line_timestamped (line rest : string) (n : nat) :
  Lyric.one_line line = true ->
  Lyric.tag_length (Py.strip line) = Some n ->
  Py.contains "[" (Py.drop n (Py.strip line)) = false ->
  Py.strip (Py.drop n (Py.strip line)) <> "" ->
  Lyric._first_lyric_line (line ++ String "010" rest)
    = Py.strip (Py.drop n (Py.strip line)).
Proof.
  intros Hone Htag Hplain Hne.
  unfold Lyric._first_lyric_line.
  assert (Ht : Py.truthy (line ++ String "010" rest) = true)
    by (destruct line; reflexivity).
  rewrite Ht. cbn [negb]. rewrite splitlines_first_line by exact Hone.
  cbn [Lyric.first_display_line].
  destruct (tag_length_pos _ _ Htag) as (c & r & m & Es & ->).
  rewrite Es. cbn [Py.truthy negb]. rewrite <- Es.
  rewrite (sub_tags_leading _ _ Htag), (sub_tags_plain _ Hplain).
  now rewrite (truthy_true _ Hne).
Qed.

(** ** The playlist *)

Section PlayerProps.

Import Player.
Local Open Scope Z_scope.

Lemma getitem_in_range {A} (l : list A) (i : Z) :
  0 <= i < Z.of_nat (List.length l) ->
  getitem l i = nth_error l (Z.to_nat i).
Proof.
  intros H. unfold getitem.
  destruct (Z.ltb_spec i 0); [lia|].
  destruct (Z.leb_spec 0 i); [|lia].
  destruct (Z.ltb_spec i (Z.of_nat (List.length l))); [|lia].
  reflexivity.
Qed.

Lemma getitem_some {A} (l : list A) (i : Z) :
  0 <= i < Z.of_nat (List.length l) -> exists x, getitem l i = Some x /\ In x l.
Proof.
  intros H. rewrite getitem_in_range by exact H.
  destruct (nth_error l (Z.to_nat i)) as [x|] eqn:E.
  - exists x. split; [reflexivity|]. eapply nth_error_In; eauto.
  - apply nth_error_None in E. lia.
Qed.

Lemma getitem_cons {A} (x : A) (l : list A) (i : Z) :
  0 < i <= Z.of_nat (List.length l) ->
  getitem (x :: l) i = getitem l (i - 1).
Proof.
  intros H. rewrite !getitem_in_range by (cbn [List.length]; lia).
  replace (Z.to_nat i) with (S (Z.to_nat (i - 1))) by lia. reflexivity.
Qed.

(** Where the loop breaks: at a song with the id, in range. *)
Lemma first_match_some (x : string) (l : list song) (k i : Z) :
  first_match x (enumerate k l) = Some i ->
  k <= i < k + Z.of_nat (List.length l).
Proof.
  revert k. induction l as [|s r IH]; intros k; [discriminate|].
  cbn [enumerate first_match List.length].
  destruct (String.eqb (id s) x).
  - intros [= <-]. lia.
  - intros H. apply IH in H. lia.
Qed.

Lemma first_match_none (x : string) (l : list song) (k : Z) :
  ~ In x (List.map id l) -> first_match x (enumerate k l) = None.
Proof.
  revert k. induction l as [|s r IH]; intros k H; [reflexivity|].
  cbn [enumerate first_match]. cbn [List.map In] in H.
  destruct (String.eqb_spec (id s) x) as [E|E]; [tauto|].
  apply IH. tauto.
Qed.

(** With distinct ids the loop breaks at the position of the song. *)
Lemma first_match_nodup (l : list song) (k i : Z) (s : song) :
  List.NoDup (List.map id l) ->
  0 <= i < Z.of_nat (List.length l) ->
  getitem l i = Some s ->
  first_match (id s) (enumerate k l) = Some (k + i).
Proof.
  revert k i. induction l as [|t r IH]; intros k i Hnd Hi Hs.
  - cbn [List.length] in Hi. lia.
  - cbn [List.map] in Hnd. inversion Hnd as [|? ? Hnotin Hnd']; subst.
    cbn [enumerate first_match]. cbn [List.length] in Hi.
    destruct (Z.eq_dec i 0) as [->|Hne].
    + rewrite getitem_in_range in Hs by (cbn [List.length]; lia).
      cbn in Hs. injection Hs as <-. rewrite String.eqb_refl.
      f_equal. lia.
    + rewrite getitem_cons in Hs by lia.
      destruct (String.eqb_spec (id t) (id s)) as [E|E].
      * exfalso. apply Hnotin. rewrite E.
        rewrite getitem_in_range in Hs by lia.
        apply nth_error_In in Hs. now apply in_map.
      * rewrite (IH (k + 1) (i - 1) Hnd') by (lia || exact Hs).
        f_equal. lia.
Qed.

Lemma next_index_range (st : state) :
  playlist st <> [] ->
  0 <= next_index st < Z.of_nat (List.length (playlist st)).
Proof.
  intros Hne.
  assert (0 < Z.of_nat (List.length (playlist st)))
    by (destruct (playlist st); [congruence|cbn [List.length]; lia]).
  unfold next_index. destruct (current st) as [cur|]; [|lia].
  destruct (first_match _ _); [|lia].
  apply Z.mod_pos_bound. lia.
Qed.

Lemma prev_index_range (st : state) :
  playlist st <> [] ->
  0 <= prev_index st < Z.of_nat (List.length (playlist st)).
Proof.
  intros Hne.
  assert (0 < Z.of_nat (List.length (playlist st)))
    by (destruct (playlist st); [congruence|cbn [List.length]; lia]).
  unfold prev_index. destruct (current st) as [cur|]; [|lia].
  destruct (first_match _ _); [|lia].
  apply Z.mod_pos_bound. lia.
Qed.

Lemma next_song_eq (st : state) :
  playlist st <> [] ->
  next_song st =
    match getitem (playlist st) (next_index st) with
    | Some s => Some (NextIs (name s) (artist s),
                      mkState (Some (FromPlaylist s)) (playlist st) true
                        (volume st))
    | None => None
    end.
Proof. unfold next_song. destruct (playlist st); [congruence|reflexivity]. Qed.

Lemma previous_song_eq (st : state) :
  playlist st <> [] ->
  previous_song st =
    match getitem (playlist st) (prev_index st) with
    | Some s => Some (PreviousIs (name s) (artist s),
                      mkState (Some (FromPlaylist s)) (playlist st) true
                        (volume st))
    | None => None
    end.
Proof.
  unfold previous_song. destruct (playlist st); [congruence|reflexivity].
Qed.

(** X16.  [next_song] and [previous_song] never index the playlist out
    of range.  On an empty playlist they say so and change nothing; on any
    other they select a song of the playlist, mark it as playing, and leave
    the playlist and the volume alone. *)
Theorem switch_never_fails (st : state) :
  (exists a st',
     next_song st = Some (a, st') /\
     playlist st' = playlist st /\ volume st' = volume st /\
     (playlist st = [] /\ a = NoNext /\ st' = st \/
      exists s, In s (playlist st) /\ a = NextIs (name s) (artist s) /\
                current st' = Some (FromPlaylist s) /\
                is_playing st' = true)) /\
  (exists a st',
     previous_song st = Some (a, st') /\
     playlist st' = playlist st /\ volume st' = volume st /\
     (playlist st = [] /\ a = NoPrevious /\ st' = st \/
      exists s, In s (playlist st) /\ a = PreviousIs (name s) (artist s) /\
                current st' = Some (FromPlaylist s) /\
                is_playing st' = true)).
Proof.
  destruct (playlist st) as [|f r] eqn:E.
  - unfold next_song, previous_song. rewrite E.
    split; eexists _, st; (split; [reflexivity|]); auto 6.
  - assert (Hne : playlist st <> []) by congruence.
    rewrite <- E. split.
    + rewrite (next_song_eq st Hne).
      destruct (getitem_some _ _ (next_index_range st Hne)) as (s & -> & Hin).
      eexists _, _. split; [reflexivity|]. cbn.
      split; [reflexivity|]. split; [reflexivity|]. right. eauto.
    + rewrite (previous_song_eq st Hne).
      destruct (getitem_some _ _ (prev_index_range st Hne)) as (s & -> & Hin).
      eexists _, _. split; [reflexivity|]. cbn.
      split; [reflexivity|]. split; [reflexivity|]. right. eauto.
Qed.

Lemma at_position_match (st : state) (i : Z) :
  List.NoDup (List.map id (playlist st)) ->
  at_position st i ->
  exists cur, current st = Some cur /\
    first_match (playing_id cur) (enumerate 0 (playlist st)) = Some i.
Proof.
  intros Hnd [Hi Hc].
  destruct (getitem_some _ _ Hi) as (s & Hs & _). rewrite Hs in Hc.
  destruct (current st) as [cur|]; [|discriminate].
  cbn in Hc. injection Hc as Hc. exists cur. split; [reflexivity|].
  rewrite Hc. now rewrite (first_match_nodup _ 0 i s Hnd Hi Hs).
Qed.

Lemma next_song_at (st : state) (i : Z) :
  List.NoDup (List.map id (playlist st)) ->
  at_position st i ->
  exists s,
    getitem (playlist st) ((i + 1) mod Z.of_nat (List.length (playlist st)))
      = Some s /\
    next_song st =
      Some (NextIs (name s) (artist s),
            mkState (Some (FromPlaylist s)) (playlist st) true (volume st)).
Proof.
  intros Hnd Hat.
  destruct (at_position_match st i Hnd Hat) as (cur & Hc & Hm).
  destruct Hat as [Hi _].
  assert (Hne : playlist st <> [])
    by (destruct (playlist st); [cbn [List.length] in Hi; lia|congruence]).
  rewrite (next_song_eq st Hne).
  pose proof (next_index_range st Hne) as Hr.
  unfold next_index in *. rewrite Hc, Hm in *.
  destruct (getitem_some _ _ Hr) as (s & Hs & _).
  exists s. now rewrite Hs.
Qed.

Lemma previous_song_at (st : state) (i : Z) :
  List.NoDup (List.map id (playlist st)) ->
  at_position st i ->
  exists s,
    getitem (playlist st) ((i - 1) mod Z.of_nat (List.length (playlist st)))
      = Some s /\
    previous_song st =
      Some (PreviousIs (name s) (artist s),
            mkState (Some (FromPlaylist s)) (playlist st) true (volume st)).
Proof.
  intros Hnd Hat.
  destruct (at_position_match st i Hnd Hat) as (cur & Hc & Hm).
  destruct Hat as [Hi _].
  assert (Hne : playlist st <> [])
    by (destruct (playlist st); [cbn [List.length] in Hi; lia|congruence]).
  rewrite (previous_song_eq st Hne).
  pose proof (prev_index_range st Hne) as Hr.
  unfold prev_index in *. rewrite Hc, Hm in *.
  destruct (getitem_some _ _ Hr) as (s & Hs & _).
  exists s. now rewrite Hs.
Qed.


(** X17.  With distinct ids, from the song at index [i] the next song is
    the one at [i + 1] and the previous one the one at [i - 1], both modulo
    the length: the ends wrap around. *)
Theorem switch_advances (st : state) (i : Z) :
  List.NoDup (List.map id (playlist st)) ->
  at_position st i ->
  (exists s,
     getitem (playlist st) ((i + 1) mod Z.of_nat (List.length (playlist st)))
       = Some s /\
     next_song st =
       Some (NextIs (name s) (artist s),
             mkState (Some (FromPlaylist s)) (playlist st) true (volume st))) /\
  (exists s,
     getitem (playlist st) ((i - 1) mod Z.of_nat (List.length (playlist st)))
       = Some s /\
     previous_song st =
       Some (PreviousIs (name s) (artist s),
             mkState (Some (FromPlaylist s)) (playlist st) true (volume st))).
Proof.
  intros Hnd Hat. split; [now apply next_song_at|now apply previous_song_at].
Qed.

Lemma at_position_moved (st : state) (s : song) (j : Z) :
  0 <= j < Z.of_nat (List.length (playlist st)) ->
  getitem (playlist st) j = Some s ->
  at_position
    (mkState (Some (FromPlaylist s)) (playlist st) true (volume st)) j.
Proof. intros Hj Hs. split; [exact Hj|]. cbn. now rewrite Hs. Qed.

Lemma in_getitem {A} (x : A) (l : list A) :
  In x l ->
  exists i, 0 <= i < Z.of_nat (List.length l) /\ getitem l i = Some x.
Proof.
  intros H. apply In_nth_error in H as [k Hk].
  assert (k < List.length l)%nat by (apply nth_error_Some; congruence).
  exists (Z.of_nat k). split; [lia|].
  rewrite getitem_in_range by lia. now rewrite Nat2Z.id.
Qed.

(** X18.  With distinct ids and a current song of the playlist,
    [next_song] followed by [previous_song] comes back to that song, and so
    does [previous_song] followed by [next_song]. *)
Theorem next_previous_inverse (st : state) (s : song) :
  List.NoDup (List.map id (playlist st)) ->
  In s (playlist st) ->
  current st = Some (FromPlaylist s) ->
  (exists a st1,
     next_song st = Some (a, st1) /\
     previous_song st1 =
       Some (PreviousIs (name s) (artist s),
             mkState (Some (FromPlaylist s)) (playlist st) true (volume st))) /\
  (exists a st1,
     previous_song st = Some (a, st1) /\
     next_song st1 =
       Some (NextIs (name s) (artist s),
             mkState (Some (FromPlaylist s)) (playlist st) true (volume st))).
Proof.
  intros Hnd Hin Hcur.
  destruct (in_getitem s _ Hin) as (i & Hi & Hs).
  assert (Hat : at_position st i).
  { split; [exact Hi|]. now rewrite Hcur, Hs. }
  set (n := Z.of_nat (List.length (playlist st))) in *.
  split.
  - destruct (next_song_at st i Hnd Hat) as (s1 & Hs1 & ->).
    eexists _, _. split; [reflexivity|].
    assert (Hj : 0 <= (i + 1) mod n < n) by (apply Z.mod_pos_bound; lia).
    destruct (previous_song_at
                (mkState (Some (FromPlaylist s1)) (playlist st) true (volume st))
                _ Hnd (at_position_moved st s1 _ Hj Hs1))
      as (s2 & Hs2 & ->).
    cbn [playlist volume] in *. fold n in Hs2.
    rewrite Zminus_mod_idemp_l in Hs2.
    replace (i + 1 - 1) with i in Hs2 by lia.
    rewrite Z.mod_small in Hs2 by lia. congruence.
  - destruct (previous_song_at st i Hnd Hat) as (s1 & Hs1 & ->).
    eexists _, _. split; [reflexivity|].
    assert (Hj : 0 <= (i - 1) mod n < n) by (apply Z.mod_pos_bound; lia).
    destruct (next_song_at
                (mkState (Some (FromPlaylist s1)) (playlist st) true (volume st))
                _ Hnd (at_position_moved st s1 _ Hj Hs1))
      as (s2 & Hs2 & ->).
    cbn [playlist volume] in *. fold n in Hs2.
    rewrite Zplus_mod_idemp_l in Hs2.
    replace (i - 1 + 1) with i in Hs2 by lia.
    rewrite Z.mod_small in Hs2 by lia. congruence.
Qed.

(** X19.  With distinct ids, [k] calls of [next_song] from index [i] end
    at index [i + k] modulo the length: as many calls as the playlist has
    songs come back to the start, and every song is reached. *)
Theorem next_songs_position (k : nat) (st : state) (i : Z) :
  List.NoDup (List.map id (playlist st)) ->
  at_position st i ->
  exists st',
    next_songs k st = Some st' /\
    playlist st' = playlist st /\ volume st' = volume st /\
    at_position st'
      ((i + Z.of_nat k) mod Z.of_nat (List.length (playlist st))).
Proof.
  revert st i. induction k as [|k IH]; intros st i Hnd Hat.
  - exists st. split; [reflexivity|]. split; [reflexivity|].
    split; [reflexivity|].
    destruct Hat as [Hi Hc]. rewrite Z.add_0_r, Z.mod_small by lia.
    now split.
  - destruct (next_song_at st i Hnd Hat) as (s1 & Hs1 & Hn).
    destruct Hat as [Hi _].
    set (n := Z.of_nat (List.length (playlist st))) in *.
    assert (Hj : 0 <= (i + 1) mod n < n) by (apply Z.mod_pos_bound; lia).
    destruct (IH (mkState (Some (FromPlaylist s1)) (playlist st) true (volume st))
                _ Hnd (at_position_moved st s1 _ Hj Hs1))
      as (st' & Hk & Hp & Hv & Hat').
    cbn [playlist volume] in *. fold n in Hat'.
    exists st'. cbn [next_songs]. rewrite Hn.
    split; [exact Hk|]. split; [exact Hp|]. split; [exact Hv|].
    rewrite Zplus_mod_idemp_l in Hat'.
    now replace (i + Z.of_nat (S k)) with (i + 1 + Z.of_nat k) by lia.
Qed.

Lemma getitem_last {A} (l : list A) (d : A) :
  l <> [] ->
  getitem l (Z.of_nat (List.length l) - 1) = Some (List.last l d).
Proof.
  intros Hne.
  assert (0 < List.length l)%nat
    by (destruct l; [congruence|cbn [List.length]; lia]).
  rewrite getitem_in_range by lia.
  replace (Z.to_nat (Z.of_nat (List.length l) - 1))
    with (Nat.pred (List.length l)) by lia.
  clear H. induction l as [|x r IH]; [congruence|].
  destruct r as [|y r']; [reflexivity|].
  cbn [List.length Nat.pred nth_error].
  change (List.last (x :: y :: r') d) with (List.last (y :: r') d).
  rewrite <- IH by congruence. reflexivity.
Qed.

(** X20.  When nothing is playing (at the start, after [stop_music]), or
    when the id of the current song is not in the playlist (a song that
    [resolve_music_url] set), [next_song] selects the first song and
    [previous_song] the last. *)
Theorem switch_without_position (st : state) (first : song)
  (rest : list song) :
  playlist st = first :: rest ->
  (forall cur, current st = Some cur ->
     ~ In (playing_id cur) (List.map id (playlist st))) ->
  next_song st =
    Some (NextIs (name first) (artist first),
          mkState (Some (FromPlaylist first)) (playlist st) true (volume st)) /\
  previous_song st =
    Some (PreviousIs (name (List.last (playlist st) first))
            (artist (List.last (playlist st) first)),
          mkState (Some (FromPlaylist (List.last (playlist st) first)))
            (playlist st) true (volume st)).
Proof.
  intros E Hcur.
  assert (Hne : playlist st <> []) by congruence.
  assert (Hn : next_index st = 0).
  { unfold next_index. destruct (current st) as [cur|]; [|reflexivity].
    now rewrite first_match_none by (now apply Hcur). }
  assert (Hp : prev_index st = Z.of_nat (List.length (playlist st)) - 1).
  { unfold prev_index. destruct (current st) as [cur|]; [|reflexivity].
    now rewrite first_match_none by (now apply Hcur). }
  rewrite (next_song_eq st Hne), (previous_song_eq st Hne), Hn, Hp.
  rewrite (getitem_last _ first Hne).
  rewrite E at 1. split; reflexivity.
Qed.

Lemma enumerate_nth {A} (k : Z) (l : list A) (j : nat) (x : A) :
  nth_error l j = Some x ->
  nth_error (enumerate k l) j = Some (k + Z.of_nat j, x).
Proof.
  revert k j. induction l as [|y r IH]; intros k [|j] H; try discriminate.
  - cbn in *. injection H as ->. now rewrite Z.add_0_r.
  - cbn [enumerate nth_error] in *. rewrite (IH _ _ H). do 2 f_equal. lia.
Qed.

Lemma enumerate_length {A} (k : Z) (l : list A) :
  List.length (enumerate k l) = List.length l.
Proof.
  revert k. induction l as [|y r IH]; intros k; [reflexivity|].
  cbn [enumerate List.length]. now rewrite IH.
Qed.

(** X21.  [add_to_playlist] appends: it reports the new length, and
    [get_playlist] then lists the songs that were there under their
    numbers, from one on, and the new song last, under that length. *)
Theorem added_song_is_listed (song_id song_name artist' url' : string)
  (st : state) :
  exists rows,
    fst (add_to_playlist song_id song_name artist' url' st)
      = Added song_name artist' (S (List.length (playlist st))) /\
    get_playlist (snd (add_to_playlist song_id song_name artist' url' st))
      = (Listing rows,
         snd (add_to_playlist song_id song_name artist' url' st)) /\
    List.length rows = S (List.length (playlist st)) /\
    nth_error rows (List.length (playlist st))
      = Some (Z.of_nat (S (List.length (playlist st))), song_name, artist') /\
    forall k s, nth_error (playlist st) k = Some s ->
      nth_error rows k = Some (Z.of_nat (S k), name s, artist s).
Proof.
  unfold add_to_playlist, get_playlist. cbn [fst snd playlist].
  exists (List.map (fun '(i, s) => (i, name s, artist s))
            (enumerate 1
               (playlist st ++ [mkSong song_id song_name artist' url']))).
  split.
  { f_equal. rewrite List.length_app. cbn [List.length]. lia. }
  split.
  { destruct (playlist st ++ [_])%list eqn:E; [|reflexivity].
    now apply app_eq_nil in E as [_ E]. }
  split.
  { rewrite List.length_map, enumerate_length, List.length_app.
    cbn [List.length]. lia. }
  split.
  - rewrite nth_error_map.
    rewrite (enumerate_nth 1 _ _ (mkSong song_id song_name artist' url')).
    + cbn. do 3 f_equal. lia.
    + rewrite nth_error_app2 by lia. now rewrite Nat.sub_diag.
  - intros k s Hk. rewrite nth_error_map.
    rewrite (enumerate_nth 1 _ _ s).
    + cbn. do 3 f_equal. lia.
    + rewrite nth_error_app1; [exact Hk|].
      apply nth_error_Some. congruence.
Qed.


Lemma first_match_id (x : string) (l : list song) (k p : Z) :
  first_match x (enumerate k l) = Some p ->
  exists s, getitem l (p - k) = Some s /\ id s = x.
Proof.
  revert k. induction l as [|t r IH]; intros k; [discriminate|].
  cbn [enumerate first_match].
  destruct (String.eqb_spec (id t) x) as [E|E].
  - intros [= <-]. exists t. split; [|exact E].
    rewrite Z.sub_diag. reflexivity.
  - intros H. pose proof (first_match_some _ _ _ _ H) as Hr.
    destruct (IH _ H) as (s & Hs & Hid). exists s. split; [|exact Hid].
    rewrite getitem_cons by lia.
    now replace (p - k - 1) with (p - (k + 1)) by lia.
Qed.

Lemma first_match_le (l : list song) (k q : Z) (s : song) :
  0 <= q < Z.of_nat (List.length l) ->
  getitem l q = Some s ->
  exists p, first_match (id s) (enumerate k l) = Some p /\ k <= p <= k + q.
Proof.
  revert k q. induction l as [|t r IH]; intros k q Hq Hs.
  - cbn [List.length] in Hq. lia.
  - cbn [enumerate first_match]. cbn [List.length] in Hq.
    destruct (String.eqb (id t) (id s)) eqn:E.
    + exists k. split; [reflexivity|lia].
    + destruct (Z.eq_dec q 0) as [->|Hne].
      * rewrite getitem_in_range in Hs by (cbn [List.length]; lia).
        cbn in Hs. injection Hs as <-. now rewrite String.eqb_refl in E.
      * rewrite getitem_cons in Hs by lia.
        destruct (IH (k + 1) (q - 1)) as (p & Hp & Hr); [lia|exact Hs|].
        exists p. split; [exact Hp|lia].
Qed.

Lemma next_song_within (st : state) (i j : Z) (si sj : song) :
  0 <= i < j -> j < Z.of_nat (List.length (playlist st)) ->
  getitem (playlist st) i = Some si ->
  getitem (playlist st) j = Some sj ->
  id si = id sj ->
  within st j ->
  exists q s,
    0 <= q <= j /\ getitem (playlist st) q = Some s /\
    next_song st =
      Some (NextIs (name s) (artist s),
            mkState (Some (FromPlaylist s)) (playlist st) true (volume st)).
Proof.
  intros Hij Hj Hsi Hsj Hid Hw.
  assert (Hne : playlist st <> [])
    by (destruct (playlist st); [cbn [List.length] in Hj; lia|congruence]).
  rewrite (next_song_eq st Hne).
  assert (Hn : 0 <= next_index st <= j).
  { unfold next_index. destruct (current st) as [cur|] eqn:Ec; [|lia].
    destruct (first_match _ _) as [p|] eqn:Ep; [|lia].
    destruct Hw as [Hw|(cur' & q & s & Hc & Hq & Hs & Hids)]; [congruence|].
    assert (cur' = cur) as -> by congruence.
    destruct (first_match_le (playlist st) 0 q s) as (p' & Hp' & Hr);
      [lia|exact Hs|].
    rewrite Hids, Ep in Hp'. injection Hp' as <-.
    assert (p <> j).
    { intros ->. destruct (first_match_id _ _ _ _ Ep) as (s' & Hs' & Hid').
      rewrite Z.sub_0_r, Hsj in Hs'. injection Hs' as <-.
      destruct (first_match_le (playlist st) 0 i si) as (p' & Hp' & Hr');
        [lia|exact Hsi|].
      rewrite Hid, Hid', Ep in Hp'. injection Hp' as <-. lia. }
    rewrite Z.mod_small by lia. lia. }
  destruct (getitem_some (playlist st) (next_index st)) as (s & Hs & _);
    [lia|].
  exists (next_index st), s. rewrite Hs. repeat split; lia || assumption.
Qed.

(** X29.  [clear_playlist] empties the playlist and nothing else: the
    current song and the playing flag stay.  After it [get_playlist]
    reports an empty playlist, and [next_song] and [previous_song] refuse
    and change nothing. *)
Theorem clear_playlist_keeps_current (st : state) :
  fst (clear_playlist st) = Cleared /\
  current (snd (clear_playlist st)) = current st /\
  is_playing (snd (clear_playlist st)) = is_playing st /\
  get_playlist (snd (clear_playlist st))
    = (PlaylistEmpty, snd (clear_playlist st)) /\
  next_song (snd (clear_playlist st))
    = Some (NoNext, snd (clear_playlist st)) /\
  previous_song (snd (clear_playlist st))
    = Some (NoPrevious, snd (clear_playlist st)).
Proof. repeat split. Qed.

(** X22.  A playlist that holds an id twice, at [i] and later at [j]:
    from the later copy [next_song] goes on behind the earlier one.  So,
    starting with nothing playing or with a song up to [j], no number of
    calls of [next_song] selects an index beyond [j]. *)
Theorem duplicate_id_blocks_next (k : nat) (st st' : state) (i j : Z)
  (si sj : song) :
  0 <= i < j -> j < Z.of_nat (List.length (playlist st)) ->
  getitem (playlist st) i = Some si ->
  getitem (playlist st) j = Some sj ->
  id si = id sj ->
  (current st = None \/
   exists cur q s, current st = Some cur /\ 0 <= q <= j /\
     getitem (playlist st) q = Some s /\ id s = playing_id cur) ->
  next_songs (S k) st = Some st' ->
  exists q s,
    0 <= q <= j /\ getitem (playlist st) q = Some s /\
    st' = mkState (Some (FromPlaylist s)) (playlist st) true (volume st).
Proof.
  revert st. induction k as [|k IH]; intros st Hij Hj Hsi Hsj Hid Hw Hrun.
  - destruct (next_song_within st i j si sj Hij Hj Hsi Hsj Hid Hw)
      as (q & s & Hq & Hs & Hn).
    cbn [next_songs] in Hrun. rewrite Hn in Hrun. injection Hrun as <-.
    eauto.
  - destruct (next_song_within st i j si sj Hij Hj Hsi Hsj Hid Hw)
      as (q & s & Hq & Hs & Hn).
    change (next_songs (S (S k)) st)
      with (match next_song st with
            | Some (_, st1) => next_songs (S k) st1
            | None => None
            end) in Hrun.
    rewrite Hn in Hrun.
    apply IH in Hrun; cbn [playlist volume current] in *; try assumption.
    right. exists (FromPlaylist s), q, s. auto.
Qed.

End PlayerProps.

(** ** Normalising twice *)

Section NormalizeTwice.

Variable chk : string -> bool.
Variable cfg : Config.
Local Abbreviation normalize := (_normalize_music_url chk cfg).

Lemma rstrip_by_append (p : ascii -> bool) (a s : string) :
  Py.rstrip_by p s = s -> s <> "" -> Py.rstrip_by p (a ++ s) = a ++ s.
Proof.
  intros Hs Hne. induction a as [|c a IH]; [exact Hs|].
  rewrite append_cons. cbn [Py.rstrip_by]. rewrite IH.
  destruct (a ++ s) eqn:E; [|reflexivity].
  destruct a; [destruct (Hne E)|rewrite append_cons in E; discriminate].
Qed.

Lemma strip_https (s : string) :
  Py.strip s <> "" -> Py.strip ("https:" ++ Py.strip s) = "https:" ++ Py.strip s.
Proof.
  intros Hne. unfold Py.strip at 1, Py.strip_by.
  change (Py.lstrip_by Py.isspace ("https:" ++ Py.strip s))
    with ("https:" ++ Py.strip s).
  apply rstrip_by_append; [apply rstrip_by_idem|exact Hne].
Qed.

Lemma remove_unsafe_slashes (s : string) :
  Py.startswith "//" s = true ->
  Urllib.clean_url s = Urllib.remove_unsafe s /\
  Py.startswith "//" (Urllib.remove_unsafe s) = true.
Proof.
  destruct s as [|a [|b r]]; cbn [Py.startswith]; try discriminate.
  - rewrite andb_false_r. discriminate.
  - intros H. apply andb_true_iff in H as [Ha H].
    apply andb_true_iff in H as [Hb _].
    apply Ascii.eqb_eq in Ha, Hb. subst a b. split; reflexivity.
Qed.

(** A protocol-relative text that parses still parses behind [https:],
    and then carries that scheme. *)
Lemma urlparse_https (s : string) (p : Urllib.ParseResult) :
  Py.startswith "//" s = true ->
  Urllib.urlparse chk s "" = Ok p ->
  exists p', Urllib.urlparse chk ("https:" ++ s) "" = Ok p' /\
             Urllib.scheme p' = "https".
Proof.
  intros Hs Hp.
  destruct (remove_unsafe_slashes s Hs) as [Hc Hx].
  assert (Hc' : Urllib.clean_url ("https:" ++ s)
                = "https:" ++ Urllib.remove_unsafe s) by reflexivity.
  assert (Ho : Urllib.own_scheme ("https:" ++ Urllib.remove_unsafe s)
               = Some ("https", Urllib.remove_unsafe s)) by reflexivity.
  assert (Ho' : Urllib.own_scheme (Urllib.remove_unsafe s) = None).
  { destruct (Urllib.remove_unsafe s) as [|a r]; [discriminate|].
    cbn [Py.startswith] in Hx. apply andb_true_iff in Hx as [Ha _].
    apply Ascii.eqb_eq in Ha. subst a. apply own_scheme_slash. }
  unfold Urllib.urlparse, Urllib.urlsplit in *.
  rewrite Hc' , Ho. rewrite Hc, Ho' in Hp. rewrite Hx in *.
  destruct (Urllib.splitnetloc2 (Urllib.remove_unsafe s)) as [nl rest].
  destruct (Urllib.check_netloc_brackets chk nl); [|discriminate].
  cbn [rbind] in *.
  repeat match goal with
  | |- context [let (_, _) := ?x in _] => destruct x
  end.
  cbn [rbind Urllib.s_scheme].
  repeat match goal with
  | |- context [let (_, _) := ?x in _] => destruct x
  end.
  eexists. split; reflexivity.
Qed.

(** X24.  Normalising twice.  The result of normalising a blank input,
    an http(s) URL or a protocol-relative reference is left unchanged when
    it is normalised again, as [_resolve_final_url] does with the URL that
    [resolve_music_url] normalised. *)
Theorem normalize_absolute_twice (u r : string) :
  _normalize_music_url chk cfg u = Ok r ->
  is_http (Urllib.scheme_of (Py.strip u)) = true \/
  Py.startswith "//" (Py.strip u) = true \/
  Py.strip u = "" ->
  _normalize_music_url chk cfg r = Ok r.
Proof.
  intros H Hcase. unfold _normalize_music_url in H.
  destruct (Py.strip u) as [|c s] eqn:E.
  { cbn in H. injection H as <-. reflexivity. }
  cbn [Py.truthy negb] in H.
  destruct (Urllib.urlparse chk (String c s) "") as [p|] eqn:Hp;
    cbn [rbind] in H; [|discriminate].
  pose proof (urlparse_scheme_of _ _ _ Hp) as Hsch.
  destruct (Py.mem (Urllib.scheme p) ["http"; "https"]) eqn:Hm.
  - injection H as <-. rewrite <- E.
    assert (Hi : Py.strip (Py.strip u) = Py.strip u) by apply strip_idem.
    rewrite <- Hi at 2.
    apply (normalize_http chk cfg (Py.strip u) p); [|exact Hm].
    rewrite Hi, E. exact Hp.
  - destruct Hcase as [Hc|[Hc|Hc]].
    + rewrite <- Hsch in Hc. unfold is_http in Hc. congruence.
    + rewrite Hc in H. injection H as <-.
      destruct (urlparse_https _ _ Hc Hp) as (p' & Hp' & Hs').
      rewrite <- E in *.
      assert (Hst : Py.strip ("https:" ++ Py.strip u) = "https:" ++ Py.strip u)
        by (apply strip_https; rewrite E; discriminate).
      rewrite <- Hst at 2.
      apply (normalize_http chk cfg _ p'); [now rewrite Hst|].
      now rewrite Hs'.
    + discriminate.
Qed.

End NormalizeTwice.

(** ** The shape of a signature *)

Section SignatureShape.

Local Open Scope Z_scope.

Lemma be_bytes_length (n : nat) (x : Z) :
  List.length (Sha1.be_bytes n x) = n.
Proof.
  revert x. induction n as [|n IH]; intros x; [reflexivity|].
  cbn [Sha1.be_bytes]. rewrite List.length_app, IH. cbn [List.length]. lia.
Qed.

Lemma be_bytes_range (n : nat) (x : Z) :
  Forall (fun b => 0 <= b < 256) (Sha1.be_bytes n x).
Proof.
  revert x. induction n as [|n IH]; intros x; [constructor|].
  cbn [Sha1.be_bytes]. apply Forall_app. split; [apply IH|].
  constructor; [|constructor]. apply Z.mod_pos_bound. lia.
Qed.

Lemma digest_length (msg : list Z) : List.length (Sha1.digest msg) = 20%nat.
Proof.
  unfold Sha1.digest. cbv zeta.
  rewrite !List.length_app, !be_bytes_length. reflexivity.
Qed.

Lemma digest_range (msg : list Z) :
  Forall (fun b => 0 <= b < 256) (Sha1.digest msg).
Proof.
  unfold Sha1.digest. cbv zeta.
  do 4 (apply Forall_app; split; [apply be_bytes_range|]).
  apply be_bytes_range.
Qed.

Lemma hex_digit_lower (x : Z) :
  0 <= x < 16 ->
  is_lower_hex (Sha1.hex_digit x) = true /\
  Urlencode.always_safe (Sha1.hex_digit x) = true.
Proof.
  intros H.
  assert (x = 0 \/ x = 1 \/ x = 2 \/ x = 3 \/ x = 4 \/ x = 5 \/ x = 6 \/
          x = 7 \/ x = 8 \/ x = 9 \/ x = 10 \/ x = 11 \/ x = 12 \/
          x = 13 \/ x = 14 \/ x = 15) as Hx by lia.
  repeat destruct Hx as [->|Hx]; try subst x; split; reflexivity.
Qed.

Lemma hex_shape (bs : list Z) :
  Forall (fun b => 0 <= b < 256) bs ->
  String.length (Sha1.hex bs) = (2 * List.length bs)%nat /\
  Py.all is_lower_hex (Sha1.hex bs) = true /\
  Urlencode.quote_plus (Sha1.hex bs) = Sha1.hex bs.
Proof.
  induction 1 as [|b r Hb Hr IH]; [repeat split|].
  destruct IH as (Hl & Ha & Hq).
  assert (H1 : 0 <= b / 16 < 16)
    by (split; [apply Z.div_pos; lia|apply Z.div_lt_upper_bound; lia]).
  assert (H2 : 0 <= b mod 16 < 16) by (apply Z.mod_pos_bound; lia).
  destruct (hex_digit_lower _ H1) as [L1 S1].
  destruct (hex_digit_lower _ H2) as [L2 S2].
  cbn [Sha1.hex String.length List.length Py.all Urlencode.quote_plus].
  rewrite L1, L2, S1, S2, Ha, Hq, Hl.
  split; [lia|]. split; reflexivity.
Qed.

Lemma hexdigest_shape (key payload : string) :
  String.length (hmac_sha1_hexdigest key payload) = 40%nat /\
  Py.all is_lower_hex (hmac_sha1_hexdigest key payload) = true /\
  Urlencode.quote_plus (hmac_sha1_hexdigest key payload)
    = hmac_sha1_hexdigest key payload.
Proof.
  unfold hmac_sha1_hexdigest, Sha1.hmac. cbv zeta.
  match goal with
  | |- context [Sha1.hex (Sha1.digest ?m)] =>
      destruct (hex_shape (Sha1.digest m) (digest_range m)) as (Hl & Ha & Hq);
      rewrite digest_length in Hl
  end.
  auto.
Qed.

Variable cfg : Config.

(** X25.  A signed parameter map carries, under the configured name, a
    signature of forty characters among [0-9a-f], which the URL encoding
    leaves as it is. *)
Theorem signature_shape (server req_type req_id : string)
  (params : params_dict) :
  _build_music_params cfg server req_type req_id = Ok params ->
  Py.mem req_type MUSIC_SIGN_REQUIRED_TYPES = true ->
  exists signature,
    dict_get params (MUSIC_SIGN_PARAM cfg) = Some signature /\
    String.length signature = 40%nat /\
    Py.all is_lower_hex signature = true /\
    Urlencode.quote_plus signature = signature.
Proof.
  intros H Hm.
  destruct (MUSIC_API_TOKEN cfg) as [|c t] eqn:Et.
  { unfold _build_music_params in H. rewrite Hm, Et in H. discriminate. }
  apply sign_required_spec in Hm.
  rewrite build_music_params_signed in H by (rewrite ?Et; auto; discriminate).
  assert (Hp : params =
               dict_set [("server", server); ("type", req_type); ("id", req_id)]
                 (MUSIC_SIGN_PARAM cfg)
                 (hmac_sha1_hexdigest (MUSIC_API_TOKEN cfg)
                    (server ++ req_type ++ req_id))) by congruence.
  rewrite Hp. clear H Hp.
  exists (hmac_sha1_hexdigest (MUSIC_API_TOKEN cfg)
            (server ++ req_type ++ req_id)).
  split; [|apply hexdigest_shape].
  cbn [dict_set dict_get].
  repeat match goal with
         | |- context [String.eqb ?a ?b] =>
             destruct (String.eqb_spec a b); cbn [dict_set dict_get]
         end; try congruence; reflexivity.
Qed.

End SignatureShape.

(** ** What a resolve call leaves in the playback state *)

Section PlaybackProps.

Variable chk : string -> bool.
Variable cfg : Config.
Variable http : request -> result response.
Variable json_loads : string -> result json.
Variable py_repr : json -> string.

Local Abbreviation resolve :=
  (resolve_music_url chk cfg http json_loads py_repr).

Lemma bind_cases {A B} (m : M A) (k : A -> M B) g r g' :
  bind m k g = (r, g') ->
  (exists a g1, m g = (Ok a, g1) /\ k a g1 = (r, g')) \/
  (exists e, m g = (Raise e, g') /\ r = Raise e).
Proof.
  unfold bind. destruct (m g) as [[a|e] g1].
  - intros H. left. eauto.
  - intros [= <- <-]. right. eauto.
Qed.

Lemma indep_fetch_song_url song_id :
  indep (_fetch_song_url cfg http py_repr song_id).
Proof.
  unfold _fetch_song_url.
  repeat first
    [ apply indep_ret | apply indep_lift | apply indep_send
    | apply indep_bind; [|intros ?]
    | apply indep_try; [|intros ?]
    | apply indep_if
    | match goal with
      | |- indep (match ?x with _ => _ end) => destruct x
      end ].
Qed.

Lemma progress_returns ctx n g :
  exists g1, report_progress ctx n g = (Ok tt, g1).
Proof. destruct ctx; eexists; reflexivity. Qed.

Ltac keeps_tac :=
  unfold _fetch_song_url, _resolve_final_url, _fetch_song_lyric, send,
    report_progress;
  repeat first
    [ apply preserves_ret | apply preserves_lift
    | apply preserves_emit; intros ? Hkeep; exact Hkeep
    | apply preserves_bind; [|intros ?]
    | apply preserves_try; [|intros ?]
    | match goal with
      | |- preserves _ (if ?b then _ else _) => destruct b
      | |- preserves _ (match ?x with _ => _ end) => destruct x
      end ].

(** The playback state after a step that does not write it. *)
Ltac kept H E :=
  match type of H with
  | ?m ?g = (_, ?g1) =>
      assert (E : playback_state g1 = playback_state g)
        by (refine ((_ : preserves
                           (fun x => playback_state x = playback_state g) m)
                      _ _ _ eq_refl H);
            keeps_tac)
  end.

(** X26.  What a resolve call leaves in the playback state.  A resolved
    song is recorded as the current one, not playing, with the name and
    artist of the call, the final URL and the lyric URL of the reply, and
    the source URL: the URL that the play-URL lookup returned when the
    call's URL normalises to nothing and a song id is known, the normalised
    URL of the call otherwise.  Its id is the song id, or that source URL
    when there is none.  A call that ends with one of the two messages or
    raises leaves the playback state as it was. *)
Theorem resolve_playback
  id song_id song_name artist url lrc lyric ctx g r g' :
  resolve_music_url chk cfg http json_loads py_repr
    id song_id song_name artist url lrc lyric ctx g = (r, g') ->
  match r with
  | Ok (Resolved res) =>
      exists n source_url,
        _normalize_music_url chk cfg url = Ok n /\
        (if negb (Py.truthy n) && opt_truthy (opt_or song_id id)
         then fst (_fetch_song_url cfg http py_repr
                     (opt_str (opt_or song_id id)) g) = Ok source_url
         else source_url = n) /\
        playback_state g' =
          mkPlayback
            (Some (mkCurrent
                     (if opt_truthy (opt_or song_id id)
                      then opt_str (opt_or song_id id) else source_url)
                     song_name artist (r_final_url res) source_url
                     (r_lyric_url res)))
            false
  | _ => playback_state g' = playback_state g
  end.
Proof.
  intros H. unfold resolve_music_url in H.
  set (rid := opt_or song_id id) in *.
  destruct (negb (opt_truthy rid) && negb (Py.truthy url)).
  { unfold ret in H. injection H as <- <-. reflexivity. }
  apply bind_cases in H as [(u0 & s1 & H0 & H)|(e & H0 & ->)];
    kept H0 E0; [|exact E0].
  apply bind_cases in H as [(source & s2 & H1 & H)|(e & H1 & ->)];
    kept H1 E1; [|congruence].
  apply bind_cases in H as [(looked & s3 & H2 & H)|(e & H2 & ->)].
  2:{ assert (playback_state g' = playback_state s2); [|congruence].
      destruct (negb (Py.truthy source) && opt_truthy rid).
      - apply bind_cases in H2 as [(u & t1 & Ha & H2)|(e' & Ha & _)];
          kept Ha Ea; [|exact Ea].
        apply bind_cases in H2 as [(v & t2 & Hb & H2)|(e' & Hb & _)];
          kept Hb Eb; [|congruence].
        destruct (negb (Py.truthy v)); discriminate.
      - discriminate. }
  assert (E2 : playback_state s3 = playback_state s2 /\
               forall su, looked = Some su ->
                 if negb (Py.truthy source) && opt_truthy rid
                 then fst (_fetch_song_url cfg http py_repr (opt_str rid) g)
                      = Ok su
                 else su = source).
  { destruct (negb (Py.truthy source) && opt_truthy rid).
    - apply bind_cases in H2 as [(u & t1 & Ha & H2)|(e' & Ha & [=])];
        kept Ha Ea.
      apply bind_cases in H2 as [(v & t2 & Hb & H2)|(e' & Hb & [=])];
        kept Hb Eb.
      assert (Hv : fst (_fetch_song_url cfg http py_repr (opt_str rid) g)
                   = Ok v).
      { rewrite (indep_fetch_song_url (opt_str rid) g t1), Hb. reflexivity. }
      destruct (negb (Py.truthy v)); unfold ret in H2;
        injection H2 as <- <-; (split; [congruence|]).
      + intros su [=].
      + intros su [= <-]. exact Hv.
    - unfold ret in H2. injection H2 as <- <-. split; [reflexivity|].
      intros su [= <-]. reflexivity. }
  destruct E2 as [E2 Hsu].
  assert (Hn : _normalize_music_url chk cfg url = Ok source)
    by (unfold lift in H1; congruence).
  destruct looked as [source_url|].
  2:{ unfold ret in H. injection H as <- <-. congruence. }
  apply bind_cases in H as [(u1 & s4 & H3 & H)|(e & H3 & ->)];
    kept H3 E3; [|congruence].
  apply bind_cases in H as [(final & s5 & H4 & H)|(e & H4 & ->)];
    kept H4 E4; [|congruence].
  apply bind_cases in H as [(cache & s6 & H5 & H)|(e & H5 & ->)];
    [|discriminate].
  unfold get_cache in H5. injection H5 as _ <-.
  apply bind_cases in H as [(lyric_url & s7 & H6 & H)|(e & H6 & ->)].
  2:{ unfold lift in H6. injection H6 as _ <-. congruence. }
  unfold lift in H6. injection H6 as _ <-.
  apply bind_cases in H as [(lyric_text & s8 & H7 & H)|(e & H7 & ->)].
  2:{ assert (playback_state g' = playback_state s5); [|congruence].
      destruct (negb (Py.truthy lyric_url) && opt_truthy rid);
        [|discriminate].
      apply bind_cases in H7 as [(u & t1 & Ha & H7)|(e' & Ha & _)];
        kept Ha Ea; [|exact Ea].
      kept H7 Eb. congruence. }
  apply bind_cases in H as [(u2 & s9 & H8 & H)|(e & H8 & ->)];
    [|destruct ctx; discriminate].
  apply bind_cases in H as [(u3 & s10 & H9 & H)|(e & H9 & ->)];
    [|discriminate].
  unfold set_playback in H9. injection H9 as _ <-.
  apply bind_cases in H as [(u4 & s11 & H10 & H)|(e & H10 & ->)];
    [|destruct ctx; discriminate].
  kept H10 E10. unfold ret in H. injection H as <- <-.
  exists source, source_url. split; [exact Hn|].
  split; [exact (Hsu source_url eq_refl)|]. rewrite E10. reflexivity.
Qed.


(** Only a bracketed host makes the parsers raise, and then a
    ValueError. *)
Lemma urlsplit_raises s d e :
  Urllib.urlsplit chk s d = Raise e -> e = ValueError.
Proof.
  unfold Urllib.urlsplit, Urllib.check_netloc_brackets.
  repeat first
    [ progress cbn [rbind]
    | match goal with
      | |- context [let (_, _) := ?x in _] => destruct x
      | |- context [if ?b then _ else _] => destruct b
      | |- context [match ?x with _ => _ end] => destruct x
      end ];
  intros H; congruence.
Qed.

Lemma urlparse_raises s d e :
  Urllib.urlparse chk s d = Raise e -> e = ValueError.
Proof.
  unfold Urllib.urlparse.
  destruct (Urllib.urlsplit chk s d) as [r|e'] eqn:E; cbn [rbind].
  - repeat match goal with
           | |- context [let (_, _) := ?x in _] => destruct x
           end.
    discriminate.
  - intros [= <-]. eapply urlsplit_raises; eassumption.
Qed.

Lemma urljoin_raises b u e :
  Urllib.urljoin chk b u = Raise e -> e = ValueError.
Proof.
  unfold Urllib.urljoin.
  destruct (negb (Py.truthy b)); [discriminate|].
  destruct (negb (Py.truthy u)); [discriminate|].
  destruct (Urllib.urlparse chk b "") as [pb|e1] eqn:E1; cbn [rbind].
  2:{ intros [= <-]. eapply urlparse_raises; eassumption. }
  destruct (Urllib.urlparse chk u (Urllib.scheme pb)) as [pu|e2] eqn:E2;
    cbn [rbind].
  2:{ intros [= <-]. eapply urlparse_raises; eassumption. }
  repeat match goal with
         | |- context [if ?c then _ else _] => destruct c
         end; discriminate.
Qed.

Lemma normalize_raises u e :
  _normalize_music_url chk cfg u = Raise e -> e = ValueError.
Proof.
  unfold _normalize_music_url.
  destruct (negb (Py.truthy (Py.strip u))); [discriminate|].
  destruct (Urllib.urlparse chk (Py.strip u) "") as [p|e1] eqn:E1;
    cbn [rbind].
  2:{ intros [= <-]. eapply urlparse_raises; eassumption. }
  destruct (Py.mem (Urllib.scheme p) ["http"; "https"]); [discriminate|].
  destruct (Py.startswith "//" (Py.strip u)); [discriminate|].
  apply urljoin_raises.
Qed.

Lemma build_lyric_url_returns rid lrc :
  exists l, _build_lyric_url cfg rid lrc = Ok l.
Proof.
  unfold _build_lyric_url, _build_music_params.
  repeat match goal with
         | |- context [if ?c then _ else _] => destruct c
         end; eauto.
Qed.

(** What the redirect resolver does with a URL tells whether the URL
    normalises. *)
Lemma resolve_final_url_normalizes url s r s' :
  _resolve_final_url chk cfg http url s = (r, s') ->
  match r with
  | Ok _ => exists n, _normalize_music_url chk cfg url = Ok n
  | Raise e => e = ValueError /\
               _normalize_music_url chk cfg url = Raise ValueError
  end.
Proof.
  intros H. unfold _resolve_final_url in H.
  apply bind_cases in H as [(n & t1 & Ha & H)|(e' & Ha & ->)].
  - unfold lift in Ha. injection Ha as Ha _.
    destruct r as [x|e]; [eauto|]. exfalso.
    destruct (negb (Py.truthy n)); [discriminate|].
    apply bind_cases in H as [(bh & t2 & Hb & H)|(e' & Hb & _)].
    + destruct bh; [discriminate|].
      apply bind_cases in H as [(bg & t3 & Hc & H)|(e' & Hc & _)].
      * destruct bg; discriminate.
      * unfold try_except in Hc.
        destruct (bind _ _ t2) as [[x|ex] t]; discriminate.
    + unfold try_except in Hb.
      destruct (bind _ _ t1) as [[x|ex] t]; discriminate.
  - unfold lift in Ha. injection Ha as Ha _.
    pose proof (normalize_raises _ _ Ha) as ->. auto.
Qed.

(** X27.  When the [ValueError] of the URL normaliser escapes from a
    resolve call: exactly when the URL of the call does not normalise, or
    it does and the source URL does not (the URL that the play-URL lookup
    returned when the call's URL normalises to nothing and a song id is
    known, the normalised URL of the call otherwise), which
    [_resolve_final_url] normalises outside its [try] blocks. *)
Theorem resolve_value_error_iff
  id song_id song_name artist url lrc lyric ctx g :
  fst (resolve_music_url chk cfg http json_loads py_repr
         id song_id song_name artist url lrc lyric ctx g)
    = Raise ValueError <->
  _normalize_music_url chk cfg url = Raise ValueError \/
  exists n source_url,
    _normalize_music_url chk cfg url = Ok n /\
    (if negb (Py.truthy n) && opt_truthy (opt_or song_id id)
     then fst (_fetch_song_url cfg http py_repr
                 (opt_str (opt_or song_id id)) g) = Ok source_url
     else source_url = n) /\
    _normalize_music_url chk cfg source_url = Raise ValueError.
Proof.
  set (rid := opt_or song_id id).
  assert (Hblank : _normalize_music_url chk cfg "" = Ok "")
    by (apply normalize_blank; reflexivity).
  destruct (resolve_music_url chk cfg http json_loads py_repr
              id song_id song_name artist url lrc lyric ctx g)
    as [r g'] eqn:H.
  cbn [fst]. unfold resolve_music_url in H. fold rid in H.
  destruct (negb (opt_truthy rid) && negb (Py.truthy url)) eqn:Hmiss.
  { (* neither id nor URL *)
    unfold ret in H. injection H as <- _.
    apply andb_true_iff in Hmiss as [Hr Hu].
    apply negb_true_iff in Hr, Hu. apply truthy_false in Hu. subst url.
    split; [discriminate|].
    intros [Hn|(n & su & Hn & Hc & Hs)]; [congruence|].
    rewrite Hblank in Hn. injection Hn as <-.
    rewrite Hr, andb_false_r in Hc. subst su. congruence. }
  apply bind_cases in H as [(u0 & s1 & H0 & H)|(e & H0 & ->)];
    [|destruct ctx; discriminate].
  apply bind_cases in H as [(source & s2 & H1 & H)|(e & H1 & ->)].
  2:{ (* the URL of the call does not normalise *)
      unfold lift in H1. injection H1 as H1 _.
      pose proof (normalize_raises _ _ H1) as ->.
      split; [auto|reflexivity]. }
  unfold lift in H1. injection H1 as H1 <-.
  apply bind_cases in H as [(looked & s3 & H2 & H)|(e & H2 & ->)].
  2:{ exfalso. destruct (negb (Py.truthy source) && opt_truthy rid);
        [|discriminate].
      apply bind_cases in H2 as [(u & t1 & Ha & H2)|(e' & Ha & _)];
        [|destruct ctx; discriminate].
      apply bind_cases in H2 as [(v & t2 & Hb & H2)|(e' & Hb & _)].
      - destruct (negb (Py.truthy v)); discriminate.
      - unfold _fetch_song_url, try_except in Hb.
        destruct (bind _ _ t1) as [[x|ex] t]; discriminate. }
  (* the source URL, or the lookup that gave nothing *)
  assert (Hlook :
            match looked with
            | Some su =>
                if negb (Py.truthy source) && opt_truthy rid
                then fst (_fetch_song_url cfg http py_repr (opt_str rid) g)
                     = Ok su
                else su = source
            | None =>
                negb (Py.truthy source) && opt_truthy rid = true /\
                fst (_fetch_song_url cfg http py_repr (opt_str rid) g)
                = Ok ""
            end).
  { destruct (negb (Py.truthy source) && opt_truthy rid).
    - apply bind_cases in H2 as [(u & t1 & Ha & H2)|(e' & Ha & [=])].
      apply bind_cases in H2 as [(v & t2 & Hb & H2)|(e' & Hb & [=])].
      assert (Hv : fst (_fetch_song_url cfg http py_repr (opt_str rid) g)
                   = Ok v).
      { rewrite (indep_fetch_song_url (opt_str rid) g t1), Hb. reflexivity. }
      destruct (Py.truthy v) eqn:Etv; cbn [negb] in H2;
        unfold ret in H2; injection H2 as <- _.
      + exact Hv.
      + apply truthy_false in Etv. subst v. auto.
    - unfold ret in H2. injection H2 as <- _. reflexivity. }
  clear H2.
  destruct looked as [su|].
  2:{ (* the lookup gave nothing *)
      unfold ret in H. injection H as <- _.
      destruct Hlook as [Hcond Hf].
      split; [discriminate|].
      intros [Hn|(n & su' & Hn & Hc & Hs)]; [congruence|].
      rewrite H1 in Hn. injection Hn as <-.
      fold rid in Hc. rewrite Hcond, Hf in Hc. injection Hc as <-.
      congruence. }
  apply bind_cases in H as [(u1 & s4 & H3 & H)|(e & H3 & ->)];
    [|destruct ctx; discriminate].
  apply bind_cases in H as [(final & s5 & H4 & H)|(e4 & H4 & ->)].
  2:{ (* the source URL does not normalise *)
      apply resolve_final_url_normalizes in H4 as [-> H4].
      split; [|reflexivity].
      intros _. right. exists source, su. auto. }
  apply resolve_final_url_normalizes in H4 as [n' H4].
  assert (Hr : r <> Raise ValueError).
  { intros ->.
    apply bind_cases in H as [(cache & s6 & H5 & H)|(e5 & H5 & _)];
      [|discriminate].
    apply bind_cases in H as [(lyric_url & s7 & H6 & H)|(e6 & H6 & _)].
    2:{ unfold lift in H6. injection H6 as H6 _.
        match type of H6 with
        | _build_lyric_url _ ?a ?b = _ =>
            destruct (build_lyric_url_returns a b) as [l Hl]
        end.
        congruence. }
    apply bind_cases in H as [(lyric_text & s8 & H7 & H)|(e7 & H7 & _)].
    2:{ destruct (negb (Py.truthy lyric_url) && opt_truthy rid);
          [|discriminate].
        apply bind_cases in H7 as [(u & t1 & Ha & H7)|(e' & Ha & _)];
          [|destruct ctx; discriminate].
        unfold _fetch_song_lyric, try_except in H7.
        destruct (bind _ _ t1) as [[x|ex] t]; discriminate. }
    apply bind_cases in H as [(u2 & s9 & H8 & H)|(e8 & H8 & _)];
      [|destruct ctx; discriminate].
    apply bind_cases in H as [(u3 & s10 & H9 & H)|(e9 & H9 & _)];
      [|discriminate].
    apply bind_cases in H as [(u4 & s11 & H10 & H)|(e10 & H10 & _)];
      [|destruct ctx; discriminate].
    discriminate. }
  split; [intros E; contradiction|].
  intros [Hn|(n & su' & Hn & Hc & Hs)]; [congruence|].
  rewrite H1 in Hn. injection Hn as <-. fold rid in Hc.
  assert (su' = su); [|congruence].
  destruct (negb (Py.truthy source) && opt_truthy rid); congruence.
Qed.


(** From the report of 55 on, a call ends in a resolved song or an
    exception. *)
Ltac resolved_tail H :=
  repeat (apply bind_cases in H as [(?a & ?s & ?Hm & H)|(?e & ?Hm & ->)];
          [|split; discriminate]);
  unfold ret in H; injection H as <- _; split; discriminate.

Ltac classes :=
  split;
  [ split; [intros ?E|intros [?Ha ?Hb]]
  | split; [intros ?E|intros (?Ha & ?Hb & ?Hc)] ];
  try discriminate; try congruence; try reflexivity; try solve [auto];
  try (subst; discriminate);
  try match goal with
      | Hx : ?t = Ok "", Hy : ?t = Ok ?v, Ht : Py.truthy ?v = true |- _ =>
          rewrite Hx in Hy; injection Hy as <-; discriminate
      end.

(** X28.  The two messages of [resolve_music_url].  The missing-song
    message is returned exactly when there is neither a song id nor a URL;
    the failed-lookup message exactly when there is a song id, the URL
    normalises to the empty string, and the play-URL lookup gives the empty
    string. *)
Theorem resolve_reply_classes
  id song_id song_name artist url lrc lyric ctx g :
  (fst (resolve_music_url chk cfg http json_loads py_repr
          id song_id song_name artist url lrc lyric ctx g)
     = Ok MissingSongInfo <->
   opt_truthy (opt_or song_id id) = false /\ url = "") /\
  (fst (resolve_music_url chk cfg http json_loads py_repr
          id song_id song_name artist url lrc lyric ctx g)
     = Ok UrlLookupFailed <->
   opt_truthy (opt_or song_id id) = true /\
   _normalize_music_url chk cfg url = Ok "" /\
   fst (_fetch_song_url cfg http py_repr (opt_str (opt_or song_id id)) g)
     = Ok "").
Proof.
  set (rid := opt_or song_id id).
  destruct (resolve_music_url chk cfg http json_loads py_repr
              id song_id song_name artist url lrc lyric ctx g)
    as [r g'] eqn:H.
  cbn [fst]. unfold resolve_music_url in H. fold rid in H.
  destruct (opt_truthy rid) eqn:Hrid; cbn [negb andb] in H.
  - (* an id is known *)
    apply bind_cases in H as [(u0 & s1 & H0 & H)|(e & H0 & ->)].
    2:{ destruct ctx; discriminate. }
    apply bind_cases in H as [(source & s2 & H1 & H)|(e & H1 & ->)].
    2:{ unfold lift in H1. injection H1 as H1 _. classes. }
    unfold lift in H1. injection H1 as H1 <-.
    destruct (Py.truthy source) eqn:Hsrc; cbn [negb andb] in H.
    + apply bind_cases in H as [(looked & s3 & H2 & H)|(e & H2 & ->)];
        [|discriminate].
      unfold ret in H2. injection H2 as <- <-.
      assert (Hrest : r <> Ok MissingSongInfo /\ r <> Ok UrlLookupFailed)
        by resolved_tail H.
      destruct Hrest as [Hm Hl]. classes.
    + apply truthy_false in Hsrc. subst source.
      apply bind_cases in H as [(looked & s3 & H2 & H)|(e & H2 & ->)].
      2:{ exfalso.
          apply bind_cases in H2 as [(u & t1 & Ha & H2)|(e' & Ha & _)];
            [|destruct ctx; discriminate].
          apply bind_cases in H2 as [(v & t2 & Hb & H2)|(e' & Hb & _)].
          - destruct (negb (Py.truthy v)); discriminate.
          - unfold _fetch_song_url, try_except in Hb.
            destruct (bind _ _ t1) as [[x|ex] t]; discriminate. }
      apply bind_cases in H2 as [(u & t1 & Ha & H2)|(e' & Ha & [=])].
      apply bind_cases in H2 as [(v & t2 & Hb & H2)|(e' & Hb & [=])].
      assert (Hv : fst (_fetch_song_url cfg http py_repr (opt_str rid) g)
                   = Ok v).
      { rewrite (indep_fetch_song_url (opt_str rid) g t1), Hb. reflexivity. }
      clear Hb.
      destruct (Py.truthy v) eqn:Etv; cbn [negb] in H2;
        unfold ret in H2; injection H2 as <- <-.
      * assert (Hrest : r <> Ok MissingSongInfo /\ r <> Ok UrlLookupFailed)
          by resolved_tail H.
        destruct Hrest as [Hm Hl]. clear H1. classes.
      * apply truthy_false in Etv. subst v.
        unfold ret in H. injection H as <- _. classes.
  - (* no id *)
    destruct (Py.truthy url) eqn:Hurl; cbn [negb] in H.
    + assert (Hrest : r <> Ok MissingSongInfo /\ r <> Ok UrlLookupFailed).
      { apply bind_cases in H as [(u0 & s1 & H0 & H)|(e & H0 & ->)];
          [|split; discriminate].
        apply bind_cases in H as [(source & s2 & H1 & H)|(e & H1 & ->)];
          [|split; discriminate].
        rewrite andb_false_r in H.
        apply bind_cases in H as [(looked & s3 & H2 & H)|(e & H2 & ->)];
          [|split; discriminate].
        unfold ret in H2. injection H2 as <- <-.
        resolved_tail H. }
      destruct Hrest as [Hm Hl]. classes.
    + apply truthy_false in Hurl. subst url.
      unfold ret in H. injection H as <- _. classes.
Qed.

End PlaybackProps.

(** ** The search tool *)

Section SearchToolProps.

Variable chk : string -> bool.
Variable cfg : Config.
Variable http : request -> result response.
Variable py_repr : json -> string.

(** X23.  [search_music_pro] never raises.  It answers with its
    nothing-found message exactly when the search gives no hit; otherwise
    with one row per hit, numbered from one, that shows the name, the
    artist and, when it is not empty, the URL of the hit. *)
Theorem search_music_pro_rows (query : string) (limit : Z) (g : globals) :
  exists results g' a,
    _search_api chk cfg http py_repr query limit g = (Ok results, g') /\
    search_music_pro chk cfg http py_repr query limit g = (Ok a, g') /\
    (results = [] /\ a = NothingFound query \/
     exists rows,
       results <> [] /\ a = Hits query rows /\
       List.length rows = List.length results /\
       forall k e, nth_error results k = Some e ->
         nth_error rows k =
           Some (Z.of_nat (S k), py_str py_repr (e_name e),
                 py_str py_repr (e_artist e),
                 if Py.truthy (e_url e) then Some (e_url e) else None)).
Proof.
  unfold search_music_pro, bind.
  destruct (try_except_returns
              (let* params :=
                 lift (_build_music_params cfg "netease" "search" query) in
               let* resp :=
                 send http (GET true (MUSIC_API_BASE_URL cfg) params) in
               if negb (status_code resp =? 200)%Z then ret []
               else
                 let* data := lift (json_body resp) in
                 let* items := lift (data_slice data limit) in
                 search_loop chk cfg py_repr items [])
              [] g) as (results & g' & Hs).
  change (_search_api chk cfg http py_repr query limit g = (Ok results, g'))
    in Hs.
  rewrite Hs. exists results, g'.
  destruct results as [|e0 rest] eqn:E.
  - eexists. split; [reflexivity|]. split; [reflexivity|]. now left.
  - rewrite <- E. eexists. split; [reflexivity|].
    split; [unfold ret; reflexivity|]. right. eexists.
    split; [congruence|]. split; [reflexivity|]. split.
    + now rewrite List.length_map, enumerate_length.
    + intros k e Hk. rewrite nth_error_map, (enumerate_nth 1 _ _ e Hk).
      cbn. unfold search_row. do 4 f_equal. lia.
Qed.

End SearchToolProps.

(** ** Worked cases of the further properties *)

Lemma fetch_lyric_by_url_text_witness :
  _fetch_lyric_by_url Demo.lrc_host "https://l/7.lrc" initial_globals
  = (Ok "[00:01.00]la la",
     add_events initial_globals
       [Request (GET false "https://l/7.lrc" [])]).
Proof.
  apply (proj2 (fetch_lyric_by_url_text Demo.lrc_host "https://l/7.lrc"
                  "[00:01.00]la la" initial_globals
                  (add_events initial_globals
                     [Request (GET false "https://l/7.lrc" [])])
                  ltac:(discriminate))).
  split; [discriminate|]. split; [reflexivity|].
  eexists. split; [reflexivity|]. split; reflexivity.
Defined.

Lemma first_lyric_line_timestamped_witness :
  Lyric._first_lyric_line
    (" [00:12.34] hello " ++ String "010" "[00:15.00]next")
  = "hello".
Proof.
  apply (first_lyric_line_timestamped " [00:12.34] hello " "[00:15.00]next" 10);
    [reflexivity | reflexivity | reflexivity | vm_compute; discriminate].
Defined.

Lemma demo_three_distinct :
  List.NoDup (List.map Player.id (Player.playlist Demo.three)).
Proof.
  repeat (constructor; [cbn; intuition discriminate|]). constructor.
Qed.

Lemma demo_three_position : Player.at_position Demo.three 0.
Proof. split; [cbn; lia|reflexivity]. Qed.

Lemma switch_advances_witness :
  Player.next_song Demo.three =
    Some (Player.NextIs "Song B" "Artist B",
          Player.mkState (Some (Player.FromPlaylist Demo.song_b))
            [Demo.song_a; Demo.song_b; Demo.song_c] true 50) /\
  Player.previous_song Demo.three =
    Some (Player.PreviousIs "Song C" "Artist C",
          Player.mkState (Some (Player.FromPlaylist Demo.song_c))
            [Demo.song_a; Demo.song_b; Demo.song_c] true 50).
Proof.
  destruct (switch_advances Demo.three 0 demo_three_distinct
              demo_three_position)
    as [(s & Hs & Hn) (s' & Hs' & Hp)].
  vm_compute in Hs. injection Hs as <-.
  vm_compute in Hs'. injection Hs' as <-.
  split; [exact Hn|exact Hp].
Defined.

Lemma next_previous_inverse_witness :
  (exists a st1,
     Player.next_song Demo.three = Some (a, st1) /\
     Player.previous_song st1 =
       Some (Player.PreviousIs "Song A" "Artist A", Demo.three)) /\
  (exists a st1,
     Player.previous_song Demo.three = Some (a, st1) /\
     Player.next_song st1 =
       Some (Player.NextIs "Song A" "Artist A", Demo.three)).
Proof.
  apply (next_previous_inverse Demo.three Demo.song_a demo_three_distinct);
    [now left|reflexivity].
Defined.

Lemma next_songs_position_witness :
  exists st',
    Player.next_songs 3 Demo.three = Some st' /\
    Player.playlist st' = Player.playlist Demo.three /\
    Player.volume st' = Player.volume Demo.three /\
    Player.at_position st' 0.
Proof.
  apply (next_songs_position 3 Demo.three 0 demo_three_distinct
           demo_three_position).
Defined.

Lemma switch_without_position_witness :
  Player.next_song (snd (Player.stop_music Demo.three)) =
    Some (Player.NextIs "Song A" "Artist A",
          Player.mkState (Some (Player.FromPlaylist Demo.song_a))
            [Demo.song_a; Demo.song_b; Demo.song_c] true 50) /\
  Player.previous_song (snd (Player.stop_music Demo.three)) =
    Some (Player.PreviousIs "Song C" "Artist C",
          Player.mkState (Some (Player.FromPlaylist Demo.song_c))
            [Demo.song_a; Demo.song_b; Demo.song_c] true 50).
Proof.
  apply (switch_without_position (snd (Player.stop_music Demo.three))
           Demo.song_a [Demo.song_b; Demo.song_c]);
    [reflexivity|intros cur H; discriminate H].
Defined.

Lemma duplicate_id_blocks_next_witness :
  exists q s,
    (0 <= q <= 2)%Z /\
    Player.getitem (Player.playlist Demo.repeated) q = Some s /\
    Player.mkState (Some (Player.FromPlaylist Demo.song_a_again))
      (Player.playlist Demo.repeated) true 50
    = Player.mkState (Some (Player.FromPlaylist s))
        (Player.playlist Demo.repeated) true (Player.volume Demo.repeated).
Proof.
  apply (duplicate_id_blocks_next 4 Demo.repeated
           (Player.mkState (Some (Player.FromPlaylist Demo.song_a_again))
              (Player.playlist Demo.repeated) true 50)
           0 2 Demo.song_a Demo.song_a_again);
    [lia | cbn; lia | reflexivity | reflexivity | reflexivity | now left
    | reflexivity].
Defined.

Lemma normalize_absolute_twice_witness :
  _normalize_music_url Sample.any_bracketed_host default_config "https://x/y"
  = Ok "https://x/y".
Proof.
  apply (normalize_absolute_twice Sample.any_bracketed_host default_config
           " //x/y " "https://x/y");
    [reflexivity | right; left; reflexivity].
Defined.

Lemma signature_shape_witness :
  exists signature,
    dict_get (signed_params Sample.secret_config "lrc" "7") "auth"
      = Some signature /\
    String.length signature = 40%nat /\
    Py.all is_lower_hex signature = true /\
    Urlencode.quote_plus signature = signature.
Proof.
  apply (signature_shape Sample.secret_config "netease" "lrc" "7"
           (signed_params Sample.secret_config "lrc" "7"));
    reflexivity.
Defined.

(** A call with a protocol-relative URL and no song id: the normalised
    URL is recorded as source URL and as id. *)
Lemma resolve_playback_witness :
  playback_state
    (snd (resolve_music_url Sample.any_bracketed_host default_config
            Sample.cdn_no_head Sample.loads Sample.repr_unused
            None None "Song A" "Artist A" "//x/y" "" "" false
            initial_globals))
  = mkPlayback
      (Some (mkCurrent "https://x/y" "Song A" "Artist A" "https://cdn/y.mp3"
               "https://x/y" ""))
      false.
Proof.
  destruct (resolve_music_url Sample.any_bracketed_host default_config
              Sample.cdn_no_head Sample.loads Sample.repr_unused
              None None "Song A" "Artist A" "//x/y" "" "" false
              initial_globals) as [r g'] eqn:E.
  pose proof (resolve_playback _ _ _ _ _ _ _ _ _ _ _ _ _ _ _ _ E) as H.
  vm_compute in E. injection E as <- <-.
  destruct H as (n & su & Hn & Hsu & Hp).
  vm_compute in Hn. injection Hn as <-.
  cbn in Hsu. subst su. exact Hp.
Defined.
